(** * Info-Guard: analysis orchestration, shallow embedding

    The development embeds the orchestration code of the Info-Guard
    repository (the Node.js analyze route and its background job, the
    Redis service wrapper, the Socket.IO progress channel, the WebSocket
    request handler, the Chrome extension's background service, and the
    Python analysis / batch services) and settles the properties stated
    for it.

    Conventions.
    - JavaScript and Python numbers are modelled as exact rationals [Q];
      no property below depends on binary rounding.
    - Clocks are integers ([Z]): seconds for Redis, milliseconds for
      [Date.now()].
    - Calls to services that live outside the repository (Redis, Prisma,
      the scorers, [Math.random]) are inputs of the model: a store that is
      threaded through, an outcome oracle, or a stream of draws. *)

From Stdlib Require Import ZArith QArith Qround Lia Lqa.
From stdpp Require Import gmap strings list.

#[local] Open Scope Z_scope.

(** ** Outcomes of fallible calls *)

(** A call either returns a value or throws an error carrying a message. *)
Inductive Outcome (A : Type) : Type :=
| Returned (a : A)
| Thrown (message : string).
Arguments Returned {A} a.
Arguments Thrown {A} message.

Definition is_returned {A} (o : Outcome A) : bool :=
  match o with Returned _ => true | Thrown _ => false end.

(** ** Redis: the store the cache code talks to

    Observable behaviour of [SET key value EX seconds] / [SETEX] and [GET]:
    a key written with an expiry is visible to [GET] strictly before its
    expiry time and invisible from then on; [EX] requires a positive number
    of seconds (the server answers "invalid expire time" otherwise and
    writes nothing). *)
Module Redis.

Record Entry (V : Type) := mkEntry { value : V; expires_at : Z }.
Arguments mkEntry {V} value expires_at.
Arguments value {V} e.
Arguments expires_at {V} e.

Definition get {V} (now : Z) (store : gmap string (Entry V)) (key : string)
  : option V :=
  match store !! key with
  | Some e => if bool_decide (now < expires_at e) then Some (value e) else None
  | None => None
  end.

Definition setEx {V} (now : Z) (store : gmap string (Entry V))
    (key : string) (seconds : Z) (v : V) : Outcome (gmap string (Entry V)) :=
  if bool_decide (0 < seconds)
  then Returned (<[key := mkEntry v (now + seconds)]> store)
  else Thrown "ERR invalid expire time".

Definition del {V} (store : gmap string (Entry V)) (key : string)
  : gmap string (Entry V) :=
  delete key store.

End Redis.

(** ** The Node.js analyze route: [router.post('/analyze')] and its
       background job ([src/nodejs-server/src/api/routes/analysis.js]) *)
Module NodeAnalysis.

Inductive Status := pending | processing | completed | failed.

(** The [result] object the job builds. *)
Record Scores := mkScores {
  credibility : Q;
  bias : Q;
  factuality : Q;
  overall : Q
}.

(** A row of [prisma.analysis].  Prisma generates the primary key; the
    model draws it from a counter, so that keys are unique. *)
Record Analysis := mkAnalysis {
  id : nat;
  videoUrl : string;
  userId : option string;
  status : Status;
  progress : Z;
  result : option Scores;
  error : option string
}.

(** What the job caches under [analysis:<videoUrl>]: the JSON text of
    [{ analysisId, result }], kept here as the object it encodes. *)
Record Cached := mkCached { analysisId : nat; cached_result : Scores }.

(** The closure handed to [setTimeout]: it captures [analysis] (used only
    through [analysis.id]) and [cacheKey]. *)
Record Job := mkJob { job_analysis : nat; job_cacheKey : string }.

Record State := mkState {
  db : gmap nat Analysis;
  next_id : nat;
  cache : gmap string (Redis.Entry Cached);
  timers : list Job;
  now : Z
}.

Definition initial : State := mkState ∅ 0%nat ∅ [] 0.

Record Request := mkRequest {
  req_videoUrl : string;
  req_userId : option string;
  (** [validationResult(req).isEmpty()] *)
  req_valid : bool
}.

Inductive Response :=
| BadRequest                                   (* 400 *)
| CachedCompleted (analysisId : nat) (r : Scores) (* 200, cached: true *)
| Accepted (analysisId : nat).                 (* 202, status 'pending' *)

Definition cacheKey (videoUrl : string) : string := "analysis:" +:+ videoUrl.

(** [prisma.analysis.create]: a new row, status 'pending', progress 0. *)
Definition create (s : State) (url : string) (user : option string)
  : State * Analysis :=
  let a := mkAnalysis (next_id s) url user pending 0 None None in
  (mkState (<[next_id s := a]> (db s)) (S (next_id s)) (cache s) (timers s) (now s), a).

(** [userId || null] *)
Definition or_null (o : option string) : option string :=
  match o with
  | Some t => if bool_decide (t = "") then None else Some t
  | None => None
  end.

(** The route handler awaits Redis first and Prisma afterwards.  [answer_early]
    is the part up to the cache test: it answers an invalid request and a
    cache hit, and otherwise lets the handler go on.  (The handler's own
    calls are taken to succeed; when one throws, the handler answers with
    status 500 and changes nothing.) *)
Definition answer_early (s : State) (req : Request) : option Response :=
  if negb (req_valid req) then Some BadRequest
  else
    match Redis.get (now s) (cache s) (cacheKey (req_videoUrl req)) with
    | Some c => Some (CachedCompleted (analysisId c) (cached_result c))
    | None => None
    end.

(** The rest of the handler: the row is created, the job is handed to
    [setTimeout], and the request is answered with status 202. *)
Definition create_and_schedule (s : State) (req : Request) : State * Response :=
  let '(s1, a) := create s (req_videoUrl req) (or_null (req_userId req)) in
  (mkState (db s1) (next_id s1) (cache s1)
           (timers s1 ++ [mkJob (id a) (cacheKey (req_videoUrl req))]) (now s1),
   Accepted (id a)).

(** The handler run without anything else in between. *)
Definition post_analyze (s : State) (req : Request) : State * Response :=
  match answer_early s req with
  | Some r => (s, r)
  | None => create_and_schedule s req
  end.

(** [prisma.analysis.update({ where: { id }, data })]: throws when no row
    has that id. *)
Definition update (d : gmap nat Analysis) (i : nat) (f : Analysis → Analysis)
  : Outcome (gmap nat Analysis) :=
  match d !! i with
  | Some a => Returned (<[i := f a]> d)
  | None => Thrown "Record to update not found."
  end.

Definition set_processing (a : Analysis) : Analysis :=
  mkAnalysis (id a) (videoUrl a) (userId a) processing 50 (result a) (error a).
Definition set_completed (r : Scores) (a : Analysis) : Analysis :=
  mkAnalysis (id a) (videoUrl a) (userId a) completed 100 (Some r) (error a).
Definition set_failed (msg : string) (a : Analysis) : Analysis :=
  mkAnalysis (id a) (videoUrl a) (userId a) failed (progress a) (result a) (Some msg).

(** The awaited calls of the job; each may be made to throw. *)
Inductive Call := UpdateProcessing | UpdateCompleted | CacheResult | UpdateFailed.

(** The "scorers" of the job: four successive [Math.random() * 100]. *)
Definition generate_result (rnd : nat → Q) : Scores :=
  mkScores (rnd 0%nat * 100) (rnd 1%nat * 100) (rnd 2%nat * 100) (rnd 3%nat * 100).

(** The [try] block.  [fault c = Some msg] makes call [c] throw [msg]
    (a lost connection, say) before it has any effect.  The result is the
    state reached and, if the block threw, the error. *)
Definition job_try (fault : Call → option string) (rnd : nat → Q)
    (s : State) (j : Job) : State * option string :=
  let with_db d := mkState d (next_id s) (cache s) (timers s) (now s) in
  match fault UpdateProcessing with
  | Some e => (s, Some e)
  | None =>
    match update (db s) (job_analysis j) set_processing with
    | Thrown e => (s, Some e)
    | Returned d1 =>
      let r := generate_result rnd in
      match fault UpdateCompleted with
      | Some e => (with_db d1, Some e)
      | None =>
        match update d1 (job_analysis j) (set_completed r) with
        | Thrown e => (with_db d1, Some e)
        | Returned d2 =>
          match fault CacheResult with
          | Some e => (with_db d2, Some e)
          | None =>
            match Redis.setEx (now s) (cache s) (job_cacheKey j) 3600
                    (mkCached (job_analysis j) r) with
            | Thrown e => (with_db d2, Some e)
            | Returned c =>
                (mkState d2 (next_id s) c (timers s) (now s), None)
            end
          end
        end
      end
    end
  end.

(** The [catch] block: record status 'failed' and the error message.  If
    that update throws as well the rejection is unhandled and the row
    stays as it is. *)
Definition job_catch (fault : Call → option string)
    (s : State) (j : Job) (e : string) : State :=
  match fault UpdateFailed with
  | Some _ => s
  | None =>
    match update (db s) (job_analysis j) (set_failed e) with
    | Returned d => mkState d (next_id s) (cache s) (timers s) (now s)
    | Thrown _ => s
    end
  end.

Definition run_job (fault : Call → option string) (rnd : nat → Q)
    (s : State) (j : Job) : State :=
  match job_try fault rnd s j with
  | (s', None) => s'
  | (s', Some e) => job_catch fault s' j e
  end.

Definition no_fault : Call → option string := λ _, None.

(** Events of the server: a request arrives, the [k]-th outstanding timer
    fires, or time passes. *)
Inductive Event :=
| Post (req : Request)
| Fire (k : nat) (fault : Call → option string) (rnd : nat → Q)
| Tick (seconds : Z).

Definition step (s : State) (e : Event) : State * option Response :=
  match e with
  | Post req => let '(s', r) := post_analyze s req in (s', Some r)
  | Fire k fault rnd =>
      match timers s !! k with
      | Some j =>
          let s0 := mkState (db s) (next_id s) (cache s) (delete k (timers s)) (now s) in
          (run_job fault rnd s0 j, None)
      | None => (s, None)
      end
  | Tick dt => (mkState (db s) (next_id s) (cache s) (timers s) (now s + Z.max 0 dt), None)
  end.

Fixpoint run (s : State) (es : list Event) : State * list Response :=
  match es with
  | [] => (s, [])
  | e :: es' =>
      let '(s1, r) := step s e in
      let '(s2, rs) := run s1 es' in
      (s2, match r with Some x => x :: rs | None => rs end)
  end.

(** A session is in flight while its status is 'pending' or 'processing'. *)
Definition non_terminal (st : Status) : bool :=
  match st with pending | processing => true | completed | failed => false end.

Definition in_flight_for (url : string) (a : Analysis) : Prop :=
  videoUrl a = url ∧ non_terminal (status a) = true.

#[global] Instance in_flight_for_dec url a : Decision (in_flight_for url a).
Proof. unfold in_flight_for. apply _. Defined.

(** Number of in-flight sessions of a content id. *)
Definition in_flight (url : string) (s : State) : nat :=
  size (filter (λ kv, in_flight_for url kv.2) (db s)).

(** Keys are fresh: no row at or above the counter. *)
Definition fresh_ids (s : State) : Prop :=
  ∀ i, (next_id s ≤ i)%nat → db s !! i = None.

(** One analysis from request to result: the request is posted and, when
    it is accepted, its job (the timer queued last) runs; the outcome is
    the [result] the row of the new analysis then holds. *)
Definition analyse (fault : Call → option string) (rnd : nat → Q)
    (s : State) (req : Request) : option Scores :=
  let '(s1, r) := post_analyze s req in
  match r with
  | Accepted i =>
      let s2 := (step s1 (Fire (length (timers s1) - 1) fault rnd)).1 in
      match db s2 !! i with
      | Some a => result a
      | None => None
      end
  | _ => None
  end.

End NodeAnalysis.

(** ** The Redis service wrapper: [RedisService.set] / [get] / [delete]
       (Node.js server plan, [src/services/redis.js]) *)
Module RedisService.

Section Codec.
Context {V : Type}.
(** [JSON.stringify] and [JSON.parse] ([Thrown] is a [SyntaxError]). *)
Variable JSON_stringify : V → string.
Variable JSON_parse : string → Outcome V.

(** [redis.set(key, JSON.stringify(value), 'EX', expireSeconds)];
    [true] on success, [false] when the call throws. *)
Definition set (now : Z) (store : gmap string (Redis.Entry string))
    (key : string) (value : V) (expireSeconds : Z)
  : gmap string (Redis.Entry string) * bool :=
  match Redis.setEx now store key expireSeconds (JSON_stringify value) with
  | Returned store' => (store', true)
  | Thrown _ => (store, false)
  end.

(** The default of the third parameter. *)
Definition default_expireSeconds : Z := 3600.

(** [value ? JSON.parse(value) : null]; a missing key, an empty text
    and a parse error all give [null]. *)
Definition get (now : Z) (store : gmap string (Redis.Entry string))
    (key : string) : option V :=
  match Redis.get now store key with
  | Some text =>
      if bool_decide (text = "") then None
      else match JSON_parse text with
           | Returned v => Some v
           | Thrown _ => None
           end
  | None => None
  end.

Definition delete (store : gmap string (Redis.Entry string)) (key : string)
  : gmap string (Redis.Entry string) * bool :=
  (Redis.del store key, true).
End Codec.

(** A concrete codec, for booleans: ["true"] and ["false"]. *)
Definition stringify_bool (b : bool) : string := if b then "true" else "false".
Definition parse_bool (t : string) : Outcome bool :=
  if bool_decide (t = "true") then Returned true
  else if bool_decide (t = "false") then Returned false
  else Thrown "SyntaxError".

End RedisService.

(** ** The Chrome extension's background service
       ([InfoGuardBackgroundService]) *)
Module Extension.

Record AnalysisResult := mkResult {
  credibility_score : Q;
  bias_score : Q;
  sentiment_score : Q;
  content_quality : Q;
  fact_check_score : Q;
  source_reliability : Q;
  explanation : string;
  timestamp : Z;
  model_version : string
}.

(** An entry of [this.analysisCache]. *)
Record Slot := mkSlot { slot_result : AnalysisResult; slot_timestamp : Z }.

Record VideoData := mkVideoData {
  title : string; description : string; channel : string; url : string
}.

Record Service := mkService {
  analysisCache : gmap string Slot;
  userToken : option string
}.

(** 24 * 60 * 60 * 1000 *)
Definition day_ms : Z := 24 * 60 * 60 * 1000.

(** The cache test at the head of [analyzeVideo]. *)
Definition cache_get (now : Z) (c : gmap string Slot) (videoId : string)
  : option AnalysisResult :=
  match c !! videoId with
  | Some slot =>
      if bool_decide (now - slot_timestamp slot < day_ms)
      then Some (slot_result slot) else None
  | None => None
  end.

(** [this.analysisCache.set(videoId, { result, timestamp: Date.now() })] *)
Definition cache_set (now : Z) (c : gmap string Slot) (videoId : string)
    (r : AnalysisResult) : gmap string Slot :=
  <[videoId := mkSlot r now]> c.

(** The body of the Python server's answer: numeric and text fields by
    name. *)
Record Raw := mkRaw { numbers : gmap string Q; texts : gmap string string }.

(** [result.a || result.b || dflt] on numbers: a field counts when it is
    present and not zero. *)
Definition truthy_number (o : option Q) : option Q :=
  match o with
  | Some q => if Qeq_bool q 0%Q then None else Some q
  | None => None
  end.
Definition num_or (r : Raw) (a b : string) (dflt : Q) : Q :=
  match truthy_number (numbers r !! a) with
  | Some q => q
  | None => match truthy_number (numbers r !! b) with
            | Some q => q
            | None => dflt
            end
  end.
Definition truthy_text (o : option string) : option string :=
  match o with
  | Some t => if bool_decide (t = "") then None else Some t
  | None => None
  end.

(** [normalizeAnalysisResult(result)]; the default explanation text of the
    source is abbreviated. *)
Definition normalizeAnalysisResult (now : Z) (r : Raw) : AnalysisResult :=
  mkResult
    (num_or r "credibility_score" "overall_score" 0)
    (num_or r "bias_score" "bias_detection" 0)
    (num_or r "sentiment_score" "sentiment_analysis" (1 # 2))
    (num_or r "content_quality" "quality_score" 0)
    (num_or r "fact_check_score" "fact_verification" 0)
    (num_or r "source_reliability" "source_score" 0)
    (match truthy_text (texts r !! "explanation") with
     | Some t => t
     | None => match truthy_text (texts r !! "summary") with
               | Some t => t
               | None => "AI analysis completed."
               end
     end)
    now
    (default "1.0.0" (truthy_text (texts r !! "model_version"))).

Definition floorQ (x : Q) : Q := inject_Z (Qfloor x).

(** [generateMockAnalysis(videoData)]: [baseScore] takes the first draw,
    the object literal the next three, in source order.  (The fixed
    explanation text of the source is abbreviated.) *)
Definition generateMockAnalysis (now : Z) (rnd : nat → Q)
    (videoData : option VideoData) : AnalysisResult :=
  let baseScore := (60 + rnd 0%nat * 30)%Q in
  mkResult
    (floorQ baseScore)
    (floorQ (20 + rnd 1%nat * 30))
    ((3 # 10) + rnd 2%nat * (4 # 10))
    ((1 # 2) + rnd 3%nat * (4 # 10))
    (floorQ (baseScore - 10))
    (floorQ (baseScore - 5))
    "mock explanation"
    now
    "mock-1.0.0".

(** What the surroundings do during one [analyzeVideo]: the answer of the
    Python server to the posted video id and data ([Thrown] for a network
    error or a non-ok status), [navigator.onLine], the random source, and
    the clock, which is read once per call. *)
Record Env := mkEnv {
  analysis_api : string → option VideoData → Outcome Raw;
  onLine : bool;
  random : nat → Q;
  clock : Z
}.

Inductive Effect :=
| FetchAnalysis (videoId : string)
| SaveResult (videoId : string)
| Notify (videoId : string) (score : Q).

Definition requestVideoAnalysis (env : Env) (videoId : string)
    (videoData : option VideoData) : Outcome AnalysisResult :=
  match analysis_api env videoId videoData with
  | Returned raw => Returned (normalizeAnalysisResult (clock env) raw)
  | Thrown e =>
      if negb (onLine env)
      then Returned (generateMockAnalysis (clock env) (random env) videoData)
      else Thrown e
  end.

(** [saveAnalysisResult] posts only when a user token is held and never
    throws. *)
Definition saveAnalysisResult (sv : Service) (videoId : string) : list Effect :=
  match userToken sv with
  | Some _ => [SaveResult videoId]
  | None => []
  end.

Definition analyzeVideo (env : Env) (sv : Service) (videoId : string)
    (videoData : option VideoData)
  : Service * Outcome AnalysisResult * list Effect :=
  match cache_get (clock env) (analysisCache sv) videoId with
  | Some r => (sv, Returned r, [])
  | None =>
      match requestVideoAnalysis env videoId videoData with
      | Thrown e => (sv, Thrown e, [FetchAnalysis videoId])
      | Returned r =>
          (mkService (cache_set (clock env) (analysisCache sv) videoId r)
                     (userToken sv),
           Returned r,
           [FetchAnalysis videoId] ++ saveAnalysisResult sv videoId
             ++ [Notify videoId (credibility_score r)])
      end
  end.

End Extension.

(** ** The WebSocket request handler: [handleAnalysisRequest]
       (backend server entry point) *)
Module WsServer.

(** The fields read from the [start_analysis] message. *)
Record StartData := mkStartData {
  videoUrl : option string;
  videoId : option string
}.

(** JavaScript truthiness of an optional string. *)
Definition truthy (o : option string) : bool :=
  match o with
  | Some t => negb (bool_decide (t = ""))
  | None => false
  end.

(** [videoUrl || videoId] *)
Definition js_or (a b : option string) : option string :=
  if truthy a then a else b.

(** How often each service has been invoked so far. *)
Record Calls := mkCalls { youtube_calls : nat; analysis_calls : nat }.

Section Services.
Context {VideoData Result : Type}.
(** The services, as outcome oracles: the first argument is the number
    of earlier invocations, so that a service may fail at first and
    succeed when called again. *)
Variable getVideoData : nat → string → Outcome VideoData.
Variable analyzeVideo : nat → VideoData → Outcome Result.

Inductive Message :=
| analysis_started (videoUrl videoId : option string)
| analysis_completed (data : Result)
| error_message (message : string).

(** The messages sent on the socket, in order, and the invocation
    counts afterwards. *)
Definition handleAnalysisRequest (w : Calls) (data : StartData)
  : Calls * list Message :=
  if negb (truthy (videoUrl data)) && negb (truthy (videoId data))
  then (w, [error_message "videoUrl or videoId is required"])
  else
    let started := analysis_started (videoUrl data) (videoId data) in
    let arg := default "" (js_or (videoUrl data) (videoId data)) in
    match getVideoData (youtube_calls w) arg with
    | Thrown e =>
        (mkCalls (S (youtube_calls w)) (analysis_calls w),
         [started; error_message e])
    | Returned videoData =>
        match analyzeVideo (analysis_calls w) videoData with
        | Thrown e =>
            (mkCalls (S (youtube_calls w)) (S (analysis_calls w)),
             [started; error_message e])
        | Returned r =>
            (mkCalls (S (youtube_calls w)) (S (analysis_calls w)),
             [started; analysis_completed r])
        end
    end.

Definition is_completed (m : Message) : bool :=
  match m with analysis_completed _ => true | _ => false end.
End Services.

Arguments Message : clear implicits.

End WsServer.

(** ** The Python analysis service: [AnalysisService]
       (Python server plan) *)
Module PyAnalysis.

(** Python's [round]: to the nearest integer, ties to the even one. *)
Definition round_half_even (x : Q) : Z :=
  let f := Qfloor x in
  match Qcompare (x - inject_Z f) (1 # 2) with
  | Lt => f
  | Gt => f + 1
  | Eq => if Z.even f then f else f + 1
  end.

(** [round(x, 2)] *)
Definition round2 (x : Q) : Q :=
  (inject_Z (round_half_even (x * 100)) / 100)%Q.

Definition weight_sentiment : Q := 2 # 10.
Definition weight_bias : Q := 4 # 10.
Definition weight_credibility : Q := 4 # 10.

(** [_calculate_overall_score]; a result dictionary maps field names to
    numbers, and [d.get(k, 50)] is [default 50 (d !! k)]. *)
Definition _calculate_overall_score
    (sentiment_result bias_result credibility_result : gmap string Q) : Q :=
  let sentiment_score := default 50%Q (sentiment_result !! "sentiment_score") in
  let bias_score := (100 - default 50 (bias_result !! "bias_score"))%Q in
  let credibility_score := default 50%Q (credibility_result !! "credibility_score") in
  let overall_score :=
    (sentiment_score * weight_sentiment +
     bias_score * weight_bias +
     credibility_score * weight_credibility)%Q in
  round2 overall_score.

(** The aggregate as the specification words it, for comparison: a
    weighted sum over the stages that are present, the weights divided by
    their sum.  Each stage is given as (weight, score). *)
Definition renormalized_weighted_sum (stages : list (Q * Q)) : Q :=
  (foldr (λ ws acc, ws.1 * ws.2 + acc) 0 stages
   / foldr (λ ws acc, ws.1 + acc) 0 stages)%Q.

Record ProgressEvent := mkEvent { step : string; progress : Z }.

(** What the generator does, in order: it yields an event or awaits a
    service call. *)
Inductive Item := Yield (e : ProgressEvent) | Await (call : string).

(** The services.  [get_video_data] returns the transcript when the video
    data has one ([video_data.get('transcript', '')]). *)
Record Services := mkServices {
  get_video_data : string → Outcome (option string);
  analyze_sentiment : string → Outcome (gmap string Q);
  analyze_bias : string → Outcome (gmap string Q);
  analyze_credibility : string → Outcome (gmap string Q)
}.

Definition and_then (items : list Item) (rest : list Item * option string)
  : list Item * option string :=
  (items ++ rest.1, rest.2).

(** [analyze_video_realtime(video_id)], consumed to its end: the items in
    order and the exception, if one escaped. *)
Definition analyze_video_realtime (sv : Services) (video_id : string)
  : list Item * option string :=
  and_then [Yield (mkEvent "started" 0);
            Yield (mkEvent "collecting_data" 20);
            Await "get_video_data"]
  match get_video_data sv video_id with
  | Thrown e => ([], Some e)
  | Returned video_data =>
    let transcript := default "" video_data in
    and_then [Yield (mkEvent "sentiment_analysis" 40); Await "analyze_sentiment"]
    match analyze_sentiment sv transcript with
    | Thrown e => ([], Some e)
    | Returned _ =>
      and_then [Yield (mkEvent "bias_detection" 60); Await "analyze_bias"]
      match analyze_bias sv transcript with
      | Thrown e => ([], Some e)
      | Returned _ =>
        and_then [Yield (mkEvent "credibility_analysis" 80);
                  Await "analyze_credibility"]
        match analyze_credibility sv transcript with
        | Thrown e => ([], Some e)
        | Returned _ => ([Yield (mkEvent "completed" 100)], None)
        end
      end
    end
  end.

Definition yielded (items : list Item) : list ProgressEvent :=
  omap (λ it, match it with Yield e => Some e | Await _ => None end) items.

(** The events an observer of the generator receives. *)
Definition events (sv : Services) (video_id : string) : list ProgressEvent :=
  yielded (analyze_video_realtime sv video_id).1.

(** Each event paired with the number of service calls that had returned
    when it was yielded. *)
Fixpoint with_completed (done : nat) (items : list Item)
  : list (ProgressEvent * nat) :=
  match items with
  | [] => []
  | Yield e :: rest => (e, done) :: with_completed done rest
  | Await _ :: rest => with_completed (S done) rest
  end.

(** The events of a run in which no service call throws. *)
Definition schedule : list ProgressEvent :=
  [mkEvent "started" 0; mkEvent "collecting_data" 20;
   mkEvent "sentiment_analysis" 40; mkEvent "bias_detection" 60;
   mkEvent "credibility_analysis" 80; mkEvent "completed" 100].

(** Events between "started" and "completed". *)
Definition is_stage_progress (e : ProgressEvent) : bool :=
  negb (bool_decide (step e = "started"))
  && negb (bool_decide (step e = "completed")).

(** [round(100 * k / n)] *)
Definition percent (k n : nat) : Z :=
  round_half_even (100 * inject_Z (Z.of_nat k) / inject_Z (Z.of_nat n))%Q.

End PyAnalysis.

(** ** The batch service: [BatchAnalysisService.process_videos]
       (AI service plan, phase 2) *)
Module Batch.

Section Process.
Context {Dict : Type}.
(** [analyze_single_video] is not part of the sources; it is taken as
    given, with whatever outcome it has on each url. *)
Variable analyze_single_video : string → Outcome Dict.

(** [[executor.submit(self.analyze_single_video, url) for url in urls]]:
    one future per url, here with the outcome it will hold. *)
Definition submit_all (urls : list string) : list (Outcome Dict) :=
  map analyze_single_video urls.

(** [as_completed(tasks)]: the futures in the order they finish, given
    as a list of task indices. *)
Definition as_completed (tasks : list (Outcome Dict)) (order : list nat)
  : list (Outcome Dict) :=
  omap (λ i, tasks !! i) order.

(** [[task.result() for task in ...]]: [result()] re-raises the
    exception of a failed future, which ends the comprehension. *)
Fixpoint collect (tasks : list (Outcome Dict)) : Outcome (list Dict) :=
  match tasks with
  | [] => Returned []
  | Thrown e :: _ => Thrown e
  | Returned d :: rest =>
      match collect rest with
      | Returned ds => Returned (d :: ds)
      | Thrown e => Thrown e
      end
  end.

Definition process_videos (urls : list string) (order : list nat)
  : Outcome (list Dict) :=
  collect (as_completed (submit_all urls) order).
End Process.

(** Per-item bookkeeping, for comparison with what the specification
    asks of a batch. *)
Definition successes {Dict} (os : list (Outcome Dict)) : nat :=
  length (filter (λ o, is_returned o = true) os).
Definition failures {Dict} (os : list (Outcome Dict)) : nat :=
  length (filter (λ o, is_returned o = false) os).

End Batch.

(** ** The Socket.IO progress channel: [setupSocketIO],
       [emitAnalysisProgress], [emitAnalysisComplete]
       (Node.js server, socket service) *)
Module SocketIO.

Section Channel.
Context {Result : Type}.

Inductive Emitted :=
| analysis_progress (analysisId : string) (progress : Z)
    (status message : string) (timestamp : Z)
| analysis_complete (analysisId : string) (result : Result) (timestamp : Z).

(** [io] (set by [setupSocketIO]), the rooms with the sockets that
    joined them, and what each socket has received, oldest first. *)
Record Server := mkServer {
  io : bool;
  rooms : gmap string (gset nat);
  received : nat → list Emitted
}.

Definition room (analysisId : string) : string := "analysis_" +:+ analysisId.

Definition members (sv : Server) (r : string) : gset nat :=
  default ∅ (rooms sv !! r).

(** [socket.join(room)] *)
Definition join (sv : Server) (socket : nat) (r : string) : Server :=
  mkServer (io sv) (<[r := {[socket]} ∪ members sv r]> (rooms sv)) (received sv).

(** [socket.leave(room)] *)
Definition leave (sv : Server) (socket : nat) (r : string) : Server :=
  mkServer (io sv) (<[r := members sv r ∖ {[socket]}]> (rooms sv)) (received sv).

(** [io.to(room).emit(...)]: delivered to the sockets that are in the
    room at that moment. *)
Definition emit_to (sv : Server) (r : string) (e : Emitted) : Server :=
  mkServer (io sv) (rooms sv)
    (λ socket, if decide (socket ∈ members sv r)
               then received sv socket ++ [e]
               else received sv socket).

(** The handlers of the 'subscribe_analysis' and 'unsubscribe_analysis'
    messages. *)
Definition subscribe_analysis (sv : Server) (socket : nat)
    (analysisId : string) : Server :=
  join sv socket (room analysisId).
Definition unsubscribe_analysis (sv : Server) (socket : nat)
    (analysisId : string) : Server :=
  leave sv socket (room analysisId).

Definition emitAnalysisProgress (sv : Server) (now : Z) (analysisId : string)
    (progress : Z) (status message : string) : Server :=
  if io sv
  then emit_to sv (room analysisId)
         (analysis_progress analysisId progress status message now)
  else sv.

Definition emitAnalysisComplete (sv : Server) (now : Z) (analysisId : string)
    (result : Result) : Server :=
  if io sv
  then emit_to sv (room analysisId) (analysis_complete analysisId result now)
  else sv.

(** What the pipeline asks the channel to send. *)
Inductive Emission :=
| Progress (now : Z) (analysisId : string) (progress : Z) (status message : string)
| Complete (now : Z) (analysisId : string) (result : Result).

Definition emission_target (m : Emission) : string :=
  match m with
  | Progress _ a _ _ _ => a
  | Complete _ a _ => a
  end.

Definition emission_event (m : Emission) : Emitted :=
  match m with
  | Progress t a p st msg => analysis_progress a p st msg t
  | Complete t a r => analysis_complete a r t
  end.

Definition emit (sv : Server) (m : Emission) : Server :=
  match m with
  | Progress t a p st msg => emitAnalysisProgress sv t a p st msg
  | Complete t a r => emitAnalysisComplete sv t a r
  end.

Definition emit_all (sv : Server) (ms : list Emission) : Server :=
  foldl emit sv ms.

(** The emissions that concern the rooms a socket is in. *)
Definition addressed_to (sv : Server) (socket : nat) (ms : list Emission)
  : list Emitted :=
  emission_event <$>
    filter (λ m, socket ∈ members sv (room (emission_target m))) ms.
End Channel.

Arguments Emitted : clear implicits.
Arguments Server : clear implicits.
Arguments Emission : clear implicits.

Definition started {Result} : Server Result := mkServer true ∅ (λ _, []).

End SocketIO.

(** ** Sessions and their cancellation *)
Module Session.

Inductive State := Pending | Running | Completed | Failed | Cancelled.

#[global] Instance State_eq_dec : EqDecision State.
Proof. solve_decision. Defined.

Definition terminal (st : State) : bool :=
  match st with
  | Pending | Running => false
  | Completed | Failed | Cancelled => true
  end.

(** Modelled from the spec: [handle_cancel_analysis], which the WebSocket
    endpoint calls on a 'cancel_analysis' message, is not in the sources.
    The specification's [cancel] "transitions a Pending/Running session
    to Cancelled; returns false if the session is already terminal". *)
Definition cancel (st : State) : State * bool :=
  if terminal st then (st, false) else (Cancelled, true).

(** Modelled from the spec: the executor's moves, "Pending -> Running ->
    {Completed, Failed, Cancelled}", the three last states being
    "terminal and irreversible".  A move that does not apply leaves the
    state as it is. *)
Inductive Move := Pickup | Complete | Fail | Cancel.

Definition move (st : State) (m : Move) : State :=
  match m, st with
  | Pickup, Pending => Running
  | Complete, Running => Completed
  | Fail, Running => Failed
  | Cancel, _ => (cancel st).1
  | _, _ => st
  end.

(** The states a session passes through under a sequence of moves. *)
Fixpoint trajectory (st : State) (ms : list Move) : list State :=
  match ms with
  | [] => []
  | m :: ms' => move st m :: trajectory (move st m) ms'
  end.

(** The session registry: [cancel(session_id)] on the session stored
    under the id; an unknown id is reported ([NotFound]). *)
Definition cancel_session (sessions : gmap string State) (session_id : string)
  : gmap string State * Outcome bool :=
  match sessions !! session_id with
  | Some st =>
      let '(st', changed) := cancel st in
      (<[session_id := st']> sessions, Returned changed)
  | None => (sessions, Thrown "NotFound")
  end.

End Session.

(** ** The Python WebSocket manager: [WebSocketManager.disconnect]
       (API integration plan) *)
Module WebSocketManager.

(** [active_connections] and [analysis_tasks] are keyed by client id; the
    tasks themselves live in the event loop, here [tasks], keyed by a
    handle.  A task is the session it runs: [Task.cancel()] has the
    contract of [Session.cancel] (it reports [False] for a task that is
    already done and cancels one that is not). *)
Record Manager := mkManager {
  active_connections : gmap string nat;
  analysis_tasks : gmap string nat;
  tasks : gmap nat Session.State
}.

Definition cancel_task (ts : gmap nat Session.State) (h : nat)
  : gmap nat Session.State :=
  match ts !! h with
  | Some st => <[h := (Session.cancel st).1]> ts
  | None => ts
  end.

Definition disconnect (m : Manager) (client_id : string) : Manager :=
  let connections := delete client_id (active_connections m) in
  match analysis_tasks m !! client_id with
  | Some h =>
      mkManager connections (delete client_id (analysis_tasks m))
                (cancel_task (tasks m) h)
  | None => mkManager connections (analysis_tasks m) (tasks m)
  end.

End WebSocketManager.

(** ** The analyze route of the API integration plan
       ([router.post('/analyze')], Node.js server API integration) *)
Module PlanRoute.

(** The answer of the Python server that the route stores. *)
Record AnalysisData := mkData { data_video_id : string; data_overall_score : Q }.

(** A stored analysis; the key is taken from a counter, as above. *)
Record Row := mkRow {
  id : nat;
  video_id : string;
  overall_score : Q;
  status : string
}.

Inductive Reply :=
| existing (r : Row)          (* the row found by [findFirst] *)
| saved (r : Row)             (* the row just created *)
| server_error (message : string).

(** [prisma.analysis.findFirst({ where: { video_id } })] *)
Definition findFirst (db : list Row) (v : string) : option Row :=
  head (filter (λ r, video_id r = v) db).

(** The handler up to the request to the Python server: an existing row
    is returned at once. *)
Definition answer_existing (db : list Row) (v : string) : option Reply :=
  existing <$> findFirst db v.

(** The handler from the answer of the Python server on, in the database
    as it is by then. *)
Definition store (db : list Row) (answer : Outcome AnalysisData)
  : list Row * Reply :=
  match answer with
  | Thrown e => (db, server_error e)
  | Returned d =>
      let r := mkRow (length db) (data_video_id d) (data_overall_score d) "completed" in
      (db ++ [r], saved r)
  end.

End PlanRoute.

(** ** The batch route: [router.post('/batch')] (analysis API router) *)
Module BatchRoute.

Record Video := mkVideo { videoUrl : option string; videoId : option string }.

(** The text a template literal gives for a value that may be undefined. *)
Definition text (o : option string) : string := default "undefined" o.

(** [`analysis:${videoId || videoUrl}`] *)
Definition cacheKey (v : Video) : string :=
  "analysis:" +:+ text (WsServer.js_or (videoId v) (videoUrl v)).

Section Services.
Context {VideoData Result : Type}.
Variable getVideoData : option string → Outcome VideoData.
Variable analyzeVideo : VideoData → Outcome Result.

(** An element of [results]. *)
Inductive Entry :=
| completed (videoId : option string) (result : Result) (cached : bool)
| failed (videoId : option string) (error : string).

(** One turn of the loop, with its [try] / [catch].  The cache service of
    the route is not in the sources; it is taken to be the keyed store with
    expiry that Redis is. *)
Definition process_item (now : Z) (cache : gmap string (Redis.Entry Result))
    (v : Video) : gmap string (Redis.Entry Result) * Entry :=
  let name := WsServer.js_or (videoId v) (videoUrl v) in
  match Redis.get now cache (cacheKey v) with
  | Some r => (cache, completed name r true)
  | None =>
    match getVideoData (WsServer.js_or (videoUrl v) (videoId v)) with
    | Thrown e => (cache, failed name e)
    | Returned videoData =>
      match analyzeVideo videoData with
      | Thrown e => (cache, failed name e)
      | Returned r =>
        match Redis.setEx now cache (cacheKey v) 3600 r with
        | Thrown e => (cache, failed name e)
        | Returned cache' => (cache', completed name r false)
        end
      end
    end
  end.

(** The loop over [videos]. *)
Fixpoint process_all (now : Z) (cache : gmap string (Redis.Entry Result))
    (videos : list Video) : gmap string (Redis.Entry Result) * list Entry :=
  match videos with
  | [] => (cache, [])
  | v :: rest =>
      let '(cache1, e) := process_item now cache v in
      let '(cache2, es) := process_all now cache1 rest in
      (cache2, e :: es)
  end.

Inductive Response :=
| bad_request (error message : string)       (* 400 *)
| ok (success : bool) (data : list Entry).   (* 200 *)

(** The handler; [videos] is [None] when the body has no array. *)
Definition post_batch (now : Z) (cache : gmap string (Redis.Entry Result))
    (videos : option (list Video))
  : gmap string (Redis.Entry Result) * Response :=
  match videos with
  | None => (cache, bad_request "Invalid request" "videos array is required")
  | Some vs =>
      if bool_decide (length vs = 0%nat)
      then (cache, bad_request "Invalid request" "videos array is required")
      else if bool_decide (10 < length vs)%nat
      then (cache, bad_request "Too many videos" "Maximum 10 videos allowed per batch")
      else let '(cache', es) := process_all now cache vs in (cache', ok true es)
  end.

Definition is_failed (e : Entry) : bool :=
  match e with failed _ _ => true | completed _ _ _ => false end.

(** The batch-level field of a response. *)
Definition success_of (r : Response) : option bool :=
  match r with ok b _ => Some b | bad_request _ _ => None end.

Definition data_of (r : Response) : list Entry :=
  match r with ok _ es => es | bad_request _ _ => [] end.
End Services.

Arguments Entry : clear implicits.
Arguments Response : clear implicits.

(** The status the specification asks a finished batch to carry, for
    comparison: Complete when every item succeeded, PartialSuccess
    otherwise. *)
Inductive BatchStatus := Complete | PartialSuccess.

Definition expected_status {Result} (es : list (Entry Result)) : BatchStatus :=
  if forallb (λ e, negb (is_failed e)) es then Complete else PartialSuccess.

End BatchRoute.

(** ** The analyze route, continued: [router.get('/status/:analysisId')],
       [router.get('/list')], and what the states of the server have in
       common *)
Module NodeRoutes.
Import NodeAnalysis.

#[global] Instance Status_eq_dec : EqDecision Status.
Proof. solve_decision. Defined.

(** The answer of the status route (the two dates are left out). *)
Inductive StatusResponse :=
| NotFound                                       (* 404 *)
| Found (analysisId : nat) (st : Status) (progress : Z)
    (result : option Scores) (error : option string).

Definition get_status (s : State) (analysisId : nat) : StatusResponse :=
  match db s !! analysisId with
  | Some a => Found (id a) (status a) (progress a) (result a) (error a)
  | None => NotFound
  end.

(** The text stored in the [status] column. *)
Definition status_name (st : Status) : string :=
  match st with
  | pending => "pending"
  | processing => "processing"
  | completed => "completed"
  | failed => "failed"
  end.

(** The [select] of the list route (again without the dates). *)
Record ListItem := mkItem {
  item_id : nat;
  item_videoUrl : string;
  item_status : Status;
  item_progress : Z
}.

Definition select (a : Analysis) : ListItem :=
  mkItem (id a) (videoUrl a) (status a) (progress a).

(** [orderBy: { createdAt: 'desc' }]: keys are handed out in the order of
    creation, so the newest row is the one with the largest key. *)
Definition newest_first (s : State) : list Analysis :=
  omap (λ i, db s !! i) (reverse (seq 0 (next_id s))).

(** [if (status) where.status = status] *)
Definition matches (status_query : option string) (a : Analysis) : bool :=
  match status_query with
  | Some t => if bool_decide (t = "") then true
              else bool_decide (status_name (status a) = t)
  | None => true
  end.

Record Page := mkPage {
  analyses : list ListItem;
  page_no : nat;
  page_limit : nat;
  total : nat;
  (** [Math.ceil(total / limit)]; a division by zero does not give a number *)
  pages : option nat
}.

Inductive ListResponse :=
| Listed (p : Page)
| ListFailed.                                    (* 500 *)

(** The list route for a page number and a limit given in digits.  Prisma
    rejects a negative [skip], which is what page 0 asks for. *)
Definition list_analyses (s : State) (page limit : nat)
    (status_query : option string) : ListResponse :=
  let rows := filter (λ a, matches status_query a = true) (newest_first s) in
  if bool_decide (page = 0%nat ∧ limit ≠ 0%nat) then ListFailed
  else
    let skip := ((page - 1) * limit)%nat in
    Listed (mkPage (select <$> take limit (drop skip rows)) page limit
                   (length rows)
                   (if bool_decide (limit = 0%nat) then None
                    else Some ((length rows + limit - 1) / limit)%nat)).

Definition page_rows (r : ListResponse) : list ListItem :=
  match r with Listed p => analyses p | ListFailed => [] end.

(** What a row looks like in each status. *)
Definition row_ok (a : Analysis) : Prop :=
  match status a with
  | pending => progress a = 0 ∧ result a = None ∧ error a = None
  | processing => progress a = 50 ∧ result a = None ∧ error a = None
  | completed => progress a = 100 ∧ is_Some (result a) ∧ error a = None
  | failed => is_Some (error a)
              ∧ (progress a = 0 ∨ progress a = 50 ∨ progress a = 100)
  end.

(** A queued job waits for a row that is still pending, and carries the
    cache key of the video of that row. *)
Definition job_ok (s : State) (j : Job) : Prop :=
  ∃ a, db s !! job_analysis j = Some a
       ∧ status a = pending
       ∧ job_cacheKey j = cacheKey (videoUrl a).

(** A cache entry names a completed row with the same scores, under the
    key of the video of that row. *)
Definition cached_ok (s : State) (k : string) (e : Redis.Entry Cached) : Prop :=
  ∃ a, db s !! analysisId (Redis.value e) = Some a
       ∧ status a = completed
       ∧ result a = Some (cached_result (Redis.value e))
       ∧ k = cacheKey (videoUrl a).

Record consistent (s : State) : Prop := mkConsistent {
  consistent_fresh : fresh_ids s;
  consistent_ids : ∀ i a, db s !! i = Some a → id a = i;
  consistent_rows : ∀ i a, db s !! i = Some a → row_ok a;
  consistent_jobs : Forall (job_ok s) (timers s);
  consistent_nodup : NoDup (job_analysis <$> timers s);
  consistent_cache : ∀ k e, cache s !! k = Some e → cached_ok s k e
}.

(** The ids with which a list of responses accepts requests. *)
Definition accepted_ids (rs : list Response) : list nat :=
  omap (λ r, match r with Accepted i => Some i | _ => None end) rs.

End NodeRoutes.

(** ** The cache service on top of the Redis service: [CacheService]
       (Node.js server plan, [src/services/cache.js]) *)
Module CacheService.

Section Codec.
Context {V : Type}.
Variable JSON_stringify : V → string.
Variable JSON_parse : string → Outcome V.

(** [this.defaultTTL] *)
Definition defaultTTL : Z := 3600.

(** [`analysis:${videoId}`] *)
Definition cacheKey (videoId : string) : string := "analysis:" +:+ videoId.

Definition getAnalysis (now : Z) (store : gmap string (Redis.Entry string))
    (videoId : string) : option V :=
  RedisService.get JSON_parse now store (cacheKey videoId).

Definition setAnalysis (now : Z) (store : gmap string (Redis.Entry string))
    (videoId : string) (data : V) (ttl : Z)
  : gmap string (Redis.Entry string) * bool :=
  RedisService.set JSON_stringify now store (cacheKey videoId) data ttl.

Definition invalidateAnalysis (store : gmap string (Redis.Entry string))
    (videoId : string) : gmap string (Redis.Entry string) * bool :=
  RedisService.delete store (cacheKey videoId).
End Codec.

End CacheService.

(** ** The analysis and feedback routes of the Node.js server plan
       ([src/api/routes/analysis.js], [src/api/routes/feedback.js]) *)
Module PlanApi.

(** A row of the [Analysis] model; [videoId] is declared [@unique].  The
    key is drawn from a counter. *)
Record Analysis := mkAnalysis {
  id : nat;
  videoId : string;
  videoUrl : option string;
  videoTitle : option string;
  channelId : option string;
  userId : option string;
  credibilityScore : Q;
  sentimentScore : Q;
  biasScore : Q;
  analysisData : string;
  status : string
}.

Record Feedback := mkFeedback {
  feedback_id : nat;
  analysisId : nat;
  feedback_userId : string;
  rating : Z;
  comment : option string
}.

Record State := mkState {
  analyses : list Analysis;
  feedbacks : list Feedback;
  next_id : nat
}.

Definition empty : State := mkState [] [] 0.

(** The body of [POST /]. *)
Record Body := mkBody {
  body_videoId : string;
  body_videoUrl : option string;
  body_videoTitle : option string;
  body_channelId : option string;
  body_userId : option string
}.

(** [prisma.analysis.findUnique({ where: { videoId } })] *)
Definition findUnique (rows : list Analysis) (v : string) : option Analysis :=
  head (filter (λ a, videoId a = v) rows).

(** [prisma.analysis.create]: the unique constraint on [videoId] makes the
    call throw when a row for the video exists. *)
Definition create (st : State) (b : Body) : Outcome (State * Analysis) :=
  match findUnique (analyses st) (body_videoId b) with
  | Some _ => Thrown "Unique constraint failed on the fields: (`videoId`)"
  | None =>
      let a := mkAnalysis (next_id st) (body_videoId b) (body_videoUrl b)
                 (body_videoTitle b) (body_channelId b) (body_userId b)
                 0 0 0 "{}" "pending" in
      Returned (mkState (analyses st ++ [a]) (feedbacks st) (S (next_id st)), a)
  end.

Inductive Reply :=
| already_analysed (a : Analysis)     (* 200, the row that exists *)
| requested (a : Analysis)            (* 200, the row just created *)
| found (a : Analysis)
| updated (a : Analysis)
| not_found                           (* 404 *)
| server_error (message : string).    (* 500 *)

(** [router.post('/')], from the moment its [findUnique] has found nothing:
    the [create], in the state the table is in by then. *)
Definition post_create (st : State) (b : Body) : State * Reply :=
  match create st b with
  | Returned (st', a) => (st', requested a)
  | Thrown e => (st, server_error e)
  end.

(** [router.post('/')] run without anything else in between. *)
Definition post (st : State) (b : Body) : State * Reply :=
  match findUnique (analyses st) (body_videoId b) with
  | Some a => (st, already_analysed a)
  | None => post_create st b
  end.

(** [router.get('/:videoId')] *)
Definition get (st : State) (v : string) : Reply :=
  match findUnique (analyses st) v with
  | Some a => found a
  | None => not_found
  end.

(** The fields [PATCH /:videoId] writes. *)
Record Patch := mkPatch {
  patch_status : string;
  patch_credibilityScore : Q;
  patch_sentimentScore : Q;
  patch_biasScore : Q;
  patch_analysisData : string
}.

Definition apply_patch (p : Patch) (a : Analysis) : Analysis :=
  mkAnalysis (id a) (videoId a) (videoUrl a) (videoTitle a) (channelId a)
    (userId a) (patch_credibilityScore p) (patch_sentimentScore p)
    (patch_biasScore p) (patch_analysisData p) (patch_status p).

(** [router.patch('/:videoId')]: [update] throws when no row has the video
    id. *)
Definition patch (st : State) (v : string) (p : Patch) : State * Reply :=
  match findUnique (analyses st) v with
  | Some a =>
      (mkState ((λ x, if bool_decide (videoId x = v) then apply_patch p x else x)
                <$> analyses st)
               (feedbacks st) (next_id st),
       updated (apply_patch p a))
  | None => (st, server_error "Record to update not found.")
  end.

(** What can happen to the table: a whole [POST /], the [create] of a
    [POST /] whose lookup was made earlier, or a [PATCH]. *)
Inductive Op :=
| Post (b : Body)
| LateCreate (b : Body)
| PatchOp (v : string) (p : Patch).

Definition step (st : State) (o : Op) : State * Reply :=
  match o with
  | Post b => post st b
  | LateCreate b => post_create st b
  | PatchOp v p => patch st v p
  end.

Definition run (st : State) (ops : list Op) : State :=
  foldl (λ st o, (step st o).1) st ops.

Inductive FeedbackReply :=
| feedback_registered (f : Feedback)
| feedback_exists.                    (* 400 *)

(** [prisma.feedback.findFirst({ where: { analysisId, userId } })] *)
Definition findFeedback (fs : list Feedback) (a : nat) (u : string)
  : option Feedback :=
  head (filter (λ f, analysisId f = a ∧ feedback_userId f = u) fs).

(** [router.post('/')] of the feedback routes. *)
Definition post_feedback (st : State) (a : nat) (u : string) (r : Z)
    (c : option string) : State * FeedbackReply :=
  match findFeedback (feedbacks st) a u with
  | Some _ => (st, feedback_exists)
  | None =>
      let f := mkFeedback (next_id st) a u r c in
      (mkState (analyses st) (feedbacks st ++ [f]) (S (next_id st)),
       feedback_registered f)
  end.

(** Who gave a feedback, and on what. *)
Definition feedback_key (f : Feedback) : nat * string :=
  (analysisId f, feedback_userId f).

(** A series of feedback posts, each with analysis id, user id, rating and
    comment. *)
Definition post_feedbacks (st : State)
    (posts : list (nat * string * Z * option string)) : State :=
  foldl (λ st '(a, u, r, c), (post_feedback st a u r c).1) st posts.

(** [router.get('/analysis/:analysisId')] (newest first). *)
Definition feedbacks_of (st : State) (a : nat) : list Feedback :=
  reverse (filter (λ f, analysisId f = a) (feedbacks st)).

End PlanApi.

(** ** The extension: cache upkeep and how a result is shown
       (background service, popup, content script) *)
Module ExtensionViews.
Import Extension.

(** 7 * 24 * 60 * 60 * 1000 *)
Definition maxAge : Z := 7 * 24 * 60 * 60 * 1000.

(** [optimizeMemory()]: every entry with [now - data.timestamp > maxAge] is
    deleted from the map. *)
Definition optimizeMemory (now : Z) (sv : Service) : Service :=
  mkService
    (filter (λ kv : string * Slot, ¬ (now - slot_timestamp kv.2 > maxAge))
       (analysisCache sv))
    (userToken sv).

(** [clearCache()] *)
Definition clearCache (sv : Service) : Service := mkService ∅ (userToken sv).

(** [score >= bound] and [score < bound] on numbers; [!score] holds of 0. *)
Definition ge (score bound : Q) : bool := Qle_bool bound score.
Definition lt (score bound : Q) : bool := negb (Qle_bool bound score).
Definition falsy (score : Q) : bool := Qeq_bool score 0.

(** The wording [showAnalysisNotification] chooses for a result. *)
Inductive Notice := high_credibility | medium_credibility | low_credibility.

Definition showAnalysisNotification (r : AnalysisResult) : Notice :=
  let score := credibility_score r in
  if ge score 80 then high_credibility
  else if ge score 60 then medium_credibility
  else low_credibility.

(** The popup's [getScoreGrade(score)] *)
Definition getScoreGrade (score : Q) : string :=
  if ge score 80 then "excellent"
  else if ge score 60 then "good"
  else if ge score 40 then "fair"
  else "poor".

(** The content script's [getScoreClass(score)] *)
Definition getScoreClass (score : Q) : string :=
  if falsy score then "unknown"
  else if ge score 80 then "excellent"
  else if ge score 60 then "good"
  else if ge score 40 then "fair"
  else "poor".

(** The texts of the popup's three descriptions: not available, and the
    three bands of each. *)
Inductive Description := unavailable | lower | middle | upper.

(** [getBiasDescription(score)] *)
Definition getBiasDescription (score : Q) : Description :=
  if falsy score then unavailable
  else if lt score 30 then lower
  else if lt score 60 then middle
  else upper.

(** [getSentimentDescription(score)] *)
Definition getSentimentDescription (score : Q) : Description :=
  if falsy score then unavailable
  else if lt score (3 # 10) then lower
  else if lt score (7 # 10) then middle
  else upper.

(** [getQualityDescription(score)] *)
Definition getQualityDescription (score : Q) : Description :=
  if falsy score then unavailable
  else if lt score (4 # 10) then lower
  else if lt score (7 # 10) then middle
  else upper.

(** What the popup's [displayResults(results)] shows: the score
    ([results.credibility_score || 0]), its grade and the three
    descriptions. *)
Record Shown := mkShown {
  shown_score : Q;
  shown_grade : string;
  shown_bias : Description;
  shown_sentiment : Description;
  shown_quality : Description
}.

Definition displayResults (r : AnalysisResult) : Shown :=
  let credibilityScore := if falsy (credibility_score r) then 0%Q
                          else credibility_score r in
  mkShown credibilityScore (getScoreGrade credibilityScore)
    (getBiasDescription (bias_score r))
    (getSentimentDescription (sentiment_score r))
    (getQualityDescription (content_quality r)).

End ExtensionViews.

(** ** The Python analysis API: [AnalysisService.analyze_video], the REST
       routes and the WebSocket endpoint, [BatchProcessor.process_batch]
       (Python server plan) *)
Module PyApi.
Import PyAnalysis.

(** [AnalysisResult]; the breakdown holds the three model results. *)
Record AnalysisResult := mkResult {
  video_id : string;
  video_url : option string;
  credibility_score : Q;
  sentiment_score : Q;
  bias_score : Q;
  analysis_breakdown : gmap string Q * gmap string Q * gmap string Q
}.

(** The cache service, whose code is not part of the sources, as outcome
    oracles. *)
Record CacheService := mkCacheService {
  get_analysis : string → Outcome (option AnalysisResult);
  save_analysis : string → AnalysisResult → Outcome unit
}.

(** The awaited calls, as they appear in a run. *)
Inductive Call :=
| GetAnalysis (video_id : string)
| GetVideoData (video_id : string)
| AnalyzeSentiment (transcript : string)
| AnalyzeBias (transcript : string)
| AnalyzeCredibility (transcript : string)
| SaveAnalysis (video_id : string) (result : AnalysisResult).

(** A coroutine body: the calls made so far, and a value or the exception
    that ended it. *)
Definition Run (A : Type) : Type := list Call * Outcome A.

Definition ret {A} (a : A) : Run A := ([], Returned a).

Definition bind {A B} (m : Run A) (f : A → Run B) : Run B :=
  match m.2 with
  | Returned a => (m.1 ++ (f a).1, (f a).2)
  | Thrown e => (m.1, Thrown e)
  end.

Definition await {A} (c : Call) (o : Outcome A) : Run A := ([c], o).

Notation "'let*' x ':=' m 'in' k" := (bind m (λ x, k))
  (at level 10, x name, m at level 100, k at level 200).

(** [d[k]] on a result dictionary. *)
Definition getitem (d : gmap string Q) (k : string) : Run Q :=
  match d !! k with
  | Some q => ret q
  | None => ([], Thrown ("KeyError: '" +:+ k +:+ "'"))
  end.

(** [not transcript]: [None] and the empty string are false. *)
Definition given (transcript : option string) : bool :=
  match transcript with
  | Some t => negb (bool_decide (t = ""))
  | None => false
  end.

(** [AnalysisService.analyze_video] *)
Definition analyze_video (sv : Services) (cs : CacheService)
    (video_id : string) (video_url transcript : option string)
  : Run AnalysisResult :=
  let* cached_result := await (GetAnalysis video_id) (get_analysis cs video_id) in
  match cached_result with
  | Some r => ret r
  | None =>
    let* transcript :=
      (if given transcript then ret (default "" transcript)
       else let* video_data := await (GetVideoData video_id)
                                 (get_video_data sv video_id) in
            ret (default "" video_data)) in
    let* sentiment_result := await (AnalyzeSentiment transcript)
                               (analyze_sentiment sv transcript) in
    let* bias_result := await (AnalyzeBias transcript)
                          (analyze_bias sv transcript) in
    let* credibility_result := await (AnalyzeCredibility transcript)
                                 (analyze_credibility sv transcript) in
    let overall_score :=
      _calculate_overall_score sentiment_result bias_result credibility_result in
    let* sentiment_score := getitem sentiment_result "sentiment_score" in
    let* bias_score := getitem bias_result "bias_score" in
    let result := mkResult video_id video_url overall_score sentiment_score
                    bias_score
                    (sentiment_result, bias_result, credibility_result) in
    let* saved := await (SaveAnalysis video_id result)
                    (save_analysis cs video_id result) in
    ret result
  end.

Inductive HttpResponse :=
| ok (data : AnalysisResult)                       (* 200 *)
| http_error (status_code : nat) (detail : string).

(** [POST /analyze] *)
Definition post_analyze (sv : Services) (cs : CacheService)
    (video_id : string) (video_url transcript : option string) : HttpResponse :=
  match (analyze_video sv cs video_id video_url transcript).2 with
  | Returned result => ok result
  | Thrown e => http_error 500 e
  end.

Section Result.
(** [AnalysisService.get_analysis_result], which is not part of the
    sources, and [str] of an [HTTPException]. *)
Variable get_analysis_result : string → Outcome (option AnalysisResult).
Variable str_of_http_exception : nat → string → string.

(** [GET /result/{video_id}]: the 404 is raised inside the [try], whose
    [except Exception] catches it.  (The detail text of the source is
    abbreviated.) *)
Definition get_result (video_id : string) : HttpResponse :=
  match get_analysis_result video_id with
  | Thrown e => http_error 500 e
  | Returned None =>
      http_error 500 (str_of_http_exception 404%nat "analysis result not found")
  | Returned (Some result) => ok result
  end.

Inductive WsMessage :=
| analysis_started (video_id : string)
| analysis_progress (video_id : string) (progress : ProgressEvent)
| analysis_completed (video_id : string) (result : option AnalysisResult)
| error_message (message : string).

(** [websocket_endpoint], for a client that stays connected: the texts
    sent, in order. *)
Definition websocket_endpoint (sv : Services) (video_id : string)
  : list WsMessage :=
  let run := analyze_video_realtime sv video_id in
  [analysis_started video_id]
  ++ (analysis_progress video_id <$> yielded run.1)
  ++ match run.2 with
     | Some e => [error_message e]
     | None =>
         match get_analysis_result video_id with
         | Returned final_result => [analysis_completed video_id final_result]
         | Thrown e => [error_message e]
         end
     end.

Definition is_terminal (m : WsMessage) : bool :=
  match m with
  | analysis_completed _ _ | error_message _ => true
  | _ => false
  end.
End Result.

(** [range(0, stop, step)] going up: the values [i], [i + step], ... below
    [stop]. *)
Fixpoint range_up (fuel : nat) (i stop step : Z) : list Z :=
  match fuel with
  | O => []
  | S fuel' =>
      if bool_decide (i < stop)
      then i :: range_up fuel' (i + step) stop step
      else []
  end.

(** [range(0, stop, step)] for [stop >= 0]: a zero step is an error, a
    negative one gives the empty range. *)
Definition range0 (stop step : Z) : Outcome (list Z) :=
  if bool_decide (step = 0)
  then Thrown "ValueError: range() arg 3 must not be zero"
  else if bool_decide (step < 0) then Returned []
  else Returned (range_up (Z.to_nat stop) 0 stop step).

(** [texts[i:j]] for [0 <= i]. *)
Definition slice {A} (texts : list A) (i j : Z) : list A :=
  take (Z.to_nat (j - i)) (drop (Z.to_nat i) texts).

Section BatchProcessor.
Context {Dict : Type}.
(** [_process_single_batch] is not part of the sources. *)
Variable _process_single_batch : list string → Outcome (list Dict).

(** The batches the loop of [process_batch] forms. *)
Definition batches (batch_size : Z) (texts : list string)
  : Outcome (list (list string)) :=
  match range0 (Z.of_nat (length texts)) batch_size with
  | Returned starts =>
      Returned ((λ i, slice texts i (i + batch_size)) <$> starts)
  | Thrown e => Thrown e
  end.

(** The loop body over the batches, [results] being extended in turn. *)
Fixpoint extend_all (results : list Dict) (bs : list (list string))
  : Outcome (list Dict) :=
  match bs with
  | [] => Returned results
  | batch :: rest =>
      match _process_single_batch batch with
      | Returned batch_results => extend_all (results ++ batch_results) rest
      | Thrown e => Thrown e
      end
  end.

(** [BatchProcessor.process_batch] *)
Definition process_batch (batch_size : Z) (texts : list string)
  : Outcome (list Dict) :=
  match batches batch_size texts with
  | Returned bs => extend_all [] bs
  | Thrown e => Thrown e
  end.
End BatchProcessor.

End PyApi.

(** ** The analysis API router: [router.post('/analyze-video')] and
       [router.get('/status/:videoId')] *)
Module AnalysisRouter.

(** The fields read from the body of [POST /analyze-video]. *)
Record Body := mkBody {
  videoUrl : option string;
  videoId : option string;
  transcript : option string;
  metadata : option string
}.

(** [`analysis:${videoId || videoUrl}`], the key the batch route forms
    too. *)
Definition cacheKey (b : Body) : string :=
  BatchRoute.cacheKey (BatchRoute.mkVideo (videoUrl b) (videoId b)).

Section Services.
Context {VideoData Result : Type}.
Variable getVideoData : option string → Outcome VideoData.
Variable analyzeVideo : VideoData → Outcome Result.
(** The video data put together from the body when it names no video:
    [{ videoId: 'unknown', transcript: transcript || '', metadata }]. *)
Variable provided : string → option string → VideoData.

Inductive Response :=
| json (data : Result) (cached : bool)    (* 200 *)
| next (error : string).                  (* handed to the error handler *)

(** [router.post('/analyze-video')], once the body has passed validation.
    The cache service of the route is not in the sources; it is taken to be
    the keyed store with expiry that Redis is. *)
Definition post_analyze_video (now : Z) (cache : gmap string (Redis.Entry Result))
    (b : Body) : gmap string (Redis.Entry Result) * Response :=
  match Redis.get now cache (cacheKey b) with
  | Some cachedResult => (cache, json cachedResult true)
  | None =>
    let videoData :=
      if WsServer.truthy (videoUrl b) || WsServer.truthy (videoId b)
      then getVideoData (WsServer.js_or (videoUrl b) (videoId b))
      else Returned (provided (default "" (WsServer.js_or (transcript b) None))
                       (metadata b)) in
    match videoData with
    | Thrown e => (cache, next e)
    | Returned videoData =>
      match analyzeVideo videoData with
      | Thrown e => (cache, next e)
      | Returned analysisResult =>
        match Redis.setEx now cache (cacheKey b) 3600 analysisResult with
        | Thrown e => (cache, next e)
        | Returned cache' => (cache', json analysisResult false)
        end
      end
    end
  end.

Inductive StatusResponse :=
| status_completed (videoId : string) (result : Result)
| status_not_found (videoId : string).

(** [router.get('/status/:videoId')] *)
Definition get_status (now : Z) (cache : gmap string (Redis.Entry Result))
    (videoId : string) : StatusResponse :=
  match Redis.get now cache ("analysis:" +:+ videoId) with
  | Some analysisResult => status_completed videoId analysisResult
  | None => status_not_found videoId
  end.
End Services.

Arguments Response : clear implicits.
Arguments StatusResponse : clear implicits.

End AnalysisRouter.

(** ** The metrics middleware: [collectMetrics] (API integration plan) *)
Module Metrics.

(** A request when its response has finished: what the handler reads of
    [req] and [res], and the time measured. *)
Record Finished := mkFinished {
  method : string;
  route_path : option string;
  path : string;
  statusCode : Z;
  duration : Q
}.

(** [global.apiMetrics] *)
Record ApiMetrics := mkApiMetrics {
  totalRequests : nat;
  totalDuration : Q;
  averageDuration : Q;
  requestCounts : gmap string nat;
  errorCounts : gmap string nat
}.

(** [`${req.method} ${req.route?.path || req.path}`] *)
Definition endpoint (rq : Finished) : string :=
  method rq +:+ " " +:+
  (if WsServer.truthy (route_path rq) then default "" (route_path rq) else path rq).

(** [(counts[endpoint] || 0) + 1] *)
Definition bump (counts : gmap string nat) (e : string) : gmap string nat :=
  <[e := (default 0 (counts !! e) + 1)%nat]> counts.

(** The ['finish'] handler; [global.apiMetrics] is undefined until the
    first response has finished. *)
Definition on_finish (g : option ApiMetrics) (rq : Finished) : option ApiMetrics :=
  let m := default (mkApiMetrics 0 0 0 ∅ ∅) g in
  let total := S (totalRequests m) in
  let dur := (totalDuration m + duration rq)%Q in
  Some (mkApiMetrics total dur (dur / inject_Z (Z.of_nat total))
          (bump (requestCounts m) (endpoint rq))
          (if bool_decide (400 ≤ statusCode rq)
           then bump (errorCounts m) (endpoint rq)
           else errorCounts m)).

(** The metrics after the responses of [log] have finished, in that
    order. *)
Definition collect (log : list Finished) : option ApiMetrics :=
  foldl on_finish None log.

(** What the counters should hold after a log of finished responses, as an
    invariant to be proved of [collect]. *)
Record counted (m : ApiMetrics) (log : list Finished) : Prop := mkCounted {
  counted_total : totalRequests m = length log;
  counted_requests : ∀ e,
    default 0%nat (requestCounts m !! e)
    = length (filter (λ rq, endpoint rq = e) log);
  counted_errors : ∀ e,
    default 0%nat (errorCounts m !! e)
    = length (filter (λ rq, endpoint rq = e ∧ 400 ≤ statusCode rq) log);
  counted_duration :
    (totalDuration m == foldr (λ rq acc, duration rq + acc) 0 log)%Q
}.

End Metrics.

(** ** The user routes: [router.post('/register')] and
       [router.post('/login')] (Node.js server, user routes) *)
Module UserRoutes.

(** A row of the [user] table; [email] is its unique key. *)
Record User := mkUser {
  id : nat;
  email : string;
  username : string;
  password : string
}.

Record State := mkState { users : list User; next_id : nat }.

Definition empty : State := mkState [] 0.

(** [prisma.user.findUnique({ where: { email } })] *)
Definition findUnique (rows : list User) (e : string) : option User :=
  head (filter (λ u, email u = e) rows).

Section Libraries.
(** The validator's [isEmail] and [normalizeEmail], [bcrypt.hash] (by the
    salt it draws) and [bcrypt.compare], and [jwt.sign] of the user id and
    email. *)
Variable isEmail : string → bool.
Variable normalizeEmail : string → string.
Variable hash : nat → string → string.
Variable compare : string → string → bool.
Variable sign : nat → string → string.

Inductive Reply :=
| invalid                                               (* 400 *)
| conflict                                              (* 409 *)
| registered (id : nat) (email username : string)       (* 201 *)
| unauthorized (error : string)                         (* 401 *)
| logged_in (token : string) (id : nat) (email username : string).

(** [router.post('/register')]: the validation chain, the lookup by the
    normalised email, and the creation.  Requests are handled one after the
    other, so the creation finds the e-mail free and nothing throws. *)
Definition register (salt : nat) (st : State) (email password username : string)
  : State * Reply :=
  if negb (isEmail email
           && (6 <=? String.length password)%nat
           && (2 <=? String.length username)%nat
           && (String.length username <=? 30)%nat)
  then (st, invalid)
  else
    let email := normalizeEmail email in
    match findUnique (users st) email with
    | Some existingUser => (st, conflict)
    | None =>
        let user := mkUser (next_id st) email username (hash salt password) in
        (mkState (users st ++ [user]) (S (next_id st)),
         registered (id user) email username)
    end.

(** [router.post('/login')]; the two 401 answers carry the same text in the
    source, which is abbreviated here. *)
Definition login (st : State) (email password : string) : Reply :=
  if negb (isEmail email && negb (bool_decide (password = "")))
  then invalid
  else
    let email := normalizeEmail email in
    match findUnique (users st) email with
    | None => unauthorized "wrong email or password"
    | Some user =>
        if compare password (UserRoutes.password user)
        then logged_in (sign (id user) (UserRoutes.email user)) (id user)
               (UserRoutes.email user) (UserRoutes.username user)
        else unauthorized "wrong email or password"
    end.

(** A series of registrations, each with the salt drawn for it. *)
Definition register_all (st : State)
    (requests : list (nat * string * string * string)) : State :=
  foldl (λ st '(salt, e, p, u), (register salt st e p u).1) st requests.
End Libraries.

End UserRoutes.

(** ** The content script's analysis button: [handleAnalysisClick],
       [monitorAnalysisProgress], [loadAnalysisResult]
       (Chrome extension, content script) *)
Module ContentScript.

(** The answer of the background script to a message: [response.success]
    with [response.data], or not. *)
Inductive Response (A : Type) := success (data : A) | failure.
Arguments success {A} data.
Arguments failure {A}.

(** The data of a status answer. *)
Record StatusData := mkStatusData { status : string; progress : option Z }.

Section Monitor.
Context {Result : Type}.

(** What the user gets to see. *)
Inductive Shown :=
| UpdateProgress (progress : Z)
| DisplayResult (result : Result)
| ShowMessage (message : string)
| ButtonAnalyzing
| ButtonReady.

(** [this.isAnalyzing], and what has been shown so far. *)
Record View := mkView { isAnalyzing : bool; shown : list Shown }.

Definition show (v : View) (s : Shown) : View :=
  mkView (isAnalyzing v) (shown v ++ [s]).

(** The answers of the background script: to the [n]-th status request,
    and to the request for the result. *)
Variable status_response : nat → Response StatusData.
Variable result_response : Response Result.

(** A status answer on which the monitor goes on asking. *)
Definition pending (k : nat) : Prop :=
  ∃ st, status_response k = success st
        ∧ status st ≠ "completed" ∧ status st ≠ "failed".

(** [loadAnalysisResult], with its [finally]. *)
Definition loadAnalysisResult (v : View) : View :=
  let v := match result_response with
           | success data => show v (DisplayResult data)
           | failure => show v (ShowMessage "cannot load the analysis result")
           end in
  mkView false (shown v ++ [ButtonReady]).

(** How a run of [checkProgress] and its reschedulings ends: by loading
    the result, or by an exception, which nothing catches since the call is
    never awaited. *)
Inductive End := loaded | uncaught (message : string).

Definition maxAttempts : nat := 60.

(** [status.progress || 0] *)
Definition progress_or_0 (p : option Z) : Z :=
  match p with
  | Some n => if bool_decide (n = 0) then 0 else n
  | None => 0
  end.

(** [checkProgress] with what it reschedules; [attempts] counts the
    requests made before, [fuel] the runs still allowed. *)
Fixpoint checkProgress (fuel : nat) (attempts : nat) (v : View)
  : option (View * nat * End) :=
  match fuel with
  | O => None
  | S fuel' =>
      let attempts := S attempts in
      match status_response attempts with
      | success st =>
          if bool_decide (status st = "completed")
          then Some (loadAnalysisResult v, attempts, loaded)
          else if bool_decide (status st = "failed")
          then Some (v, attempts, uncaught "the analysis failed")
          else if bool_decide (maxAttempts ≤ attempts)%nat
          then Some (v, attempts, uncaught "the analysis timed out")
          else checkProgress fuel' attempts
                 (show v (UpdateProgress (progress_or_0 (progress st))))
      | failure => Some (v, attempts, uncaught "status check failed")
      end
  end.

(** [monitorAnalysisProgress]: the view afterwards, the number of status
    requests made, and how it ended. *)
Definition monitorAnalysisProgress (v : View) : option (View * nat * End) :=
  checkProgress maxAttempts 0 v.

(** [handleAnalysisClick], given the answer to the analysis request. *)
Definition handleAnalysisClick (analyze_response : Response unit) (v : View)
  : option (View * nat) :=
  if isAnalyzing v
  then Some (show v (ShowMessage "already analysing"), 0%nat)
  else
    let v := show (mkView true (shown v)) ButtonAnalyzing in
    match analyze_response with
    | success _ =>
        match monitorAnalysisProgress v with
        | Some (v', requests, _) => Some (v', requests)
        | None => None
        end
    | failure =>
        let v := show (show v (ShowMessage "the analysis request failed"))
                   ButtonReady in
        Some (mkView false (shown v), 0%nat)
    end.
End Monitor.

Arguments Shown : clear implicits.
Arguments View : clear implicits.

End ContentScript.

(** ** The authentication middlewares: [authenticateToken] (API
       integration plan) and [authenticateUser] (Node.js server plan) *)
Module Auth.

(** [s.split(' ')] *)
Fixpoint split_space (s : string) : list string :=
  match s with
  | EmptyString => [EmptyString]
  | String c rest =>
      if Ascii.eqb c Ascii.Space
      then EmptyString :: split_space rest
      else match split_space rest with
           | piece :: pieces => String c piece :: pieces
           | [] => [String c EmptyString]
           end
  end.

(** [s.replace(pattern, '')]: the first occurrence of the pattern is taken
    out. *)
Fixpoint remove_first (pattern s : string) : string :=
  if String.prefix pattern s
  then String.substring (String.length pattern)
         (String.length s - String.length pattern) s
  else match s with
       | EmptyString => EmptyString
       | String c rest => String c (remove_first pattern rest)
       end.

(** A text without a space. *)
Fixpoint spaceless (s : string) : bool :=
  match s with
  | EmptyString => true
  | String c rest => negb (Ascii.eqb c Ascii.Space) && spaceless rest
  end.

Section Jwt.
Context {Claims User : Type}.
(** [jwt.verify], which fails with an error of some name; the user id in
    the claims; and [prisma.user.findUnique] by id. *)
Variable verify : string → Outcome Claims.
Variable userId : Claims → nat.
Variable findUnique : nat → Outcome (option User).

Inductive Reply (A : Type) :=
| next (user : A)            (* [req.user] is set and [next()] called *)
| status (code : nat).       (* answered with this status *)
Arguments next {A} user.
Arguments status {A} code.

(** [authenticateToken]; the header is [None] when the request has no
    [authorization] header. *)
Definition authenticateToken (authHeader : option string) : Reply Claims :=
  let token := match authHeader with
               | Some h => if bool_decide (h = "") then None
                           else split_space h !! 1%nat
               | None => None
               end in
  match token with
  | None => status 401
  | Some token =>
      if bool_decide (token = "") then status 401
      else match verify token with
           | Thrown err => status 403
           | Returned user => next user
           end
  end.

(** The [catch] of [authenticateUser]. *)
Definition caught (name : string) : Reply User :=
  if bool_decide (name = "JsonWebTokenError") then status 401 else status 500.

(** [authenticateUser] *)
Definition authenticateUser (authorization : option string) : Reply User :=
  match authorization with
  | None => status 401
  | Some h =>
      let token := remove_first "Bearer " h in
      if bool_decide (token = "") then status 401
      else match verify token with
           | Thrown name => caught name
           | Returned decoded =>
               match findUnique (userId decoded) with
               | Thrown name => caught name
               | Returned None => status 401
               | Returned (Some user) => next user
               end
           end
  end.
End Jwt.

Arguments next {A} user.
Arguments status {A} code.

End Auth.

(** ** The analyze route of the API integration plan, one request at a
       time: [router.post('/analyze')] and [router.get('/:analysis_id')] *)
Module PlanRouter.
Import PlanRoute.

(** [router.post('/analyze')] run without another request in between:
    [python] is the answer of the Python server, asked only when no row is
    found. *)
Definition post_analyze (db : list Row) (v : string)
    (python : Outcome AnalysisData) : list Row * Reply :=
  match answer_existing db v with
  | Some reply => (db, reply)
  | None => store db python
  end.

(** The table after a series of such requests, each with the answer the
    Python server has for it. *)
Definition serve (db : list Row) (requests : list (string * Outcome AnalysisData))
  : list Row :=
  foldl (λ db '(v, python), (post_analyze db v python).1) db requests.

Inductive Found := found (r : Row) | not_found.    (* 200, 404 *)

(** [router.get('/:analysis_id')] *)
Definition get (db : list Row) (analysis_id : nat) : Found :=
  match head (filter (λ r, id r = analysis_id) db) with
  | Some analysis => found analysis
  | None => not_found
  end.

End PlanRouter.

(** ** The WebSocket endpoint of the API integration plan:
       [WebSocketManager.connect], [websocket_endpoint],
       [handle_analysis_request] *)
Module WsEndpoint.
Import WebSocketManager.

(** [WebSocketManager.connect]: the socket is registered under the client
    id. *)
Definition connect (m : Manager) (websocket : nat) (client_id : string)
  : Manager :=
  mkManager (<[client_id := websocket]> (active_connections m))
            (analysis_tasks m) (tasks m).

(** What the client sends.  For 'start_analysis', [run] tells how the
    analysis ([analyze_with_progress], which is not in the sources) ends;
    it is [None] when the request fails before the task is created.
    [malformed] is a text on which [json.loads] or [message["type"]]
    raises. *)
Inductive ClientMessage :=
| start_analysis (run : option (Outcome unit))
| cancel_analysis
| other_message
| malformed.

(** [handle_analysis_request]: the task is created and registered, and
    the handler awaits it, so that the task has ended when the handler
    returns.  An exception is reported to the client and goes no
    further. *)
Definition handle_analysis_request (m : Manager) (client_id : string)
    (run : option (Outcome unit)) : Manager :=
  match run with
  | None => m
  | Some outcome =>
      let h := fresh (dom (tasks m)) in
      let ended := match outcome with
                   | Returned _ => Session.Completed
                   | Thrown _ => Session.Failed
                   end in
      mkManager (active_connections m)
                (<[client_id := h]> (analysis_tasks m))
                (<[h := ended]> (<[h := Session.Running]> (tasks m)))
  end.

Section Endpoint.
(** [handle_cancel_analysis] is not in the sources. *)
Variable handle_cancel_analysis : Manager → string → Manager.

(** One turn of the [while True] loop on a received text; the flag tells
    whether the loop goes on.  (A handler that fails to report its error
    ends the loop as a disconnect of the client at that point does.) *)
Definition turn (m : Manager) (client_id : string) (msg : ClientMessage)
  : Manager * bool :=
  match msg with
  | start_analysis run => (handle_analysis_request m client_id run, true)
  | cancel_analysis => (handle_cancel_analysis m client_id, true)
  | other_message => (m, true)
  | malformed => (m, false)
  end.

(** The loop over what the client sends before it disconnects. *)
Fixpoint loop (m : Manager) (client_id : string) (msgs : list ClientMessage)
  : Manager :=
  match msgs with
  | [] => m
  | msg :: rest =>
      let '(m', go_on) := turn m client_id msg in
      if go_on then loop m' client_id rest else m'
  end.

(** [websocket_endpoint]: both [except] clauses end in
    [manager.disconnect(client_id)]. *)
Definition websocket_endpoint (m : Manager) (websocket : nat)
    (client_id : string) (msgs : list ClientMessage) : Manager :=
  disconnect (loop (connect m websocket client_id) client_id msgs) client_id.
End Endpoint.

End WsEndpoint.

(** * Properties *)

(** ** The analyze route *)
Section NodeAnalysisFacts.
Import NodeAnalysis.

Lemma in_flight_insert_fresh url (d : gmap nat Analysis) i a :
  d !! i = None →
  in_flight_for url a →
  size (filter (λ kv, in_flight_for url kv.2) (<[i := a]> d))
  = S (size (filter (λ kv : nat * Analysis, in_flight_for url kv.2) d)).
Proof.
  intros Hnone Ha.
  rewrite map_filter_insert_True by done.
  apply map_size_insert_None, map_lookup_filter_None_2. by left.
Qed.

(** A valid request that finds no fresh cache entry creates a row under
    the next key and queues a job for it. *)
Lemma post_analyze_miss s req :
  req_valid req = true →
  Redis.get (now s) (cache s) (cacheKey (req_videoUrl req)) = None →
  post_analyze s req =
    (mkState
       (<[next_id s :=
            mkAnalysis (next_id s) (req_videoUrl req) (or_null (req_userId req))
                       pending 0 None None]> (db s))
       (S (next_id s)) (cache s)
       (timers s ++ [mkJob (next_id s) (cacheKey (req_videoUrl req))])
       (now s),
     Accepted (next_id s)).
Proof.
  intros Hv Hmiss. unfold post_analyze, answer_early. rewrite Hv, Hmiss. reflexivity.
Qed.

Lemma post_analyze_fresh_ids s req :
  fresh_ids s → fresh_ids (post_analyze s req).1.
Proof.
  intros Hf. unfold post_analyze, answer_early.
  destruct (negb (req_valid req)); [done|].
  destruct (Redis.get _ _ _); [done|].
  simpl. intros i Hi. simpl in *.
  rewrite lookup_insert_ne by lia. apply Hf. lia.
Qed.

Lemma repeated_posts n : ∀ s req,
  fresh_ids s →
  req_valid req = true →
  Redis.get (now s) (cache s) (cacheKey (req_videoUrl req)) = None →
  let out := run s (replicate n (Post req)) in
  out.2 = Accepted <$> seq (next_id s) n
  ∧ in_flight (req_videoUrl req) out.1 = (in_flight (req_videoUrl req) s + n)%nat
  ∧ cache out.1 = cache s
  ∧ length (timers out.1) = (length (timers s) + n)%nat.
Proof.
  induction n as [|n IH]; intros s req Hf Hv Hmiss.
  - simpl. repeat split; lia.
  - pose proof (post_analyze_fresh_ids s req Hf) as Hf'.
    pose proof (post_analyze_miss s req Hv Hmiss) as Hpost.
    simpl. rewrite Hpost in *. simpl in Hf'.
    set (s1 := mkState _ _ _ _ _) in *.
    specialize (IH s1 req Hf' Hv Hmiss).
    destruct (run s1 (replicate n (Post req))) as [s2 rs] eqn:Hrun.
    simpl in *. destruct IH as (Hrs & Hin & Hc & Ht).
    repeat split.
    + by rewrite Hrs.
    + rewrite Hin. unfold in_flight at 1. simpl.
      rewrite in_flight_insert_fresh.
      * unfold in_flight. lia.
      * apply Hf. lia.
      * by split.
    + done.
    + rewrite Ht, length_app. simpl. lia.
Qed.

End NodeAnalysisFacts.




(** C3: a request that finds a fresh cache entry for its video is answered
    at once with the cached, completed analysis.  In the analyze route the
    server state is left exactly as it was: no row is created and no job
    (the only place where scores are produced) is queued, and the single
    reply is the 'completed', [cached: true] response.  In the extension,
    [analyzeVideo] returns the cached result without contacting any server
    and without touching its cache. *)
Theorem cache_hit_is_immediate :
  (∀ (s : NodeAnalysis.State) (req : NodeAnalysis.Request)
     (e : Redis.Entry NodeAnalysis.Cached),
      NodeAnalysis.req_valid req = true →
      NodeAnalysis.cache s !! NodeAnalysis.cacheKey (NodeAnalysis.req_videoUrl req)
        = Some e →
      NodeAnalysis.now s < Redis.expires_at e →
      NodeAnalysis.step s (NodeAnalysis.Post req)
      = (s, Some (NodeAnalysis.CachedCompleted
                    (NodeAnalysis.analysisId (Redis.value e))
                    (NodeAnalysis.cached_result (Redis.value e)))))
  ∧ (∀ (env : Extension.Env) (sv : Extension.Service) (videoId : string)
       (videoData : option Extension.VideoData) (slot : Extension.Slot),
      Extension.analysisCache sv !! videoId = Some slot →
      Extension.clock env - Extension.slot_timestamp slot < Extension.day_ms →
      Extension.analyzeVideo env sv videoId videoData
      = (sv, Returned (Extension.slot_result slot), [])).
Proof.
  split.
  - intros s req e Hv He Hfresh. simpl.
    unfold NodeAnalysis.post_analyze, NodeAnalysis.answer_early, Redis.get.
    rewrite Hv, He. simpl. by rewrite bool_decide_eq_true_2.
  - intros env sv videoId videoData slot Hs Hfresh.
    unfold Extension.analyzeVideo, Extension.cache_get.
    rewrite Hs. by rewrite bool_decide_eq_true_2.
Qed.

Lemma cache_hit_is_immediate_witness :
  let scores := NodeAnalysis.mkScores 10 20 30 40 in
  let req := NodeAnalysis.mkRequest "https://www.youtube.com/watch?v=abc" None true in
  let e := Redis.mkEntry (NodeAnalysis.mkCached 0 scores) 3600 in
  let s := NodeAnalysis.mkState ∅ 1
             {[ NodeAnalysis.cacheKey "https://www.youtube.com/watch?v=abc" := e ]}
             [] 10 in
  let r := Extension.mkResult 80 20 (1 # 2) (7 # 10) 70 75 "ok" 5 "1.0.0" in
  let sv := Extension.mkService {[ "abc" := Extension.mkSlot r 5 ]} None in
  let env := Extension.mkEnv (λ _ _, Thrown "offline") false (λ _, 0%Q) 1000 in
  NodeAnalysis.step s (NodeAnalysis.Post req)
  = (s, Some (NodeAnalysis.CachedCompleted 0 scores))
  ∧ Extension.analyzeVideo env sv "abc" None = (sv, Returned r, []).
Proof.
  intros scores req e s r sv env. split.
  - apply (proj1 cache_hit_is_immediate s req e).
    + reflexivity.
    + apply lookup_singleton_eq.
    + simpl. lia.
  - apply (proj2 cache_hit_is_immediate env sv "abc" None (Extension.mkSlot r 5)).
    + apply lookup_singleton_eq.
    + vm_compute. reflexivity.
Defined.

(** ** What the background job commits *)
Section JobFacts.
Import NodeAnalysis.

Lemma update_present (d : gmap nat Analysis) i a f :
  d !! i = Some a → update d i f = Returned (<[i := f a]> d).
Proof. intros H. unfold update. by rewrite H. Qed.

(** The job of a freshly accepted request, run without faults, stores
    the generated scores in the row and in the cache. *)
Lemma analyse_commits rnd s req :
  req_valid req = true →
  Redis.get (now s) (cache s) (cacheKey (req_videoUrl req)) = None →
  analyse no_fault rnd s req = Some (generate_result rnd).
Proof.
  intros Hv Hmiss. unfold analyse.
  rewrite (post_analyze_miss s req Hv Hmiss). cbn [step timers].
  rewrite length_app. cbn [length].
  replace (length (timers s) + 1 - 1)%nat with (length (timers s) + 0)%nat by lia.
  rewrite lookup_app_r by lia.
  replace (length (timers s) + 0 - length (timers s))%nat with 0%nat by lia.
  cbn [lookup list_lookup fst].
  unfold run_job, job_try, no_fault. cbn [db job_analysis].
  rewrite (update_present _ _ _ _ (lookup_insert_eq _ _ _)).
  rewrite (update_present _ _ _ _ (lookup_insert_eq _ _ _)).
  unfold Redis.setEx. rewrite bool_decide_eq_true_2 by lia.
  cbn [db]. rewrite lookup_insert_eq. reflexivity.
Qed.

(** Whenever the [try] block throws, the cache is as it was. *)
Lemma job_try_thrown_cache fault rnd s j s' e :
  job_try fault rnd s j = (s', Some e) → cache s' = cache s.
Proof.
  unfold job_try. intros H.
  repeat match type of H with
         | context [match ?x with _ => _ end] => destruct x eqn:?
         end; by simplify_eq.
Qed.

(** Whenever the [try] block throws, the row of the analysis is still
    there if it was there before. *)
Lemma job_try_keeps_row fault rnd s j s' o a :
  job_try fault rnd s j = (s', o) →
  db s !! job_analysis j = Some a →
  ∃ a', db s' !! job_analysis j = Some a'.
Proof.
  unfold job_try, update. intros H Ha. rewrite Ha in H.
  repeat match type of H with
         | context [match ?x with _ => _ end] => destruct x eqn:?
         end; simplify_eq; simpl in *; simplify_map_eq; eauto.
Qed.

(** The progress the job records: 50 with status 'processing' after the
    first update, 100 with status 'completed' at the end. *)
Lemma job_progress_steps rnd s j a :
  db s !! job_analysis j = Some a →
  (∃ a1, db (job_try (λ c, match c with
                           | UpdateCompleted => Some "stop"
                           | _ => None
                           end) rnd s j).1 !! job_analysis j = Some a1
         ∧ status a1 = processing ∧ progress a1 = 50)
  ∧ (∃ a2, db (run_job no_fault rnd s j) !! job_analysis j = Some a2
           ∧ status a2 = completed ∧ progress a2 = 100
           ∧ result a2 = Some (generate_result rnd)).
Proof.
  intros Ha. split.
  - unfold job_try. rewrite (update_present _ _ _ _ Ha). cbn [fst db].
    exists (set_processing a). by rewrite lookup_insert_eq.
  - unfold run_job, job_try, no_fault.
    rewrite (update_present _ _ _ _ Ha).
    rewrite (update_present _ _ _ _ (lookup_insert_eq _ _ _)).
    unfold Redis.setEx. rewrite bool_decide_eq_true_2 by lia. cbn [db].
    exists (set_completed (generate_result rnd) (set_processing a)).
    by rewrite lookup_insert_eq.
Qed.

End JobFacts.

(** A run of the server: a request is accepted, its job completes, the
    same request is then answered from the cache with the id of the first
    analysis, and after an hour it starts a new analysis. *)
Example analyze_then_cached_then_expired :
  let req := NodeAnalysis.mkRequest "https://www.youtube.com/watch?v=abc" None true in
  let rnd : nat → Q := λ _, (1 # 2)%Q in
  let scores := NodeAnalysis.mkScores 50 50 50 50 in
  (NodeAnalysis.run NodeAnalysis.initial
     [NodeAnalysis.Post req;
      NodeAnalysis.Fire 0 NodeAnalysis.no_fault rnd;
      NodeAnalysis.Post req;
      NodeAnalysis.Tick 3600;
      NodeAnalysis.Post req]).2
  = [NodeAnalysis.Accepted 0;
     NodeAnalysis.CachedCompleted 0 (NodeAnalysis.generate_result rnd);
     NodeAnalysis.Accepted 1]
  ∧ (NodeAnalysis.credibility (NodeAnalysis.generate_result rnd)
     == NodeAnalysis.credibility scores)%Q.
Proof. vm_compute. split; reflexivity. Qed.

Lemma generate_result_differs (rnd rnd' : nat → Q) (k : nat) :
  (k < 4)%nat → ¬ (rnd k == rnd' k)%Q →
  NodeAnalysis.generate_result rnd ≠ NodeAnalysis.generate_result rnd'.
Proof.
  intros Hk Hne Heq. apply Hne.
  assert (Hnz : ¬ (100 == 0)%Q) by discriminate.
  apply (Qmult_inj_r _ _ 100 Hnz).
  destruct k as [|[|[|[|k]]]]; [..|lia].
  - apply (f_equal NodeAnalysis.credibility) in Heq.
    cbn [NodeAnalysis.credibility NodeAnalysis.generate_result] in Heq.
    rewrite Heq. reflexivity.
  - apply (f_equal NodeAnalysis.bias) in Heq.
    cbn [NodeAnalysis.bias NodeAnalysis.generate_result] in Heq.
    rewrite Heq. reflexivity.
  - apply (f_equal NodeAnalysis.factuality) in Heq.
    cbn [NodeAnalysis.factuality NodeAnalysis.generate_result] in Heq.
    rewrite Heq. reflexivity.
  - apply (f_equal NodeAnalysis.overall) in Heq.
    cbn [NodeAnalysis.overall NodeAnalysis.generate_result] in Heq.
    rewrite Heq. reflexivity.
Qed.



(** ** Failures *)

(** C4, as stated, fails: the video-data service throws on its first
    invocation and would return on a second one, yet the handler invokes it
    once only and reports the error. *)
Lemma retry_counterexample :
  let getVideoData : nat → string → Outcome string :=
    λ n _, if bool_decide (n = 0%nat) then Thrown "timeout" else Returned "data" in
  let analyzeVideo : nat → string → Outcome Q := λ _ _, Returned 75%Q in
  let data := WsServer.mkStartData None (Some "abc") in
  WsServer.handleAnalysisRequest getVideoData analyzeVideo (WsServer.mkCalls 0 0) data
  = (WsServer.mkCalls 1 0,
     [WsServer.analysis_started None (Some "abc"); WsServer.error_message "timeout"])
  ∧ getVideoData 1%nat "abc" = Returned "data".
Proof. split; reflexivity. Qed.

(** C4, amended: a failed invocation is not retried; the first failure
    ends the analysis.  In the WebSocket handler each service is invoked at
    most once, and when an invocation throws the messages sent are the
    start notice followed by one error message with the text of the error,
    with no completion message.  In the analyze route's job, when a call of
    the [try] block throws and the row can be updated, the analysis ends
    with status 'failed' and the message of the error, and nothing is
    cached. *)
Theorem failure_ends_the_analysis :
  (∀ (VideoData Result : Type)
     (getVideoData : nat → string → Outcome VideoData)
     (analyzeVideo : nat → VideoData → Outcome Result)
     (w : WsServer.Calls) (data : WsServer.StartData) (e : string),
      WsServer.truthy (WsServer.videoUrl data) || WsServer.truthy (WsServer.videoId data) = true →
      let arg := default "" (WsServer.js_or (WsServer.videoUrl data) (WsServer.videoId data)) in
      (getVideoData (WsServer.youtube_calls w) arg = Thrown e
       ∨ ∃ vd, getVideoData (WsServer.youtube_calls w) arg = Returned vd
               ∧ analyzeVideo (WsServer.analysis_calls w) vd = Thrown e) →
      let out := WsServer.handleAnalysisRequest getVideoData analyzeVideo w data in
      out.2 = [WsServer.analysis_started (WsServer.videoUrl data) (WsServer.videoId data);
               WsServer.error_message e]
      ∧ WsServer.youtube_calls out.1 = S (WsServer.youtube_calls w)
      ∧ (WsServer.analysis_calls out.1 ≤ S (WsServer.analysis_calls w))%nat
      ∧ Forall (λ m, WsServer.is_completed m = false) out.2)
  ∧ (∀ (fault : NodeAnalysis.Call → option string) (rnd : nat → Q)
       (s s' : NodeAnalysis.State) (j : NodeAnalysis.Job)
       (a : NodeAnalysis.Analysis) (e : string),
      NodeAnalysis.db s !! NodeAnalysis.job_analysis j = Some a →
      fault NodeAnalysis.UpdateFailed = None →
      NodeAnalysis.job_try fault rnd s j = (s', Some e) →
      ∃ a', NodeAnalysis.db (NodeAnalysis.run_job fault rnd s j)
              !! NodeAnalysis.job_analysis j = Some a'
            ∧ NodeAnalysis.status a' = NodeAnalysis.failed
            ∧ NodeAnalysis.error a' = Some e
            ∧ NodeAnalysis.cache (NodeAnalysis.run_job fault rnd s j)
              = NodeAnalysis.cache s).
Proof.
  split.
  - intros VideoData Result getVideoData analyzeVideo w data e Hreq arg Hfail out.
    subst out. unfold WsServer.handleAnalysisRequest.
    assert (negb (WsServer.truthy (WsServer.videoUrl data))
            && negb (WsServer.truthy (WsServer.videoId data)) = false) as ->.
    { destruct (WsServer.truthy (WsServer.videoUrl data)),
               (WsServer.truthy (WsServer.videoId data)); done. }
    fold arg.
    destruct Hfail as [H1 | (vd & H1 & H2)].
    + rewrite H1. simpl. repeat split; [lia|]. by repeat constructor.
    + rewrite H1, H2. simpl. repeat split; [lia|]. by repeat constructor.
  - intros fault rnd s s' j a e Ha Hnf Htry.
    unfold NodeAnalysis.run_job. rewrite Htry.
    destruct (job_try_keeps_row _ _ _ _ _ _ _ Htry Ha) as [a1 Ha1].
    unfold NodeAnalysis.job_catch. rewrite Hnf.
    rewrite (update_present _ _ _ _ Ha1). simpl.
    exists (NodeAnalysis.set_failed e a1).
    rewrite lookup_insert_eq. repeat split.
    by apply (job_try_thrown_cache fault rnd s j s' e).
Qed.

Lemma failure_ends_the_analysis_witness :
  let getVideoData : nat → string → Outcome string :=
    λ n _, if bool_decide (n = 0%nat) then Thrown "timeout" else Returned "data" in
  let analyzeVideo : nat → string → Outcome Q := λ _ _, Returned 75%Q in
  let data := WsServer.mkStartData None (Some "abc") in
  let out := WsServer.handleAnalysisRequest getVideoData analyzeVideo
               (WsServer.mkCalls 0 0) data in
  let row := NodeAnalysis.mkAnalysis 0 "https://www.youtube.com/watch?v=abc" None
               NodeAnalysis.pending 0 None None in
  let s := NodeAnalysis.mkState {[ 0%nat := row ]} 1 ∅ [] 0 in
  let j := NodeAnalysis.mkJob 0 "analysis:https://www.youtube.com/watch?v=abc" in
  let fault := λ c, match c with
                    | NodeAnalysis.UpdateCompleted => Some "connection lost"
                    | _ => None
                    end in
  let rnd : nat → Q := λ _, (1 # 2)%Q in
  (out.2 = [WsServer.analysis_started None (Some "abc"); WsServer.error_message "timeout"]
   ∧ WsServer.youtube_calls out.1 = 1%nat
   ∧ (WsServer.analysis_calls out.1 ≤ 1)%nat
   ∧ Forall (λ m, WsServer.is_completed m = false) out.2)
  ∧ ∃ a', NodeAnalysis.db (NodeAnalysis.run_job fault rnd s j) !! 0%nat = Some a'
          ∧ NodeAnalysis.status a' = NodeAnalysis.failed
          ∧ NodeAnalysis.error a' = Some "connection lost"
          ∧ NodeAnalysis.cache (NodeAnalysis.run_job fault rnd s j) = ∅.
Proof.
  intros getVideoData analyzeVideo data out row s j fault rnd. split.
  - apply (proj1 failure_ends_the_analysis string Q getVideoData analyzeVideo
             (WsServer.mkCalls 0 0) data "timeout").
    + reflexivity.
    + left. reflexivity.
  - apply (proj2 failure_ends_the_analysis fault rnd s
             (NodeAnalysis.job_try fault rnd s j).1 j row "connection lost").
    + apply lookup_singleton_eq.
    + reflexivity.
    + vm_compute. reflexivity.
Defined.

(** ** The overall score *)
Section ScoreFacts.
#[local] Open Scope Q_scope.

Lemma round_half_even_bounds (a b : Z) (x : Q) :
  inject_Z a <= x → x <= inject_Z b →
  (a ≤ PyAnalysis.round_half_even x ≤ b)%Z.
Proof.
  intros Ha Hb.
  pose proof (Qfloor_resp_le _ _ Ha) as Hfa. rewrite Qfloor_Z in Hfa.
  pose proof (Qfloor_resp_le _ _ Hb) as Hfb. rewrite Qfloor_Z in Hfb.
  pose proof (Qfloor_le x) as Hfx.
  assert (Hstep : 0 < x - inject_Z (Qfloor x) → (Qfloor x + 1 ≤ b)%Z).
  { intros Hpos.
    destruct (Z.eq_dec (Qfloor x) b) as [Heq|Hne]; [|lia].
    rewrite Heq in Hpos. lra. }
  unfold PyAnalysis.round_half_even.
  destruct (Qcompare_spec (x - inject_Z (Qfloor x)) (1 # 2)) as [He|Hl|Hg].
  - destruct (Z.even (Qfloor x)); [lia|].
    split; [lia|]. apply Hstep. rewrite He. reflexivity.
  - lia.
  - split; [lia|]. apply Hstep. lra.
Qed.

Lemma round2_bounds (x : Q) :
  0 <= x → x <= 100 → 0 <= PyAnalysis.round2 x ∧ PyAnalysis.round2 x <= 100.
Proof.
  intros H0 H100.
  destruct (round_half_even_bounds 0 10000 (x * 100)) as [Hlo Hhi].
  - change (inject_Z 0) with 0. lra.
  - change (inject_Z 10000) with 10000. lra.
  - unfold PyAnalysis.round2.
    rewrite Zle_Qle in Hlo, Hhi.
    change (inject_Z 0) with 0 in Hlo. change (inject_Z 10000) with 10000 in Hhi.
    split.
    + apply Qle_shift_div_l; [reflexivity|]. lra.
    + apply Qle_shift_div_r; [reflexivity|]. lra.
Qed.

(** [d.get(k, 50)] is in range when the stored score, if any, is. *)
Lemma default_in_range (d : gmap string Q) (k : string) :
  (∀ q, d !! k = Some q → 0 <= q ∧ q <= 100) →
  0 <= default 50 (d !! k) ∧ default 50 (d !! k) <= 100.
Proof.
  intros H. destruct (d !! k) as [q|]; simpl.
  - by apply H.
  - split; discriminate.
Qed.

End ScoreFacts.




(** ** Progress events *)
Section ProgressFacts.
Import PyAnalysis.

(** Whatever the services do, the observer sees a prefix of the fixed
    schedule, at least its first two events. *)
Lemma events_prefix sv video_id :
  ∃ k, (2 ≤ k)%nat ∧ events sv video_id = take k schedule
       ∧ ((analyze_video_realtime sv video_id).2 = None → k = 6%nat).
Proof.
  unfold events, analyze_video_realtime.
  destruct (get_video_data sv video_id) as [vd|e].
  2: { exists 2%nat. repeat split; [lia|done]. }
  destruct (analyze_sentiment sv (default "" vd)) as [d1|e].
  2: { exists 3%nat. repeat split; [lia|done]. }
  destruct (analyze_bias sv (default "" vd)) as [d2|e].
  2: { exists 4%nat. repeat split; [lia|done]. }
  destruct (analyze_credibility sv (default "" vd)) as [d3|e].
  2: { exists 5%nat. repeat split; [lia|done]. }
  exists 6%nat. repeat split; lia.
Qed.

Lemma schedule_progress i e :
  schedule !! i = Some e → progress e = 20 * Z.of_nat i ∧ (i < 6)%nat.
Proof.
  intros H.
  do 6 (destruct i as [|i]; [injection H as <-; split; [reflexivity|lia]|]).
  done.
Qed.

Lemma percent_of_five i : (i < 6)%nat → percent i 5 = 20 * Z.of_nat i.
Proof.
  intros H. do 6 (destruct i as [|i]; [vm_compute; reflexivity|]). lia.
Qed.

End ProgressFacts.

(** C5, as stated, fails: the generator takes a video id and nothing else,
    and every complete run yields four stage events, at 20, 40, 60 and 80
    per cent, before 'completed' at 100 -- not two at 50 and 100.  Nor is
    the figure the share of finished stages: 'sentiment_analysis' is
    announced with 40 when one of the four service calls has returned,
    where round(100 * 1 / 4) is 25. *)
Lemma progress_counterexample :
  let sv := PyAnalysis.mkServices (λ _, Returned (Some "transcript"))
              (λ _, Returned ∅) (λ _, Returned ∅) (λ _, Returned ∅) in
  let run := PyAnalysis.analyze_video_realtime sv "abc" in
  run.2 = None
  ∧ filter (λ e, PyAnalysis.is_stage_progress e = true) (PyAnalysis.yielded run.1)
    = [PyAnalysis.mkEvent "collecting_data" 20;
       PyAnalysis.mkEvent "sentiment_analysis" 40;
       PyAnalysis.mkEvent "bias_detection" 60;
       PyAnalysis.mkEvent "credibility_analysis" 80]
  ∧ PyAnalysis.with_completed 0 run.1 !! 2%nat
    = Some (PyAnalysis.mkEvent "sentiment_analysis" 40, 1%nat)
  ∧ PyAnalysis.percent 1 4 = 25.
Proof. vm_compute. repeat split. Qed.

(** C5, amended: the progress events follow a fixed schedule that does
    not depend on the request: 'started' 0, 'collecting_data' 20,
    'sentiment_analysis' 40, 'bias_detection' 60, 'credibility_analysis' 80,
    'completed' 100.  An observer sees a prefix of it (all of it when no
    service call throws); the percentages strictly increase, and the event
    at position [i] carries round(100 * i / 5). *)
Theorem progress_follows_fixed_schedule (sv : PyAnalysis.Services) (video_id : string) :
  (∃ k, (2 ≤ k)%nat ∧ PyAnalysis.events sv video_id = take k PyAnalysis.schedule)
  ∧ ((PyAnalysis.analyze_video_realtime sv video_id).2 = None →
     PyAnalysis.events sv video_id = PyAnalysis.schedule)
  ∧ (∀ i e, PyAnalysis.events sv video_id !! i = Some e →
            PyAnalysis.progress e = PyAnalysis.percent i 5)
  ∧ (∀ i j e e', (i < j)%nat →
       PyAnalysis.events sv video_id !! i = Some e →
       PyAnalysis.events sv video_id !! j = Some e' →
       PyAnalysis.progress e < PyAnalysis.progress e').
Proof.
  destruct (events_prefix sv video_id) as (k & Hk & Hev & Hall).
  assert (Hlook : ∀ i e, PyAnalysis.events sv video_id !! i = Some e →
                         PyAnalysis.progress e = 20 * Z.of_nat i ∧ (i < 6)%nat).
  { intros i e H. rewrite Hev in H. apply lookup_take_Some in H as [H _].
    by apply schedule_progress. }
  split; [by exists k|]. split; [|split].
  - intros Hnone. rewrite Hev, (Hall Hnone). reflexivity.
  - intros i e H. destruct (Hlook i e H) as [-> Hi].
    symmetry. by apply percent_of_five.
  - intros i j e e' Hij Hi Hj.
    destruct (Hlook i e Hi) as [-> _]. destruct (Hlook j e' Hj) as [-> _]. lia.
Qed.

Lemma progress_follows_fixed_schedule_witness :
  let sv := PyAnalysis.mkServices (λ _, Returned (Some "transcript"))
              (λ _, Returned ∅) (λ _, Thrown "model not loaded") (λ _, Returned ∅) in
  (∃ k, (2 ≤ k)%nat ∧ PyAnalysis.events sv "abc" = take k PyAnalysis.schedule)
  ∧ ((PyAnalysis.analyze_video_realtime sv "abc").2 = None →
     PyAnalysis.events sv "abc" = PyAnalysis.schedule)
  ∧ (∀ i e, PyAnalysis.events sv "abc" !! i = Some e →
            PyAnalysis.progress e = PyAnalysis.percent i 5)
  ∧ (∀ i j e e', (i < j)%nat →
       PyAnalysis.events sv "abc" !! i = Some e →
       PyAnalysis.events sv "abc" !! j = Some e' →
       PyAnalysis.progress e < PyAnalysis.progress e').
Proof.
  intros sv. exact (progress_follows_fixed_schedule sv "abc").
Defined.

(** ** The result cache *)



(** ** Cancellation *)
Section SessionFacts.
Import Session.

(** A terminal state is left by no move. *)
Lemma move_terminal st m : terminal st = true → move st m = st.
Proof. by destruct st, m. Qed.

Lemma trajectory_terminal st ms :
  terminal st = true → Forall (λ st', st' = st) (trajectory st ms).
Proof.
  intros Ht. induction ms as [|m ms IH]; simpl; [constructor|].
  rewrite (move_terminal st m Ht). by constructor.
Qed.

End SessionFacts.

(** C7: cancelling a Pending session makes it Cancelled and reports true,
    and whatever moves follow (pickup included) the session stays Cancelled,
    so it is never Running; cancelling a session that is Completed, Failed
    or Cancelled reports false and changes nothing.  The manager's
    [disconnect] applies the same cancellation to the task of the client
    and forgets the client. *)
Theorem cancel_pending_never_runs :
  (∀ (sessions : gmap string Session.State) (session_id : string),
      sessions !! session_id = Some Session.Pending →
      Session.cancel_session sessions session_id
      = (<[session_id := Session.Cancelled]> sessions, Returned true)
      ∧ ∀ ms, Forall (λ st, st = Session.Cancelled ∧ st ≠ Session.Running)
                (Session.trajectory Session.Cancelled ms))
  ∧ (∀ (sessions : gmap string Session.State) (session_id : string)
       (st : Session.State),
      sessions !! session_id = Some st →
      Session.terminal st = true →
      Session.cancel_session sessions session_id = (sessions, Returned false))
  ∧ (∀ (m : WebSocketManager.Manager) (client_id : string) (h : nat)
       (st : Session.State),
      WebSocketManager.analysis_tasks m !! client_id = Some h →
      WebSocketManager.tasks m !! h = Some st →
      let m' := WebSocketManager.disconnect m client_id in
      WebSocketManager.tasks m' !! h = Some (Session.cancel st).1
      ∧ WebSocketManager.analysis_tasks m' !! client_id = None
      ∧ WebSocketManager.active_connections m' !! client_id = None).
Proof.
  split; [|split].
  - intros sessions sid Hs. split.
    + unfold Session.cancel_session. rewrite Hs. reflexivity.
    + intros ms.
      eapply Forall_impl; [by apply trajectory_terminal|].
      intros st ->. by split.
  - intros sessions sid st Hs Ht.
    unfold Session.cancel_session, Session.cancel. rewrite Hs, Ht.
    by rewrite insert_id.
  - intros m client_id h st Hh Hst m'. subst m'.
    unfold WebSocketManager.disconnect, WebSocketManager.cancel_task.
    rewrite Hh, Hst. simpl. rewrite lookup_insert_eq, !lookup_delete_eq. done.
Qed.

Lemma cancel_pending_never_runs_witness :
  let sessions : gmap string Session.State :=
    {[ "s1" := Session.Pending; "s2" := Session.Completed ]} in
  (Session.cancel_session sessions "s1"
   = (<["s1" := Session.Cancelled]> sessions, Returned true)
   ∧ ∀ ms, Forall (λ st, st = Session.Cancelled ∧ st ≠ Session.Running)
             (Session.trajectory Session.Cancelled ms))
  ∧ Session.cancel_session sessions "s2" = (sessions, Returned false).
Proof.
  intros sessions. split.
  - apply (proj1 cancel_pending_never_runs sessions "s1"). reflexivity.
  - apply (proj1 (proj2 cancel_pending_never_runs) sessions "s2" Session.Completed);
      reflexivity.
Defined.

(** ** Batches *)
Section BatchFacts.
Context {Dict : Type}.
Implicit Types (tasks : list (Outcome Dict)) (ds : list Dict).

(** Read in submission order, the futures are the task list itself. *)
Lemma as_completed_in_order_aux tasks : ∀ pre : list (Outcome Dict),
  omap (λ i, (pre ++ tasks) !! i) (seq (length pre) (length tasks)) = tasks.
Proof.
  induction tasks as [|t tasks IH]; intros pre; [done|].
  cbn [length seq omap list_omap].
  rewrite list_lookup_middle by done.
  f_equal.
  specialize (IH (pre ++ [t])).
  rewrite length_app, <- app_assoc in IH. cbn in IH.
  by replace (length pre + 1)%nat with (S (length pre)) in IH by lia.
Qed.

Lemma as_completed_in_order tasks :
  Batch.as_completed tasks (seq 0 (length tasks)) = tasks.
Proof. apply (as_completed_in_order_aux tasks []). Qed.

(** In whatever order they finish, the futures collected are the tasks
    submitted. *)
Lemma as_completed_permutation tasks order :
  order ≡ₚ seq 0 (length tasks) → Batch.as_completed tasks order ≡ₚ tasks.
Proof.
  intros Hp. pose proof (as_completed_in_order tasks) as Hid.
  unfold Batch.as_completed in *. rewrite Hp. by rewrite Hid.
Qed.

Lemma collect_all_returned tasks :
  Forall (λ o, is_returned o = true) tasks →
  ∃ ds, Batch.collect tasks = Returned ds ∧ tasks = Returned <$> ds.
Proof.
  induction 1 as [|o tasks Ho _ IH]; [by exists []|].
  destruct IH as (ds & Hc & ->). destruct o as [d|e]; [|done].
  exists (d :: ds). simpl. by rewrite Hc.
Qed.

Lemma collect_some_thrown tasks e :
  Thrown e ∈ tasks →
  ∃ e', Batch.collect tasks = Thrown e' ∧ Thrown e' ∈ tasks.
Proof.
  induction tasks as [|o tasks IH]; intros Hin; [by apply elem_of_nil in Hin|].
  destruct o as [d|e0].
  - apply elem_of_cons in Hin as [Heq|Hin]; [done|].
    destruct (IH Hin) as (e' & Hc & He'). exists e'. simpl. rewrite Hc.
    split; [done|]. by right.
  - exists e0. split; [done|]. by left.
Qed.

End BatchFacts.

(** The Python batch service: of five videos the third fails, and the
    call as a whole raises that failure, in whatever order the items
    finish. *)
Example process_videos_raises :
  let analyze_single_video : string → Outcome string :=
    λ url, if bool_decide (url = "v3") then Thrown "analysis failed"
           else Returned ("result of " +:+ url) in
  let urls := ["v1"; "v2"; "v3"; "v4"; "v5"] in
  Batch.successes (Batch.submit_all analyze_single_video urls) = 4%nat
  ∧ Batch.failures (Batch.submit_all analyze_single_video urls) = 1%nat
  ∧ Batch.process_videos analyze_single_video urls [0; 1; 2; 3; 4]%nat
    = Thrown "analysis failed"
  ∧ Batch.process_videos analyze_single_video urls [4; 3; 1; 0; 2]%nat
    = Thrown "analysis failed".
Proof. vm_compute. repeat split. Qed.

(** [process_videos] returns the results of all items, in the order in
    which they finished, when every item succeeds; when some item fails it
    raises the error of a failed item. *)
Lemma process_videos_all_or_nothing (Dict : Type)
    (analyze_single_video : string → Outcome Dict)
    (urls : list string) (order : list nat) :
  order ≡ₚ seq 0 (length urls) →
  (Forall (λ url, is_returned (analyze_single_video url) = true) urls →
   ∃ results, Batch.process_videos analyze_single_video urls order = Returned results
              ∧ Returned <$> results ≡ₚ analyze_single_video <$> urls)
  ∧ (∀ url e, url ∈ urls → analyze_single_video url = Thrown e →
     ∃ url' e', url' ∈ urls ∧ analyze_single_video url' = Thrown e'
                ∧ Batch.process_videos analyze_single_video urls order = Thrown e').
Proof.
  intros Hp.
  assert (Hperm : Batch.as_completed (Batch.submit_all analyze_single_video urls) order
                  ≡ₚ analyze_single_video <$> urls).
  { apply as_completed_permutation. unfold Batch.submit_all.
    by rewrite length_map. }
  split.
  - intros Hall.
    destruct (collect_all_returned
                (Batch.as_completed (Batch.submit_all analyze_single_video urls) order))
      as (ds & Hc & Heq).
    + rewrite Hperm. by apply Forall_fmap.
    + exists ds. split; [done|]. by rewrite <- Heq.
  - intros url e Hin He.
    destruct (collect_some_thrown
                (Batch.as_completed (Batch.submit_all analyze_single_video urls) order) e)
      as (e' & Hc & Hin').
    + rewrite Hperm, <- He. by apply list_elem_of_fmap_2.
    + rewrite Hperm in Hin'.
      apply list_elem_of_fmap in Hin' as (url' & Heq & Hin').
      exists url', e'. by repeat split.
Qed.

Section BatchRouteFacts.
Context {VideoData Result : Type}.
Variable getVideoData : option string → Outcome VideoData.
Variable analyzeVideo : VideoData → Outcome Result.
Abbreviation process_item := (BatchRoute.process_item getVideoData analyzeVideo).
Abbreviation process_all := (BatchRoute.process_all getVideoData analyzeVideo).

Lemma process_all_app now (pre : list BatchRoute.Video) : ∀ cache post,
  process_all now cache (pre ++ post)
  = ((process_all now (process_all now cache pre).1 post).1,
     (process_all now cache pre).2
       ++ (process_all now (process_all now cache pre).1 post).2).
Proof.
  induction pre as [|v pre IH]; intros cache post; simpl.
  - by destruct (process_all now cache post).
  - destruct (process_item now cache v) as [c1 e]. rewrite IH.
    destruct (process_all now c1 pre) as [c2 es]. simpl.
    by destruct (process_all now c2 post).
Qed.

Lemma process_all_length now (videos : list BatchRoute.Video) : ∀ cache,
  length (process_all now cache videos).2 = length videos.
Proof.
  induction videos as [|v videos IH]; intros cache; simpl; [done|].
  destruct (process_item now cache v) as [c1 e]. specialize (IH c1).
  destruct (process_all now c1 videos). simpl in *. by rewrite IH.
Qed.

(** An item that is not cached and whose data collection or analysis
    throws gets a 'failed' entry with that error, and the cache is left as
    it was. *)
Lemma process_item_thrown now cache (v : BatchRoute.Video) e :
  Redis.get now cache (BatchRoute.cacheKey v) = None →
  (getVideoData (WsServer.js_or (BatchRoute.videoUrl v) (BatchRoute.videoId v))
   = Thrown e
   ∨ ∃ vd, getVideoData (WsServer.js_or (BatchRoute.videoUrl v) (BatchRoute.videoId v))
           = Returned vd
           ∧ analyzeVideo vd = Thrown e) →
  process_item now cache v
  = (cache,
     BatchRoute.failed
       (WsServer.js_or (BatchRoute.videoId v) (BatchRoute.videoUrl v)) e).
Proof.
  intros Hmiss [H1 | (vd & H1 & H2)]; unfold BatchRoute.process_item;
    rewrite Hmiss, H1; [done|]. by rewrite H2.
Qed.

End BatchRouteFacts.




(** ** Subscriptions *)
Section ChannelFacts.
Context {Result : Type}.
Implicit Types (sv : SocketIO.Server Result) (m : SocketIO.Emission Result).

Lemma emit_rooms sv m : SocketIO.rooms (SocketIO.emit sv m) = SocketIO.rooms sv.
Proof.
  destruct m; simpl;
    unfold SocketIO.emitAnalysisProgress, SocketIO.emitAnalysisComplete;
    by destruct (SocketIO.io sv).
Qed.

Lemma emit_io sv m : SocketIO.io (SocketIO.emit sv m) = SocketIO.io sv.
Proof.
  destruct m; simpl;
    unfold SocketIO.emitAnalysisProgress, SocketIO.emitAnalysisComplete;
    by destruct (SocketIO.io sv) eqn:Hio.
Qed.

Lemma emit_members sv m r :
  SocketIO.members (SocketIO.emit sv m) r = SocketIO.members sv r.
Proof. unfold SocketIO.members. by rewrite emit_rooms. Qed.

(** One emission reaches a socket exactly when the socket is in the room
    of the analysis, and is put after what the socket has received. *)
Lemma emit_received sv m socket :
  SocketIO.io sv = true →
  SocketIO.received (SocketIO.emit sv m) socket
  = SocketIO.received sv socket ++ SocketIO.addressed_to sv socket [m].
Proof.
  intros Hio. unfold SocketIO.addressed_to.
  destruct m as [t a p st msg | t a r]; simpl;
    unfold SocketIO.emitAnalysisProgress, SocketIO.emitAnalysisComplete;
    rewrite Hio; simpl; rewrite filter_cons, filter_nil; simpl;
    destruct (decide (socket ∈ SocketIO.members sv (SocketIO.room a)));
    simpl; by rewrite ?app_nil_r.
Qed.

Lemma addressed_to_emit sv m0 socket (ms : list (SocketIO.Emission Result)) :
  SocketIO.addressed_to (SocketIO.emit sv m0) socket ms
  = SocketIO.addressed_to sv socket ms.
Proof.
  unfold SocketIO.addressed_to. f_equal.
  induction ms as [|m ms IH]; [done|].
  rewrite !filter_cons, IH, emit_members. done.
Qed.

Lemma emit_all_received (ms : list (SocketIO.Emission Result)) : ∀ sv socket,
  SocketIO.io sv = true →
  SocketIO.received (SocketIO.emit_all sv ms) socket
  = SocketIO.received sv socket ++ SocketIO.addressed_to sv socket ms
  ∧ SocketIO.rooms (SocketIO.emit_all sv ms) = SocketIO.rooms sv.
Proof.
  induction ms as [|m ms IH]; intros sv socket Hio.
  - unfold SocketIO.addressed_to. simpl. by rewrite app_nil_r.
  - unfold SocketIO.emit_all in *. cbn [foldl].
    destruct (IH (SocketIO.emit sv m) socket) as [Hrec Hrooms].
    { by rewrite emit_io. }
    rewrite Hrec, Hrooms, emit_rooms, emit_received by done.
    rewrite addressed_to_emit. split; [|done].
    rewrite <- app_assoc. f_equal.
    unfold SocketIO.addressed_to.
    rewrite <- fmap_app. f_equal.
    rewrite (filter_cons _ m ms), filter_cons, filter_nil.
    by destruct (decide (socket ∈ SocketIO.members sv
                           (SocketIO.room (SocketIO.emission_target m)))).
Qed.

End ChannelFacts.

(** C9, as stated, fails: a socket that subscribes after the completion of
    an analysis has been announced receives nothing, and it is entered in
    the room of the analysis like any other subscriber. *)
Lemma late_subscriber_counterexample :
  let sv0 : SocketIO.Server Q := SocketIO.started in
  let sv1 := SocketIO.emitAnalysisComplete sv0 1000 "a1" 75%Q in
  let sv2 := SocketIO.subscribe_analysis sv1 7%nat "a1" in
  SocketIO.received sv2 7%nat = []
  ∧ 7%nat ∈ SocketIO.members sv2 (SocketIO.room "a1").
Proof.
  split; [reflexivity|].
  unfold SocketIO.members, SocketIO.subscribe_analysis, SocketIO.join. simpl.
  rewrite lookup_insert_eq. simpl. set_solver.
Qed.

(** C9, amended: subscribing always enters the socket in the room of the
    analysis, whatever the state of the analysis, and delivers nothing by
    itself.  A socket receives the events emitted for the rooms it is in,
    after those it has received before and in the order of emission;
    emitting changes no subscription. *)
Theorem subscribers_receive_in_order :
  (∀ (Result : Type) (sv : SocketIO.Server Result) (socket : nat) (analysisId : string),
      let sv' := SocketIO.subscribe_analysis sv socket analysisId in
      socket ∈ SocketIO.members sv' (SocketIO.room analysisId)
      ∧ SocketIO.received sv' = SocketIO.received sv)
  ∧ (∀ (Result : Type) (sv : SocketIO.Server Result)
       (ms : list (SocketIO.Emission Result)) (socket : nat),
      SocketIO.io sv = true →
      SocketIO.received (SocketIO.emit_all sv ms) socket
      = SocketIO.received sv socket ++ SocketIO.addressed_to sv socket ms
      ∧ SocketIO.rooms (SocketIO.emit_all sv ms) = SocketIO.rooms sv).
Proof.
  split.
  - intros Result sv socket analysisId sv'. subst sv'. split; [|reflexivity].
    unfold SocketIO.members, SocketIO.subscribe_analysis, SocketIO.join. simpl.
    rewrite lookup_insert_eq. simpl. set_solver.
  - intros Result sv ms socket Hio. by apply emit_all_received.
Qed.

Lemma subscribers_receive_in_order_witness :
  let sv : SocketIO.Server Q :=
    SocketIO.subscribe_analysis SocketIO.started 7%nat "a1" in
  let ms := [SocketIO.Progress 1 "a1" 50 "processing" "half way";
             SocketIO.Progress 2 "a2" 50 "processing" "half way";
             SocketIO.Complete 3 "a1" 75%Q] in
  SocketIO.received (SocketIO.emit_all sv ms) 7%nat
  = SocketIO.received sv 7%nat ++ SocketIO.addressed_to sv 7%nat ms
  ∧ SocketIO.rooms (SocketIO.emit_all sv ms) = SocketIO.rooms sv.
Proof.
  intros sv ms.
  apply (proj2 subscribers_receive_in_order Q sv ms 7%nat).
  reflexivity.
Defined.

(** What the witness amounts to: the subscriber of "a1" gets the two
    events of "a1", in order, and not the one of "a2". *)
Example subscriber_inbox :
  let sv : SocketIO.Server Q :=
    SocketIO.subscribe_analysis SocketIO.started 7%nat "a1" in
  let ms := [SocketIO.Progress 1 "a1" 50 "processing" "half way";
             SocketIO.Progress 2 "a2" 50 "processing" "half way";
             SocketIO.Complete 3 "a1" 75%Q] in
  SocketIO.received (SocketIO.emit_all sv ms) 7%nat
  = [SocketIO.analysis_progress "a1" 50 "processing" "half way" 1;
     SocketIO.analysis_complete "a1" 75%Q 3].
Proof. vm_compute. reflexivity. Qed.

(** * Further properties of the code *)

(** ** The analyze route: states, status, cache and list *)
Section RouteInvariant.
Import NodeAnalysis NodeRoutes.

Lemma run_job_effect fault rnd s j a :
  db s !! job_analysis j = Some a →
  status a = pending →
  row_ok a →
  ∃ a', db (run_job fault rnd s j) = <[job_analysis j := a']> (db s)
        ∧ id a' = id a ∧ videoUrl a' = videoUrl a ∧ row_ok a'
        ∧ next_id (run_job fault rnd s j) = next_id s
        ∧ timers (run_job fault rnd s j) = timers s
        ∧ now (run_job fault rnd s j) = now s
        ∧ (cache (run_job fault rnd s j) = cache s
           ∨ (status a' = completed
              ∧ result a' = Some (generate_result rnd)
              ∧ cache (run_job fault rnd s j)
                = <[job_cacheKey j :=
                      Redis.mkEntry (mkCached (job_analysis j) (generate_result rnd))
                                    (now s + 3600)]> (cache s))).
Proof.
  intros Ha Hp Hok.
  unfold row_ok in Hok. rewrite Hp in Hok. destruct Hok as (Hpr & Hres & Herr).
  unfold run_job, job_try, job_catch, update, Redis.setEx.
  rewrite Ha, bool_decide_eq_true_2 by lia.
  destruct (fault UpdateProcessing) as [e1|] eqn:F1;
    destruct (fault UpdateCompleted) as [e2|] eqn:F2;
    destruct (fault CacheResult) as [e3|] eqn:F3;
    destruct (fault UpdateFailed) as [e4|] eqn:F4;
    cbn [db cache next_id timers now];
    rewrite ?Ha, ?lookup_insert_eq, ?insert_insert_eq;
    cbn [db cache next_id timers now];
    rewrite ?lookup_insert_eq, ?insert_insert_eq.
  all: try (exists a; rewrite insert_id by done; unfold row_ok; rewrite Hp;
            repeat split; auto; fail).
  all: try (eexists; split; [reflexivity|]; unfold row_ok; cbn;
            repeat split; eauto; fail).

Qed.

Lemma consistent_lt s i a : consistent s → db s !! i = Some a → (i < next_id s)%nat.
Proof.
  intros Hc Ha. destruct (decide (i < next_id s)%nat) as [|Hge]; [done|].
  rewrite (consistent_fresh s Hc i) in Ha by lia. done.
Qed.

Lemma initial_consistent : consistent initial.
Proof.
  split; simpl; try done; constructor.
Qed.

Lemma post_consistent s req : consistent s → consistent (post_analyze s req).1.
Proof.
  intros Hc. unfold post_analyze.
  destruct (answer_early s req) as [r|]; [done|].
  unfold create_and_schedule, create. cbn.
  set (n := next_id s).
  set (a := mkAnalysis n (req_videoUrl req) (or_null (req_userId req)) pending 0 None None).
  assert (Hn : db s !! n = None) by (apply (consistent_fresh s Hc); lia).
  split; cbn.
  - intros i Hi. cbn in *. rewrite lookup_insert_ne by lia.
    apply (consistent_fresh s Hc). lia.
  - intros i b Hb. apply lookup_insert_Some in Hb as [[<- <-]|[_ Hb]]; [done|].
    by apply (consistent_ids s Hc).
  - intros i b Hb. apply lookup_insert_Some in Hb as [[<- <-]|[_ Hb]].
    + by repeat split.
    + by apply (consistent_rows s Hc i).
  - apply Forall_app. split.
    + eapply Forall_impl; [apply (consistent_jobs s Hc)|].
      intros j (b & Hb & Hst & Hk). exists b. repeat split; [|done..].
      cbn. rewrite lookup_insert_ne; [done|].
      intros Heq. rewrite <- Heq, Hn in Hb. done.
    + constructor; [|constructor]. exists a. cbn.
      by rewrite lookup_insert_eq.
  - rewrite fmap_app. apply NoDup_app. split; [apply (consistent_nodup s Hc)|].
    split; [|cbn; apply NoDup_singleton].
    intros i Hi Hi'. cbn in Hi'. apply list_elem_of_singleton in Hi' as ->.
    apply list_elem_of_fmap in Hi as (j & Hj & Hin).
    pose proof (consistent_jobs s Hc) as Hjobs.
    rewrite Forall_forall in Hjobs. destruct (Hjobs j Hin) as (b & Hb & _).
    rewrite <- Hj, Hn in Hb. done.
  - intros k e He. destruct (consistent_cache s Hc k e He) as (b & Hb & Hrest).
    exists b. split; [|done]. cbn. rewrite lookup_insert_ne; [done|].
    intros Heq. rewrite <- Heq, Hn in Hb. done.
Qed.

Lemma delete_other_id {A B} (f : A → B) (l : list A) k x y :
  NoDup (f <$> l) → l !! k = Some x → y ∈ delete k l → f y ≠ f x.
Proof.
  intros Hnd Hk Hy.
  rewrite <- (take_drop_middle l k x Hk) in Hnd.
  rewrite fmap_app, fmap_cons in Hnd.
  apply NoDup_app in Hnd as (_ & Hdisj & Hnd2).
  apply NoDup_cons in Hnd2 as [Hnot _].
  rewrite delete_take_drop in Hy. apply elem_of_app in Hy as [Hy|Hy].
  - intros Heq. apply (Hdisj (f y)); [by apply list_elem_of_fmap_2|].
    rewrite Heq. by left.
  - intros Heq. apply Hnot. rewrite <- Heq. by apply list_elem_of_fmap_2.
Qed.

Lemma fire_consistent s k j fault rnd :
  consistent s → timers s !! k = Some j →
  consistent (run_job fault rnd
               (mkState (db s) (next_id s) (cache s) (delete k (timers s)) (now s)) j).
Proof.
  intros Hc Hk.
  pose proof (consistent_jobs s Hc) as Hjobs.
  destruct (Forall_lookup_1 _ _ _ _ Hjobs Hk) as (a & Ha & Hp & Hkey).
  set (s0 := mkState _ _ _ _ _).
  destruct (run_job_effect fault rnd s0 j a Ha Hp (consistent_rows s Hc _ _ Ha))
    as (a' & Hdb & Hid & Hurl & Hok & Hnext & Htim & Hnow & Hcache).
  set (s' := run_job fault rnd s0 j) in *. cbn in Hdb, Hnext, Htim, Hnow, Hcache.
  assert (Hother : ∀ j', j' ∈ delete k (timers s) → job_analysis j' ≠ job_analysis j).
  { intros j' Hj'. by apply (delete_other_id job_analysis (timers s) k j j'
                               (consistent_nodup s Hc)). }
  assert (Hkeep : ∀ k0 e, cache s !! k0 = Some e → cached_ok s' k0 e).
  { intros k0 e He. destruct (consistent_cache s Hc k0 e He) as (b & Hb & Hst & Hrest).
    exists b. split; [|done]. rewrite Hdb, lookup_insert_ne; [done|].
    intros Heq. rewrite <- Heq, Ha in Hb. injection Hb as <-. congruence. }
  split.
  - intros i Hi. rewrite Hdb, Hnext in *. rewrite lookup_insert_ne.
    + by apply (consistent_fresh s Hc).
    + pose proof (consistent_lt s _ _ Hc Ha). lia.
  - intros i b Hb. rewrite Hdb in Hb.
    apply lookup_insert_Some in Hb as [[<- <-]|[_ Hb]].
    + rewrite Hid. by apply (consistent_ids s Hc).
    + by apply (consistent_ids s Hc).
  - intros i b Hb. rewrite Hdb in Hb.
    apply lookup_insert_Some in Hb as [[<- <-]|[_ Hb]]; [done|].
    by apply (consistent_rows s Hc i).
  - rewrite Htim. apply Forall_forall. intros j' Hj'.
    assert (Hin : j' ∈ timers s) by (by eapply list_elem_of_delete_inv).
    rewrite Forall_forall in Hjobs. destruct (Hjobs j' Hin) as (b & Hb & Hrest).
    exists b. split; [|done]. rewrite Hdb, lookup_insert_ne; [done|].
    intros Heq. by apply (Hother j' Hj').
  - rewrite Htim, list_fmap_delete.
    eapply sublist_NoDup; [apply (consistent_nodup s Hc)|apply sublist_delete].
  - intros k0 e He. destruct Hcache as [Hsame|(Hst & Hres & Hins)].
    + rewrite Hsame in He. by apply Hkeep.
    + rewrite Hins in He.
      apply lookup_insert_Some in He as [[<- <-]|[_ He]]; [|by apply Hkeep].
      exists a'. cbn. rewrite Hdb, lookup_insert_eq. repeat split; [done..|].
      by rewrite Hurl.
Qed.

Lemma step_consistent s e : consistent s → consistent (step s e).1.
Proof.
  intros Hc. destruct e as [req|k fault rnd|dt]; cbn.
  - pose proof (post_consistent s req Hc). by destruct (post_analyze s req).
  - destruct (timers s !! k) as [j|] eqn:Hk; [|done]. by apply fire_consistent.
  - by destruct Hc.
Qed.

Lemma run_consistent es : ∀ s, consistent s → consistent (run s es).1.
Proof.
  induction es as [|e es IH]; intros s Hc; [done|].
  cbn. pose proof (step_consistent s e Hc) as H1.
  destruct (step s e) as [s1 r]. specialize (IH s1 H1).
  by destruct (run s1 es).
Qed.


Lemma cacheKey_inj u v : cacheKey u = cacheKey v → u = v.
Proof. unfold cacheKey. cbn. intros H. by simplify_eq. Qed.

Lemma job_changes_only_its_row fault rnd s j :
  (∀ i, i ≠ job_analysis j → db (run_job fault rnd s j) !! i = db s !! i)
  ∧ (∀ k, k ≠ job_cacheKey j → cache (run_job fault rnd s j) !! k = cache s !! k)
  ∧ next_id (run_job fault rnd s j) = next_id s
  ∧ timers (run_job fault rnd s j) = timers s.
Proof.
  unfold run_job, job_try, job_catch, update, Redis.setEx.
  rewrite bool_decide_eq_true_2 by lia.
  destruct (fault UpdateProcessing), (fault UpdateCompleted),
    (fault CacheResult), (fault UpdateFailed),
    (db s !! job_analysis j) eqn:Ha;
    cbn [db cache next_id timers now];
    rewrite ?Ha, ?lookup_insert_eq; cbn [db cache next_id timers now];
    rewrite ?lookup_insert_eq; cbn [db cache next_id timers now];
    repeat split; intros; by rewrite ?lookup_insert_ne by done.
Qed.

Lemma step_growth s e :
  consistent s →
  (next_id s ≤ next_id (step s e).1)%nat
  ∧ (∀ i, is_Some (db s !! i) → is_Some (db (step s e).1 !! i))
  ∧ (∀ i, (step s e).2 = Some (Accepted i) →
          i = next_id s ∧ next_id (step s e).1 = S i
          ∧ is_Some (db (step s e).1 !! i)).
Proof.
  intros Hc. destruct e as [req|k fault rnd|dt]; cbn.
  - unfold post_analyze. destruct (answer_early s req) as [r|] eqn:Hear; cbn.
    + split; [lia|]. split; [done|]. intros i Hi. exfalso.
      unfold answer_early in Hear.
      destruct (negb (req_valid req)); simplify_eq.
      destruct (Redis.get _ _ _); simplify_eq.
    + split; [lia|]. split.
      * intros i Hi. destruct (decide (next_id s = i)) as [<-|Hne].
        -- by rewrite lookup_insert_eq.
        -- by rewrite lookup_insert_ne.
      * intros i Hi. simplify_eq. by rewrite lookup_insert_eq.
  - destruct (timers s !! k) as [j|] eqn:Hk; cbn; [|split; [lia|split; done]].
    destruct (job_changes_only_its_row fault rnd
                (mkState (db s) (next_id s) (cache s) (delete k (timers s)) (now s)) j)
      as (Hdb & _ & Hnext & _).
    destruct (Forall_lookup_1 _ _ _ _ (consistent_jobs s Hc) Hk) as (a & Ha & Hp & _).
    destruct (run_job_effect fault rnd
                (mkState (db s) (next_id s) (cache s) (delete k (timers s)) (now s))
                j a Ha Hp (consistent_rows s Hc _ _ Ha)) as (a' & Hdb' & _).
    split; [rewrite Hnext; cbn; lia|]. split; [|done].
    intros i Hi. rewrite Hdb'. cbn. destruct (decide (job_analysis j = i)) as [<-|Hne].
    + by rewrite lookup_insert_eq.
    + by rewrite lookup_insert_ne.
  - split; [lia|split; done].
Qed.

Lemma run_accepted es : ∀ s,
  consistent s →
  (next_id s ≤ next_id (run s es).1)%nat
  ∧ (∀ i, is_Some (db s !! i) → is_Some (db (run s es).1 !! i))
  ∧ NoDup (accepted_ids (run s es).2)
  ∧ (∀ i, i ∈ accepted_ids (run s es).2 →
          (next_id s ≤ i)%nat ∧ is_Some (db (run s es).1 !! i)).
Proof.
  induction es as [|e es IH]; intros s Hc.
  - cbn. split; [lia|]. split; [done|]. split; [constructor|].
    intros i Hi. by apply elem_of_nil in Hi.
  - destruct (step_growth s e Hc) as (Hn1 & Hp1 & Hacc).
    pose proof (step_consistent s e Hc) as Hc1.
    cbn. destruct (step s e) as [s1 r] eqn:Hstep. cbn in *.
    destruct (IH s1 Hc1) as (Hn2 & Hp2 & Hnd & Hin).
    destruct (run s1 es) as [s2 rs] eqn:Hrun. cbn in *.
    split; [lia|]. split; [by auto|].
    destruct r as [[|i r|i]|]; cbn; try (split; [done|]; intros i' Hi';
      destruct (Hin i' Hi'); split; [lia|done]).
    destruct (Hacc i eq_refl) as (-> & Hs1 & Hrow).
    split.
    + apply NoDup_cons. split; [|done].
      intros Hi. destruct (Hin _ Hi). lia.
    + intros i' Hi'. apply elem_of_cons in Hi' as [->|Hi'].
      * split; [lia|by auto].
      * destruct (Hin i' Hi'). split; [lia|done].
Qed.


Lemma pages_cover {A} (l : nat) : ∀ (n : nat) (xs : list A),
  (0 < l)%nat → (length xs ≤ n * l)%nat →
  concat ((λ p, take l (drop ((p - 1) * l) xs)) <$> seq 1 n) = xs.
Proof.
  induction n as [|n IH]; intros xs Hl Hlen.
  - cbn. symmetry. apply nil_length_inv. lia.
  - cbn [seq fmap list_fmap concat].
    replace ((1 - 1) * l)%nat with 0%nat by lia. rewrite drop_0.
    transitivity (take l xs ++ drop l xs); [|apply take_drop]. f_equal.
    rewrite <- fmap_S_seq, <- list_fmap_compose.
    transitivity (concat ((λ p, take l (drop ((p - 1) * l) (drop l xs))) <$> seq 1 n));
      [|apply IH; [done|rewrite length_drop; lia]].
    f_equal. apply list_fmap_ext. intros i p Hp. cbn.
    apply lookup_seq in Hp as [-> _].
    rewrite drop_drop. do 2 f_equal.
    replace (S (1 + i) - 1)%nat with (S i) by lia.
    replace (1 + i - 1)%nat with i by lia. cbn. lia.
Qed.

Lemma ceil_covers (a l : nat) : (0 < l)%nat → (a ≤ (a + l - 1) / l * l)%nat.
Proof.
  intros Hl.
  pose proof (Nat.div_mod_eq (a + l - 1) l).
  pose proof (Nat.mod_upper_bound (a + l - 1) l). lia.
Qed.

Lemma newest_first_complete s i a :
  fresh_ids s → db s !! i = Some a → a ∈ newest_first s.
Proof.
  intros Hf Ha. unfold newest_first. apply list_elem_of_omap.
  exists i. split; [|done]. apply elem_of_reverse, elem_of_seq.
  destruct (decide (i < next_id s)%nat); [lia|].
  rewrite (Hf i) in Ha by lia. done.
Qed.

End RouteInvariant.

(** X1: whatever requests, jobs (with whatever faults) and delays the
    server has seen since it started, the status route reports a row in
    one of four shapes: pending with progress 0, processing with progress
    50, both without result and error; completed with progress 100, a
    result and no error; or failed with an error message. *)
Theorem status_reports_are_consistent (es : list NodeAnalysis.Event) (i : nat)
    (i' : nat) (st : NodeAnalysis.Status) (p : Z)
    (r : option NodeAnalysis.Scores) (e : option string) :
  NodeRoutes.get_status (NodeAnalysis.run NodeAnalysis.initial es).1 i
  = NodeRoutes.Found i' st p r e →
  i' = i
  ∧ match st with
    | NodeAnalysis.pending => p = 0 ∧ r = None ∧ e = None
    | NodeAnalysis.processing => p = 50 ∧ r = None ∧ e = None
    | NodeAnalysis.completed => p = 100 ∧ is_Some r ∧ e = None
    | NodeAnalysis.failed => is_Some e ∧ (p = 0 ∨ p = 50 ∨ p = 100)
    end.
Proof.
  intros H. unfold NodeRoutes.get_status in H.
  pose proof (run_consistent es _ initial_consistent) as Hc.
  destruct (NodeAnalysis.db _ !! i) as [a|] eqn:Ha; [|done].
  injection H as <- <- <- <- <-.
  split; [by apply (NodeRoutes.consistent_ids _ Hc)|].
  apply (NodeRoutes.consistent_rows _ Hc i a Ha).
Qed.

Lemma status_reports_are_consistent_witness :
  let req := NodeAnalysis.mkRequest "https://www.youtube.com/watch?v=abc" None true in
  let fault := λ c, match c with
                    | NodeAnalysis.CacheResult => Some "redis down"
                    | _ => None
                    end in
  let rnd : nat → Q := λ _, (1 # 2)%Q in
  let es := [NodeAnalysis.Post req; NodeAnalysis.Fire 0 fault rnd] in
  NodeRoutes.get_status (NodeAnalysis.run NodeAnalysis.initial es).1 0
  = NodeRoutes.Found 0 NodeAnalysis.failed 100
      (Some (NodeAnalysis.generate_result rnd)) (Some "redis down")
  ∧ (0%nat = 0%nat
     ∧ is_Some (Some "redis down") ∧ (100 = 0 ∨ 100 = 50 ∨ 100 = 100)).
Proof.
  intros req fault rnd es.
  assert (H : NodeRoutes.get_status (NodeAnalysis.run NodeAnalysis.initial es).1 0
              = NodeRoutes.Found 0 NodeAnalysis.failed 100
                  (Some (NodeAnalysis.generate_result rnd)) (Some "redis down"))
    by (vm_compute; reflexivity).
  split; [exact H|].
  exact (status_reports_are_consistent es 0 0 NodeAnalysis.failed 100
           (Some (NodeAnalysis.generate_result rnd)) (Some "redis down") H).
Defined.

(** X2: an answer served from the cache agrees with the database: in any
    state the server can reach, when a request is answered 'completed,
    cached' with an id and scores, the status route reports that id as
    completed, progress 100, with exactly those scores and no error. *)
Theorem cached_answer_agrees_with_status (es : list NodeAnalysis.Event)
    (req : NodeAnalysis.Request) (i : nat) (r : NodeAnalysis.Scores) :
  let s := (NodeAnalysis.run NodeAnalysis.initial es).1 in
  (NodeAnalysis.post_analyze s req).2 = NodeAnalysis.CachedCompleted i r →
  NodeRoutes.get_status s i
  = NodeRoutes.Found i NodeAnalysis.completed 100 (Some r) None
  ∧ ∃ a, NodeAnalysis.db s !! i = Some a
         ∧ NodeAnalysis.videoUrl a = NodeAnalysis.req_videoUrl req.
Proof.
  intros s H.
  pose proof (run_consistent es _ initial_consistent) as Hc. fold s in Hc.
  unfold NodeAnalysis.post_analyze, NodeAnalysis.answer_early in H.
  destruct (negb (NodeAnalysis.req_valid req)); [done|].
  destruct (Redis.get _ _ _) as [c|] eqn:Hget; [|done].
  cbn in H. injection H as <- <-.
  unfold Redis.get in Hget.
  destruct (NodeAnalysis.cache s !! _) as [e|] eqn:He; [|done].
  destruct (bool_decide _); [|done]. injection Hget as <-.
  destruct (NodeRoutes.consistent_cache s Hc _ e He) as (a & Ha & Hst & Hres & Hk).
  pose proof (NodeRoutes.consistent_rows s Hc _ a Ha) as Hok.
  unfold NodeRoutes.row_ok in Hok. rewrite Hst in Hok.
  destruct Hok as (Hp & _ & Herr).
  split.
  - unfold NodeRoutes.get_status. rewrite Ha.
    rewrite (NodeRoutes.consistent_ids s Hc _ a Ha), Hst, Hp, Hres, Herr. done.
  - exists a. split; [done|]. symmetry. by apply cacheKey_inj.
Qed.

Lemma cached_answer_agrees_with_status_witness :
  let req := NodeAnalysis.mkRequest "https://www.youtube.com/watch?v=abc" None true in
  let rnd : nat → Q := λ _, (1 # 2)%Q in
  let es := [NodeAnalysis.Post req; NodeAnalysis.Fire 0 NodeAnalysis.no_fault rnd] in
  let s := (NodeAnalysis.run NodeAnalysis.initial es).1 in
  NodeRoutes.get_status s 0
  = NodeRoutes.Found 0 NodeAnalysis.completed 100
      (Some (NodeAnalysis.generate_result rnd)) None
  ∧ ∃ a, NodeAnalysis.db s !! 0%nat = Some a
         ∧ NodeAnalysis.videoUrl a = "https://www.youtube.com/watch?v=abc".
Proof.
  intros req rnd es s.
  apply (cached_answer_agrees_with_status es req 0 (NodeAnalysis.generate_result rnd)).
  vm_compute. reflexivity.
Defined.

(** X3: in any run of the server the ids with which requests are accepted
    are pairwise distinct, and each of them names a row that is still there
    at the end of the run. *)
Theorem accepted_ids_are_distinct (es : list NodeAnalysis.Event) :
  let out := NodeAnalysis.run NodeAnalysis.initial es in
  NoDup (NodeRoutes.accepted_ids out.2)
  ∧ ∀ i, i ∈ NodeRoutes.accepted_ids out.2 →
         NodeRoutes.get_status out.1 i ≠ NodeRoutes.NotFound.
Proof.
  intros out.
  destruct (run_accepted es _ initial_consistent) as (_ & _ & Hnd & Hin).
  split; [done|]. intros i Hi. destruct (Hin i Hi) as [_ [a Ha]].
  unfold NodeRoutes.get_status, out. by rewrite Ha.
Qed.

Lemma accepted_ids_are_distinct_witness :
  let req := NodeAnalysis.mkRequest "https://www.youtube.com/watch?v=abc" None true in
  let rnd : nat → Q := λ _, (1 # 2)%Q in
  let es := [NodeAnalysis.Post req; NodeAnalysis.Post req;
             NodeAnalysis.Fire 1 NodeAnalysis.no_fault rnd; NodeAnalysis.Post req;
             NodeAnalysis.Tick 4000; NodeAnalysis.Post req] in
  let out := NodeAnalysis.run NodeAnalysis.initial es in
  NodeRoutes.accepted_ids out.2 = [0; 1; 2]%nat
  ∧ NoDup (NodeRoutes.accepted_ids out.2)
  ∧ NodeRoutes.get_status out.1 2 ≠ NodeRoutes.NotFound.
Proof.
  intros req rnd es out. split; [vm_compute; reflexivity|].
  destruct (accepted_ids_are_distinct es) as [Hnd Hin]. split; [exact Hnd|].
  apply Hin. vm_compute. apply list_elem_of_In. right. right. left. reflexivity.
Defined.



(** X5: a job touches nothing but its own analysis: whatever faults occur,
    every other row is afterwards as it was, and so is every cache entry
    under another key than the job's; the job creates no row and queues no
    job. *)
Theorem job_leaves_the_rest_alone (fault : NodeAnalysis.Call → option string)
    (rnd : nat → Q) (s : NodeAnalysis.State) (j : NodeAnalysis.Job) :
  (∀ i, i ≠ NodeAnalysis.job_analysis j →
        NodeRoutes.get_status (NodeAnalysis.run_job fault rnd s j) i
        = NodeRoutes.get_status s i)
  ∧ (∀ k, k ≠ NodeAnalysis.job_cacheKey j →
          NodeAnalysis.cache (NodeAnalysis.run_job fault rnd s j) !! k
          = NodeAnalysis.cache s !! k)
  ∧ NodeAnalysis.next_id (NodeAnalysis.run_job fault rnd s j) = NodeAnalysis.next_id s
  ∧ NodeAnalysis.timers (NodeAnalysis.run_job fault rnd s j) = NodeAnalysis.timers s.
Proof.
  destruct (job_changes_only_its_row fault rnd s j) as (Hdb & Hc & Hn & Ht).
  repeat split; [|done..].
  intros i Hi. unfold NodeRoutes.get_status. by rewrite Hdb.
Qed.

Lemma job_leaves_the_rest_alone_witness :
  let req1 := NodeAnalysis.mkRequest "https://www.youtube.com/watch?v=abc" None true in
  let req2 := NodeAnalysis.mkRequest "https://www.youtube.com/watch?v=xyz" None true in
  let s := (NodeAnalysis.run NodeAnalysis.initial
              [NodeAnalysis.Post req1; NodeAnalysis.Post req2]).1 in
  let j := NodeAnalysis.mkJob 0 (NodeAnalysis.cacheKey "https://www.youtube.com/watch?v=abc") in
  let rnd : nat → Q := λ _, (1 # 2)%Q in
  NodeRoutes.get_status (NodeAnalysis.run_job NodeAnalysis.no_fault rnd s j) 1
  = NodeRoutes.get_status s 1.
Proof.
  intros req1 req2 s j rnd.
  apply (job_leaves_the_rest_alone NodeAnalysis.no_fault rnd s j). discriminate.
Defined.

(** X6: the list route pages through the analyses without loss or
    repetition.  For a limit of at least 1, every page of number at least 1
    is answered with at most [limit] rows, the total, and the number of
    pages (total / limit, rounded up); the pages 1 to that number, put one
    after the other, are exactly the rows that match the status filter,
    newest first, each once; later pages are empty; and every row of the
    table that matches the filter is among them. *)
Theorem list_pages_partition (s : NodeAnalysis.State) (limit : nat)
    (status_query : option string) :
  (0 < limit)%nat →
  NodeAnalysis.fresh_ids s →
  let all := NodeRoutes.select <$>
               filter (λ a, NodeRoutes.matches status_query a = true)
                      (NodeRoutes.newest_first s) in
  let last := ((length all + limit - 1) / limit)%nat in
  (∀ page, (0 < page)%nat →
     ∃ pg, NodeRoutes.list_analyses s page limit status_query = NodeRoutes.Listed pg
           ∧ NodeRoutes.total pg = length all
           ∧ NodeRoutes.pages pg = Some last
           ∧ (length (NodeRoutes.analyses pg) ≤ limit)%nat)
  ∧ concat ((λ page, NodeRoutes.page_rows
                       (NodeRoutes.list_analyses s page limit status_query))
            <$> seq 1 last) = all
  ∧ (∀ page, (last < page)%nat →
       NodeRoutes.page_rows (NodeRoutes.list_analyses s page limit status_query) = [])
  ∧ (∀ i a, NodeAnalysis.db s !! i = Some a →
            NodeRoutes.matches status_query a = true →
            NodeRoutes.select a ∈ all).
Proof.
  intros Hl Hf all last.
  set (rows := filter (λ a, NodeRoutes.matches status_query a = true)
                      (NodeRoutes.newest_first s)) in *.
  assert (Hlen : length all = length rows) by (unfold all; by rewrite length_fmap).
  assert (Hpage : ∀ page, (0 < page)%nat →
            NodeRoutes.list_analyses s page limit status_query
            = NodeRoutes.Listed
                (NodeRoutes.mkPage
                   (take limit (drop ((page - 1) * limit) all))
                   page limit (length all) (Some last))).
  { intros page Hp. unfold NodeRoutes.list_analyses. fold rows.
    rewrite bool_decide_eq_false_2 by lia.
    rewrite bool_decide_eq_false_2 by lia.
    unfold last, all. rewrite fmap_take, fmap_drop, !length_fmap. reflexivity. }
  split; [|split; [|split]].
  - intros page Hp. eexists. split; [apply (Hpage page Hp)|]. cbn.
    repeat split. rewrite length_take. lia.
  - transitivity (concat ((λ p, take limit (drop ((p - 1) * limit) all)) <$> seq 1 last)).
    + f_equal. apply list_fmap_ext. intros i p Hp.
      apply lookup_seq in Hp as [-> _]. by rewrite Hpage by lia.
    + apply pages_cover; [done|]. by apply ceil_covers.
  - intros page Hp. rewrite Hpage by lia. cbn.
    rewrite drop_ge; [apply take_nil|].
    pose proof (ceil_covers (length all) limit Hl). fold last in H. nia.
  - intros i a Ha Hm. unfold all. apply list_elem_of_fmap_2.
    apply list_elem_of_filter. split; [done|].
    by apply (newest_first_complete s i).
Qed.

Lemma list_pages_partition_witness :
  let req := NodeAnalysis.mkRequest "https://www.youtube.com/watch?v=abc" None true in
  let s := (NodeAnalysis.run NodeAnalysis.initial
              (replicate 5 (NodeAnalysis.Post req))).1 in
  NodeRoutes.item_id <$>
    concat ((λ page, NodeRoutes.page_rows (NodeRoutes.list_analyses s page 2 None))
            <$> seq 1 3)
  = [4; 3; 2; 1; 0]%nat.
Proof.
  intros req s.
  destruct (list_pages_partition s 2 None) as (_ & H & _).
  - lia.
  - apply NodeRoutes.consistent_fresh, run_consistent, initial_consistent.
  - change ((length (NodeRoutes.select <$> filter
               (λ a, NodeRoutes.matches None a = true) (NodeRoutes.newest_first s))
             + 2 - 1) / 2)%nat with 3%nat in H.
    rewrite H. vm_compute. reflexivity.
Defined.

(** ** The cache service *)

Lemma cache_service_key_inj u v : CacheService.cacheKey u = CacheService.cacheKey v → u = v.
Proof. unfold CacheService.cacheKey. cbn. intros H. by simplify_eq. Qed.

Lemma redis_get_insert_ne {V} (t : Z) (store : gmap string (Redis.Entry V)) k k' e :
  k ≠ k' → Redis.get t (<[k := e]> store) k' = Redis.get t store k'.
Proof. intros Hne. unfold Redis.get. by rewrite lookup_insert_ne. Qed.

Lemma redis_get_delete_ne {V} (t : Z) (store : gmap string (Redis.Entry V)) k k' :
  k ≠ k' → Redis.get t (delete k store) k' = Redis.get t store k'.
Proof. intros Hne. unfold Redis.get. by rewrite lookup_delete_ne. Qed.

(** X7: in the cache service every video id has an entry of its own.
    Writing or invalidating the analysis of one video leaves what
    [getAnalysis] returns for every other video unchanged; an invalidated
    video reads as a miss; a second write for the same video replaces the
    first (it is read back while its own time to live lasts); and a write
    with a time to live that is not positive is refused and leaves the store
    as it was. *)
Theorem cache_service_entries_are_independent (V : Type)
    (JSON_stringify : V → string) (JSON_parse : string → Outcome V)
    (now t : Z) (store : gmap string (Redis.Entry string))
    (v : string) (data data' : V) (ttl ttl' : Z) :
  let written := (CacheService.setAnalysis JSON_stringify now store v data ttl).1 in
  let rewritten := (CacheService.setAnalysis JSON_stringify now written v data' ttl').1 in
  let dropped := (CacheService.invalidateAnalysis written v).1 in
  (∀ v', v' ≠ v →
     CacheService.getAnalysis JSON_parse t written v'
     = CacheService.getAnalysis JSON_parse t store v'
     ∧ CacheService.getAnalysis JSON_parse t dropped v'
       = CacheService.getAnalysis JSON_parse t store v')
  ∧ CacheService.getAnalysis JSON_parse t dropped v = None
  ∧ (0 < ttl' → t < now + ttl' →
     JSON_parse (JSON_stringify data') = Returned data' →
     JSON_stringify data' ≠ "" →
     CacheService.getAnalysis JSON_parse t rewritten v = Some data')
  ∧ (ttl' ≤ 0 →
     CacheService.setAnalysis JSON_stringify now written v data' ttl' = (written, false)).
Proof.
  intros written rewritten dropped.
  assert (Hw : ∀ v', v' ≠ v →
            CacheService.getAnalysis JSON_parse t written v'
            = CacheService.getAnalysis JSON_parse t store v').
  { intros v' Hne. unfold written, CacheService.getAnalysis, CacheService.setAnalysis,
      RedisService.set, RedisService.get, Redis.setEx.
    destruct (bool_decide (0 < ttl)); cbn; [|done].
    rewrite redis_get_insert_ne; [done|].
    intros Heq. by apply Hne, cache_service_key_inj. }
  split; [|split; [|split]].
  - intros v' Hne. split; [by apply Hw|].
    rewrite <- (Hw v' Hne).
    unfold dropped, CacheService.getAnalysis, CacheService.invalidateAnalysis,
      RedisService.delete, RedisService.get, Redis.del. cbn.
    rewrite redis_get_delete_ne; [done|].
    intros Heq. by apply Hne, cache_service_key_inj.
  - unfold dropped, CacheService.getAnalysis, CacheService.invalidateAnalysis,
      RedisService.delete, RedisService.get, Redis.del, Redis.get. cbn.
    by rewrite lookup_delete_eq.
  - intros Httl Ht Hparse Hne.
    unfold rewritten, CacheService.getAnalysis, CacheService.setAnalysis,
      RedisService.set, RedisService.get, Redis.setEx, Redis.get.
    rewrite (bool_decide_eq_true_2 (0 < ttl')) by done. cbn.
    rewrite lookup_insert_eq. cbn.
    rewrite bool_decide_eq_true_2 by done.
    rewrite bool_decide_eq_false_2 by done. by rewrite Hparse.
  - intros Httl. unfold CacheService.setAnalysis, RedisService.set, Redis.setEx.
    by rewrite bool_decide_eq_false_2 by lia.
Qed.

Lemma cache_service_entries_are_independent_witness :
  let written := (CacheService.setAnalysis RedisService.stringify_bool 100 ∅ "abc" true 3600).1 in
  let rewritten := (CacheService.setAnalysis RedisService.stringify_bool 100 written "abc" false 60).1 in
  CacheService.getAnalysis RedisService.parse_bool 120 rewritten "abc" = Some false
  ∧ CacheService.setAnalysis RedisService.stringify_bool 100 written "abc" false 0
    = (written, false)
  ∧ CacheService.getAnalysis RedisService.parse_bool 120 written "xyz" = None.
Proof.
  intros written rewritten.
  destruct (cache_service_entries_are_independent bool RedisService.stringify_bool
              RedisService.parse_bool 100 120 ∅ "abc" true false 3600 60)
    as (Hother & _ & Hlast & _).
  destruct (cache_service_entries_are_independent bool RedisService.stringify_bool
              RedisService.parse_bool 100 120 ∅ "abc" true false 3600 0)
    as (_ & _ & _ & Hrej).
  split; [|split].
  - apply Hlast; [lia|lia|reflexivity|discriminate].
  - apply Hrej. lia.
  - destruct (Hother "xyz") as [H _]; [discriminate|].
    fold written in H. rewrite H. reflexivity.
Defined.

(** ** The plan's analysis and feedback routes *)
Section PlanApiFacts.
Import PlanApi.

Lemma findUnique_None (rows : list Analysis) v :
  findUnique rows v = None ↔ v ∉ videoId <$> rows.
Proof.
  unfold findUnique. rewrite head_None. split.
  - intros Hf Hin. apply list_elem_of_fmap in Hin as (a & -> & Ha).
    by apply (filter_nil_not_elem_of _ _ a Hf).
  - intros Hnot.
    destruct (filter (λ a, videoId a = v) rows) as [|a l] eqn:Hf; [done|].
    exfalso. apply Hnot.
    assert (Ha : a ∈ filter (λ a, videoId a = v) rows) by (rewrite Hf; by left).
    apply list_elem_of_filter in Ha as [<- Ha]. by apply list_elem_of_fmap_2.
Qed.

Lemma findUnique_Some (rows : list Analysis) v a :
  findUnique rows v = Some a → a ∈ rows ∧ videoId a = v.
Proof.
  unfold findUnique. intros H. apply head_Some_elem_of in H.
  apply list_elem_of_filter in H as [H1 H2]. done.
Qed.

Lemma findUnique_app_new (rows : list Analysis) v a :
  findUnique rows v = None → videoId a = v → findUnique (rows ++ [a]) v = Some a.
Proof.
  unfold findUnique. intros Hn Ha. apply head_None in Hn.
  rewrite filter_app, Hn, filter_cons, decide_True by done. done.
Qed.

Lemma patch_keeps_videoIds v p (rows : list Analysis) :
  videoId <$> ((λ x, if bool_decide (videoId x = v) then apply_patch p x else x) <$> rows)
  = videoId <$> rows.
Proof.
  rewrite <- list_fmap_compose. apply list_fmap_ext. intros i x _. cbn.
  by destruct (bool_decide (videoId x = v)).
Qed.

Lemma step_unique st o :
  NoDup (videoId <$> analyses st) → NoDup (videoId <$> analyses (step st o).1).
Proof.
  intros Hnd.
  assert (Hcreate : ∀ b, NoDup (videoId <$> analyses (post_create st b).1)).
  { intros b. unfold post_create, create.
    destruct (findUnique (analyses st) (body_videoId b)) eqn:Hf; [done|].
    cbn. rewrite fmap_app. apply NoDup_app. split; [done|]. split.
    - intros v Hv Hv'. cbn in Hv'. apply list_elem_of_singleton in Hv' as ->.
      by apply findUnique_None in Hf.
    - apply NoDup_singleton. }
  destruct o as [b|b|v p]; cbn.
  - unfold post. destruct (findUnique (analyses st) (body_videoId b)); [done|].
    apply Hcreate.
  - apply Hcreate.
  - unfold patch. destruct (findUnique (analyses st) v); [|done].
    cbn. by rewrite patch_keeps_videoIds.
Qed.

Lemma run_unique ops : ∀ st,
  NoDup (videoId <$> analyses st) → NoDup (videoId <$> analyses (run st ops)).
Proof.
  induction ops as [|o ops IH]; intros st Hnd; [done|].
  apply IH. by apply step_unique.
Qed.


Lemma findFeedback_None (fs : list Feedback) a u :
  findFeedback fs a u = None → (a, u) ∉ feedback_key <$> fs.
Proof.
  unfold findFeedback. rewrite head_None. intros Hf Hin.
  apply list_elem_of_fmap in Hin as (f & Heq & Hin).
  injection Heq as -> ->. by apply (filter_nil_not_elem_of _ _ f Hf).
Qed.

Lemma post_feedback_unique st a u r c :
  NoDup (feedback_key <$> feedbacks st) →
  NoDup (feedback_key <$> feedbacks (post_feedback st a u r c).1).
Proof.
  intros Hnd. unfold post_feedback.
  destruct (findFeedback (feedbacks st) a u) eqn:Hf; [done|].
  cbn. rewrite fmap_app. apply NoDup_app. split; [done|]. split.
  - intros x Hx Hx'. cbn in Hx'. apply list_elem_of_singleton in Hx' as ->.
    by apply findFeedback_None in Hf.
  - apply NoDup_singleton.
Qed.

Lemma NoDup_fmap_elem_inj {A B} (f : A → B) (l : list A) x y :
  NoDup (f <$> l) → x ∈ l → y ∈ l → f x = f y → x = y.
Proof.
  intros Hnd Hx Hy Heq.
  apply list_elem_of_lookup in Hx as [i Hi]. apply list_elem_of_lookup in Hy as [j Hj].
  assert (i = j) as ->.
  { apply (NoDup_lookup (f <$> l) i j (f x) Hnd).
    - by rewrite list_lookup_fmap, Hi.
    - by rewrite list_lookup_fmap, Hj, Heq. }
  congruence.
Qed.

End PlanApiFacts.





(** ** The extension: mock results, the sweep and the views *)
Section ExtensionFacts.
Import Extension ExtensionViews.

Lemma ge_true score bound : ge score bound = true ↔ (bound <= score)%Q.
Proof. unfold ge. apply Qle_bool_iff. Qed.

Lemma ge_false score bound : ge score bound = false ↔ (score < bound)%Q.
Proof.
  unfold ge. split.
  - intros H. apply Qnot_le_lt. intros Hle. apply Qle_bool_iff in Hle. congruence.
  - intros H. destruct (Qle_bool bound score) eqn:E; [|done].
    apply Qle_bool_iff in E. lra.
Qed.

Lemma lt_true score bound : lt score bound = true ↔ (score < bound)%Q.
Proof.
  unfold lt. rewrite negb_true_iff. apply ge_false.
Qed.

Lemma lt_false score bound : lt score bound = false ↔ (bound <= score)%Q.
Proof. unfold lt. rewrite negb_false_iff. apply ge_true. Qed.

Lemma falsy_true score : falsy score = true ↔ (score == 0)%Q.
Proof. unfold falsy. apply Qeq_bool_iff. Qed.

Lemma falsy_false score : falsy score = false ↔ ¬ (score == 0)%Q.
Proof.
  unfold falsy. split.
  - intros H Heq. apply Qeq_bool_iff in Heq. congruence.
  - intros H. destruct (Qeq_bool score 0) eqn:E; [|done].
    apply Qeq_bool_iff in E. contradiction.
Qed.

(** [Math.floor] of a number in a half-open unit interval. *)
Lemma Qfloor_unique (x : Q) (n : Z) :
  (inject_Z n <= x)%Q → (x < inject_Z (n + 1))%Q → Qfloor x = n.
Proof.
  intros Hlo Hhi.
  pose proof (Qfloor_le x) as H1. pose proof (Qlt_floor x) as H2.
  assert (inject_Z n < inject_Z (Qfloor x + 1))%Q as Ha by lra.
  assert (inject_Z (Qfloor x) < inject_Z (n + 1))%Q as Hb by lra.
  rewrite <- Zlt_Qlt in Ha, Hb. lia.
Qed.

Lemma floorQ_shift (x : Q) (k : Z) :
  floorQ (x - inject_Z k) = inject_Z (Qfloor x - k).
Proof.
  unfold floorQ. f_equal. apply Qfloor_unique.
  - pose proof (Qfloor_le x). unfold Z.sub.
    rewrite inject_Z_plus, inject_Z_opp. lra.
  - pose proof (Qlt_floor x).
    replace (Qfloor x - k + 1) with (Qfloor x + 1 + - k) by lia.
    rewrite (inject_Z_plus (Qfloor x + 1)), inject_Z_opp. lra.
Qed.

Lemma floor_range (x : Q) (lo hi : Z) :
  (inject_Z lo <= x)%Q → (x < inject_Z hi)%Q → lo ≤ Qfloor x < hi.
Proof.
  intros Hlo Hhi. split.
  - rewrite <- (Qfloor_Z lo). by apply Qfloor_resp_le.
  - pose proof (Qfloor_le x). rewrite Zlt_Qlt. lra.
Qed.

End ExtensionFacts.

Ltac shown_cbn :=
  cbn [ExtensionViews.shown_score ExtensionViews.shown_grade
       ExtensionViews.shown_bias ExtensionViews.shown_sentiment
       ExtensionViews.shown_quality].

(** X10: the mock analysis an offline extension makes up stays within the
    ranges its comments name, whatever [Math.random] draws: credibility is a
    whole number from 60 to 90, the fact-check and source scores are that
    number less 10 and less 5, bias is a whole number from 20 to 50,
    sentiment lies between 0.3 and 0.7 and content quality between 0.5 and
    0.9.  Such a result is therefore never announced as of low credibility,
    the popup grades it good or excellent, and none of its descriptions
    reads as unavailable, as high bias, as negative sentiment or as low
    quality. *)
Theorem mock_analysis_stays_in_range (now : Z) (rnd : nat → Q)
    (videoData : option Extension.VideoData) :
  (∀ i, 0 <= rnd i ∧ rnd i < 1)%Q →
  let r := Extension.generateMockAnalysis now rnd videoData in
  let shown := ExtensionViews.displayResults r in
  (∃ n m : Z,
      60 ≤ n ≤ 90 ∧ 20 ≤ m ≤ 50
      ∧ Extension.credibility_score r = inject_Z n
      ∧ Extension.fact_check_score r = inject_Z (n - 10)
      ∧ Extension.source_reliability r = inject_Z (n - 5)
      ∧ Extension.bias_score r = inject_Z m)
  ∧ ((3 # 10) <= Extension.sentiment_score r <= (7 # 10))%Q
  ∧ ((1 # 2) <= Extension.content_quality r <= (9 # 10))%Q
  ∧ ExtensionViews.showAnalysisNotification r ≠ ExtensionViews.low_credibility
  ∧ (ExtensionViews.shown_grade shown = "good"
     ∨ ExtensionViews.shown_grade shown = "excellent")
  ∧ (ExtensionViews.shown_bias shown = ExtensionViews.lower
     ∨ ExtensionViews.shown_bias shown = ExtensionViews.middle)
  ∧ (ExtensionViews.shown_sentiment shown = ExtensionViews.middle
     ∨ ExtensionViews.shown_sentiment shown = ExtensionViews.upper)
  ∧ (ExtensionViews.shown_quality shown = ExtensionViews.middle
     ∨ ExtensionViews.shown_quality shown = ExtensionViews.upper).
Proof.
  intros Hrnd r shown.
  destruct (Hrnd 0%nat) as [H0 H0'], (Hrnd 1%nat) as [H1 H1'],
    (Hrnd 2%nat) as [H2 H2'], (Hrnd 3%nat) as [H3 H3'].
  set (base := (60 + rnd 0%nat * 30)%Q).
  assert (Hn : 60 ≤ Qfloor base < 90)
    by (apply floor_range; unfold base, inject_Z; lra).
  set (m := Qfloor (20 + rnd 1%nat * 30)%Q).
  assert (Hm : 20 ≤ m < 50)
    by (apply floor_range; unfold inject_Z; lra).
  assert (Hcred : Extension.credibility_score r = inject_Z (Qfloor base)) by done.
  assert (Hbias : Extension.bias_score r = inject_Z m) by done.
  assert (Hsent : ((3 # 10) <= Extension.sentiment_score r
                   ∧ Extension.sentiment_score r < (7 # 10))%Q)
    by (unfold r; cbn; lra).
  assert (Hqual : ((1 # 2) <= Extension.content_quality r
                   ∧ Extension.content_quality r < (9 # 10))%Q)
    by (unfold r; cbn; lra).
  assert (Hc60 : (60 <= Extension.credibility_score r)%Q).
  { rewrite Hcred. change 60%Q with (inject_Z 60). rewrite <- Zle_Qle. lia. }
  assert (Hb20 : (20 <= Extension.bias_score r ∧ Extension.bias_score r < 50)%Q).
  { rewrite Hbias. change 20%Q with (inject_Z 20). change 50%Q with (inject_Z 50).
    rewrite <- Zle_Qle, <- Zlt_Qlt. lia. }
  split; [|split; [|split; [|split; [|split; [|split; [|split]]]]]].
  - exists (Qfloor base), m.
    split; [lia|]. split; [lia|]. split; [done|]. split; [|split; [|done]].
    + apply (floorQ_shift base 10).
    + apply (floorQ_shift base 5).
  - lra.
  - lra.
  - unfold ExtensionViews.showAnalysisNotification. cbn zeta.
    destruct (ExtensionViews.ge _ 80); [done|].
    by rewrite (proj2 (ge_true _ 60) Hc60).
  - unfold shown, ExtensionViews.displayResults. shown_cbn.
    rewrite (proj2 (falsy_false _)) by lra.
    unfold ExtensionViews.getScoreGrade.
    destruct (ExtensionViews.ge _ 80); [by right|].
    rewrite (proj2 (ge_true _ 60) Hc60). by left.
  - unfold shown, ExtensionViews.displayResults. shown_cbn.
    unfold ExtensionViews.getBiasDescription.
    rewrite (proj2 (falsy_false _)) by lra.
    destruct (ExtensionViews.lt _ 30); [by left|].
    rewrite (proj2 (lt_true _ 60)) by lra. by right.
  - unfold shown, ExtensionViews.displayResults. shown_cbn.
    unfold ExtensionViews.getSentimentDescription.
    rewrite (proj2 (falsy_false _)) by lra.
    rewrite (proj2 (lt_false _ (3 # 10))) by lra.
    destruct (ExtensionViews.lt _ (7 # 10)); [by left|by right].
  - unfold shown, ExtensionViews.displayResults. shown_cbn.
    unfold ExtensionViews.getQualityDescription.
    rewrite (proj2 (falsy_false _)) by lra.
    rewrite (proj2 (lt_false _ (4 # 10))) by lra.
    destruct (ExtensionViews.lt _ (7 # 10)); [by left|by right].
Qed.

Lemma mock_analysis_stays_in_range_witness :
  let r := Extension.generateMockAnalysis 0 (λ _, 1 # 2)%Q None in
  Extension.credibility_score r = 75%Q
  ∧ ExtensionViews.showAnalysisNotification r ≠ ExtensionViews.low_credibility.
Proof.
  intros r. split; [reflexivity|].
  apply (mock_analysis_stays_in_range 0 (λ _, 1 # 2)%Q None).
  intros i. split; [discriminate|reflexivity].
Defined.

(** X11: the three places that grade a credibility score agree, except on a
    missing score.  For any score other than 0 the content script's class
    is the popup's grade; the notification speaks of high credibility
    exactly when the popup says excellent, of medium credibility exactly
    when it says good, and of low credibility otherwise.  A server answer
    that carries no usable credibility score (absent or 0 under both of its
    names) is normalised to 0: the popup shows 0 and grades it poor, the
    notification calls it low, and the content script calls it unknown.
    The sentiment of a normalised answer is never shown as unavailable. *)
Theorem views_agree_on_the_grade :
  (∀ score : Q, ¬ (score == 0)%Q →
     ExtensionViews.getScoreClass score = ExtensionViews.getScoreGrade score)
  ∧ (∀ r : Extension.AnalysisResult,
       let grade := ExtensionViews.shown_grade (ExtensionViews.displayResults r) in
       (ExtensionViews.showAnalysisNotification r = ExtensionViews.high_credibility
        ↔ grade = "excellent")
       ∧ (ExtensionViews.showAnalysisNotification r = ExtensionViews.medium_credibility
          ↔ grade = "good")
       ∧ (ExtensionViews.showAnalysisNotification r = ExtensionViews.low_credibility
          ↔ grade = "fair" ∨ grade = "poor"))
  ∧ (∀ (now : Z) (raw : Extension.Raw),
       let r := Extension.normalizeAnalysisResult now raw in
       let shown := ExtensionViews.displayResults r in
       (Extension.truthy_number (Extension.numbers raw !! "credibility_score") = None →
        Extension.truthy_number (Extension.numbers raw !! "overall_score") = None →
        ExtensionViews.shown_score shown = 0%Q
        ∧ ExtensionViews.shown_grade shown = "poor"
        ∧ ExtensionViews.showAnalysisNotification r = ExtensionViews.low_credibility
        ∧ ExtensionViews.getScoreClass (Extension.credibility_score r) = "unknown")
       ∧ ExtensionViews.shown_sentiment shown ≠ ExtensionViews.unavailable).
Proof.
  split; [|split].
  - intros score Hnz. unfold ExtensionViews.getScoreClass.
    by rewrite (proj2 (falsy_false score) Hnz).
  - intros r grade. unfold grade, ExtensionViews.displayResults. shown_cbn.
    unfold ExtensionViews.showAnalysisNotification, ExtensionViews.getScoreGrade.
    cbn zeta.
    assert (Hsame : ∀ b, ExtensionViews.ge
                      (if ExtensionViews.falsy (Extension.credibility_score r)
                       then 0%Q else Extension.credibility_score r) b
                    = ExtensionViews.ge (Extension.credibility_score r) b).
    { intros b. destruct (ExtensionViews.falsy _) eqn:Hf; [|done].
      apply falsy_true in Hf. unfold ExtensionViews.ge.
      destruct (Qle_bool b 0) eqn:E1, (Qle_bool b (Extension.credibility_score r)) eqn:E2;
        try done.
      - apply Qle_bool_iff in E1. rewrite <- Hf in E1.
        apply Qle_bool_iff in E1. congruence.
      - apply Qle_bool_iff in E2. rewrite Hf in E2.
        apply Qle_bool_iff in E2. congruence. }
    rewrite !Hsame.
    destruct (ExtensionViews.ge _ 80); [by intuition (try discriminate)|].
    destruct (ExtensionViews.ge _ 60); [by intuition (try discriminate)|].
    destruct (ExtensionViews.ge _ 40); intuition (try discriminate); auto.
  - intros now raw r shown. split.
    + intros H1 H2.
      assert (Hc : Extension.credibility_score r = 0%Q).
      { unfold r, Extension.normalizeAnalysisResult, Extension.num_or.
        cbn [Extension.credibility_score]. by rewrite H1, H2. }
      unfold shown, ExtensionViews.displayResults,
        ExtensionViews.showAnalysisNotification, ExtensionViews.getScoreClass.
      shown_cbn. cbn zeta. rewrite Hc. by vm_compute.
    + unfold shown, ExtensionViews.displayResults. shown_cbn.
      unfold ExtensionViews.getSentimentDescription.
      assert (Hs : ExtensionViews.falsy (Extension.sentiment_score r) = false).
      { unfold r, Extension.normalizeAnalysisResult, Extension.num_or,
          Extension.truthy_number, ExtensionViews.falsy.
        cbn [Extension.sentiment_score].
        destruct (Extension.numbers raw !! "sentiment_score") as [q|];
          [destruct (Qeq_bool q 0) eqn:E; [|done]|];
          (destruct (Extension.numbers raw !! "sentiment_analysis") as [q'|];
           [destruct (Qeq_bool q' 0) eqn:E'; done|done]). }
      rewrite Hs.
      destruct (ExtensionViews.lt _ (3 # 10)); [done|].
      by destruct (ExtensionViews.lt _ (7 # 10)).
Qed.

Lemma views_agree_on_the_grade_witness :
  ExtensionViews.getScoreClass 75 = "good"
  ∧ ExtensionViews.getScoreClass 0 = "unknown"
  ∧ ExtensionViews.getScoreGrade 0 = "poor"
  ∧ ExtensionViews.shown_grade
      (ExtensionViews.displayResults
         (Extension.normalizeAnalysisResult 0
            (Extension.mkRaw {[ "credibility_score" := 0%Q ]} ∅))) = "poor".
Proof.
  split; [|split; [reflexivity|split; [reflexivity|]]].
  - rewrite (proj1 views_agree_on_the_grade 75%Q); [reflexivity|discriminate].
  - apply (proj1 (proj2 (proj2 views_agree_on_the_grade) 0
                    (Extension.mkRaw {[ "credibility_score" := 0%Q ]} ∅)));
      reflexivity.
Defined.

Section SweepFacts.
Import Extension ExtensionViews.

Lemma maxAge_day : day_ms < maxAge.
Proof. by vm_compute. Qed.

(** A sweep removes nothing the cache test would still accept then or
    later. *)
Lemma cache_get_swept (now t : Z) (sv : Service) (v : string) :
  now ≤ t →
  cache_get t (analysisCache (optimizeMemory now sv)) v
  = cache_get t (analysisCache sv) v.
Proof.
  intros Ht. unfold cache_get, optimizeMemory. cbn [analysisCache].
  destruct (analysisCache sv !! v) as [slot|] eqn:Hs.
  - destruct (decide (now - slot_timestamp slot > maxAge)) as [Hold|Hyoung].
    + rewrite map_lookup_filter_None_2
        by (right; intros x Hx; simplify_eq; cbn; lia).
      pose proof maxAge_day. by rewrite bool_decide_eq_false_2 by lia.
    + by rewrite (map_lookup_filter_Some_2 _ _ v slot Hs) by (cbn; lia).
  - by rewrite map_lookup_filter_None_2 by (by left).
Qed.

End SweepFacts.

(** X12: the hourly sweep of the extension's cache cannot be noticed through
    [analyzeVideo].  A call made at or after the time of the sweep returns
    the same result and has the same effects (the same requests to the
    servers, the same notification) as it would have had without the sweep,
    and leaves the cache as a sweep of the other cache would: the sweep
    removes only entries older than seven days, which the one-day test of
    [analyzeVideo] rejects anyway. *)
Theorem sweep_is_invisible (env : Extension.Env) (sv : Extension.Service)
    (now : Z) (videoId : string) (videoData : option Extension.VideoData) :
  now ≤ Extension.clock env →
  let plain := Extension.analyzeVideo env sv videoId videoData in
  let swept := Extension.analyzeVideo env (ExtensionViews.optimizeMemory now sv)
                 videoId videoData in
  swept.1.2 = plain.1.2
  ∧ swept.2 = plain.2
  ∧ swept.1.1 = ExtensionViews.optimizeMemory now plain.1.1.
Proof.
  intros Ht plain swept. unfold plain, swept, Extension.analyzeVideo.
  rewrite (cache_get_swept now (Extension.clock env) sv videoId Ht).
  destruct (Extension.cache_get _ _ _) as [r|]; [done|].
  destruct (Extension.requestVideoAnalysis env videoId videoData) as [r|e]; [|done].
  cbn [fst snd]. split; [done|]. split; [done|].
  unfold ExtensionViews.optimizeMemory, Extension.cache_set.
  cbn [Extension.analysisCache Extension.userToken]. f_equal.
  symmetry. apply map_filter_insert_True. cbn. pose proof maxAge_day.
  unfold Extension.day_ms in *. lia.
Qed.

Lemma sweep_is_invisible_witness :
  let r := Extension.mkResult 80 20 (1 # 2) (7 # 10) 70 75 "ok" 5 "1.0.0" in
  let sv := Extension.mkService
              {[ "old" := Extension.mkSlot r 0;
                 "new" := Extension.mkSlot r 700000000 ]} None in
  let env := Extension.mkEnv (λ _ _, Thrown "down") true (λ _, 0%Q) 700000001 in
  Extension.analysisCache (ExtensionViews.optimizeMemory 700000000 sv) !! "old" = None
  ∧ (Extension.analyzeVideo env (ExtensionViews.optimizeMemory 700000000 sv)
       "new" None).1.2
    = Returned r.
Proof.
  intros r sv env. split; [by vm_compute|].
  destruct (sweep_is_invisible env sv 700000000 "new" None) as (H & _);
    [simpl; lia|].
  rewrite H. by vm_compute.
Defined.

(** X13: what [analyzeVideo] obtains is reused for a day, and only what it
    obtains.  When a call misses the cache and its request yields a result
    (from the server, or made up because the browser is offline), that
    result is returned after one request, and every call for the same video
    in the following 24 hours returns it again without any request,
    notification or change of the cache, whatever the surroundings are by
    then; from 24 hours on the next call goes to the server again.  When the
    request fails the error is passed on, nothing is stored, and the cache
    is as before. *)
Theorem result_is_reused_for_a_day (env env' : Extension.Env)
    (sv : Extension.Service) (videoId : string)
    (videoData videoData' : option Extension.VideoData) :
  Extension.cache_get (Extension.clock env) (Extension.analysisCache sv) videoId = None →
  let first := Extension.analyzeVideo env sv videoId videoData in
  let again := Extension.analyzeVideo env' first.1.1 videoId videoData' in
  match Extension.requestVideoAnalysis env videoId videoData with
  | Returned r =>
      first.1.2 = Returned r
      ∧ head first.2 = Some (Extension.FetchAnalysis videoId)
      ∧ (Extension.clock env' - Extension.clock env < Extension.day_ms →
         again = (first.1.1, Returned r, []))
      ∧ (Extension.day_ms ≤ Extension.clock env' - Extension.clock env →
         head again.2 = Some (Extension.FetchAnalysis videoId))
  | Thrown e =>
      first = (sv, Thrown e, [Extension.FetchAnalysis videoId])
  end.
Proof.
  intros Hmiss first again. unfold again, first, Extension.analyzeVideo.
  rewrite Hmiss.
  destruct (Extension.requestVideoAnalysis env videoId videoData) as [r|e]; [|done].
  cbn [fst snd]. split; [done|]. split; [done|].
  unfold Extension.cache_get, Extension.cache_set.
  cbn [Extension.analysisCache]. rewrite lookup_insert_eq.
  cbn [Extension.slot_timestamp Extension.slot_result]. split.
  - intros Hin. by rewrite bool_decide_eq_true_2.
  - intros Hout. rewrite bool_decide_eq_false_2 by lia.
    by destruct (Extension.requestVideoAnalysis env' videoId videoData').
Qed.

Lemma result_is_reused_for_a_day_witness :
  let offline := Extension.mkEnv (λ _ _, Thrown "Failed to fetch") false
                   (λ _, 1 # 2)%Q 1000 in
  let online := Extension.mkEnv (λ _ _, Returned (Extension.mkRaw ∅ ∅)) true
                  (λ _, 0%Q) 5000 in
  let sv := Extension.mkService ∅ None in
  let first := Extension.analyzeVideo offline sv "abc" None in
  Extension.analyzeVideo online first.1.1 "abc" None
  = (first.1.1, Returned (Extension.generateMockAnalysis 1000 (λ _, 1 # 2)%Q None), []).
Proof.
  intros offline online sv first.
  assert (Hmiss : Extension.cache_get (Extension.clock offline)
                    (Extension.analysisCache sv) "abc" = None) by reflexivity.
  pose proof (result_is_reused_for_a_day offline online sv "abc" None None
                Hmiss) as H.
  cbn zeta in H. change (Extension.requestVideoAnalysis offline "abc" None)
    with (Returned (A := Extension.AnalysisResult)
            (Extension.generateMockAnalysis 1000 (λ _, 1 # 2)%Q None)) in H.
  cbv beta iota in H. destruct H as (_ & _ & H & _). apply H. by vm_compute.
Defined.

(** ** The Python analysis API *)
Section PyApiFacts.
Import PyAnalysis PyApi.

Lemma bind_await {A B} (c : Call) (o : Outcome A) (f : A → Run B) :
  bind (await c o) f
  = match o with
    | Returned a => (c :: (f a).1, (f a).2)
    | Thrown e => ([c], Thrown e)
    end.
Proof. unfold bind, await. by destruct o. Qed.

Lemma bind_ret {A B} (a : A) (f : A → Run B) : bind (ret a) f = f a.
Proof. unfold bind, ret. cbn. by destruct (f a). Qed.

Lemma bind_returned {A B} (calls : list Call) (a : A) (f : A → Run B) :
  bind (calls, Returned a) f = (calls ++ (f a).1, (f a).2).
Proof. done. Qed.

Lemma bind_getitem {B} (d : gmap string Q) (k : string) (f : Q → Run B) :
  bind (getitem d k) f
  = match d !! k with
    | Some q => f q
    | None => ([], Thrown ("KeyError: '" +:+ k +:+ "'"))
    end.
Proof. unfold getitem. destruct (d !! k); [apply bind_ret|done]. Qed.

End PyApiFacts.

Ltac run_step :=
  first [rewrite bind_await | rewrite bind_ret | rewrite bind_getitem
        | rewrite bind_returned];
  cbn [fst snd PyApi.ret app]; cbv zeta.

Ltac run_steps := cbv iota; repeat (run_step; cbv iota).

Ltac among_calls Hin :=
  set_unfold in Hin;
  repeat (destruct Hin as [Hin|Hin]; [first [discriminate Hin | by simplify_eq]|]);
  first [done | discriminate Hin | by simplify_eq].

Ltac failed_run :=
  right; cbn [fst snd]; eexists; split; [done|]; split; [done|];
  let r := fresh "r" in let Hin := fresh "Hin" in
  intros r Hin; among_calls Hin.



Section PyEndpointFacts.
Import PyAnalysis PyApi.

Lemma take_schedule_le (k : nat) : take k schedule = take (k `min` 6) schedule.
Proof.
  destruct (decide (k ≤ 6)%nat); [by rewrite Nat.min_l by lia|].
  rewrite Nat.min_r by lia. by rewrite !take_ge by (cbn; lia).
Qed.

Lemma range_up_bounds fuel i stop step x :
  0 < step → x ∈ range_up fuel i stop step → i ≤ x < stop.
Proof.
  intros Hstep. revert i. induction fuel as [|fuel IH]; intros i Hx; cbn in Hx.
  - by apply elem_of_nil in Hx.
  - case_bool_decide; [|by apply elem_of_nil in Hx].
    apply elem_of_cons in Hx as [->|Hx]; [lia|].
    apply IH in Hx. lia.
Qed.

Lemma range_up_slices {A} (texts : list A) (step : Z) fuel i :
  0 < step → 0 ≤ i → Z.of_nat (length texts) - i ≤ Z.of_nat fuel →
  concat ((λ i, slice texts i (i + step))
            <$> range_up fuel i (Z.of_nat (length texts)) step)
  = drop (Z.to_nat i) texts.
Proof.
  intros Hstep. revert i. induction fuel as [|fuel IH]; intros i Hi Hfuel; cbn.
  - rewrite drop_ge; [done|lia].
  - case_bool_decide as Hlt.
    + cbn. rewrite IH by lia. unfold slice.
      replace (Z.to_nat (i + step)) with (Z.to_nat i + Z.to_nat step)%nat by lia.
      replace (i + step - i) with step by lia.
      rewrite <- drop_drop. apply take_drop.
    + rewrite drop_ge; [done|lia].
Qed.

Lemma extend_all_pointwise {Dict} (single : list string → Outcome (list Dict))
    (f : string → Dict) (bs : list (list string)) (results : list Dict) :
  (∀ b, b ∈ bs → single b = Returned (f <$> b)) →
  extend_all single results bs = Returned (results ++ (f <$> concat bs)).
Proof.
  revert results. induction bs as [|b bs IH]; intros results H; cbn.
  - by rewrite app_nil_r.
  - rewrite (H b) by (by left). rewrite IH by (intros; apply H; by right).
    by rewrite fmap_app, app_assoc.
Qed.

End PyEndpointFacts.

(** X15: [process_batch] hands every text to [_process_single_batch] exactly
    once and in order.  For a positive batch size the batches it forms are
    non-empty, hold at most [batch_size] texts, and put end to end give the
    input again; so when the single-batch step returns one result per text,
    the outcome is that result for every text of the input, in order,
    whatever the batch size.  A batch size of 0 raises a [ValueError], and a
    negative one returns the empty list without processing any text. *)
Theorem process_batch_covers_every_text (Dict : Type)
    (_process_single_batch : list string → Outcome (list Dict))
    (batch_size : Z) (texts : list string) :
  (0 < batch_size →
   ∃ bs, PyApi.batches batch_size texts = Returned bs
         ∧ concat bs = texts
         ∧ Forall (λ b, (0 < length b)%nat ∧ Z.of_nat (length b) ≤ batch_size) bs
         ∧ ∀ f : string → Dict,
             (∀ b, b ∈ bs → _process_single_batch b = Returned (f <$> b)) →
             PyApi.process_batch _process_single_batch batch_size texts
             = Returned (f <$> texts))
  ∧ (batch_size = 0 →
     PyApi.process_batch _process_single_batch batch_size texts
     = Thrown "ValueError: range() arg 3 must not be zero")
  ∧ (batch_size < 0 →
     PyApi.process_batch _process_single_batch batch_size texts = Returned []).
Proof.
  split; [|split].
  - intros Hpos. unfold PyApi.process_batch, PyApi.batches, PyApi.range0.
    rewrite bool_decide_eq_false_2 by lia.
    rewrite bool_decide_eq_false_2 by lia.
    eexists. split; [done|].
    assert (Hcat : concat ((λ i, PyApi.slice texts i (i + batch_size))
                     <$> PyApi.range_up (Z.to_nat (Z.of_nat (length texts))) 0
                           (Z.of_nat (length texts)) batch_size) = texts).
    { rewrite range_up_slices by lia. done. }
    split; [done|]. split.
    + apply Forall_fmap, Forall_forall. intros i Hi.
      apply range_up_bounds in Hi; [|done]. unfold PyApi.slice. cbn.
      rewrite length_take, length_drop. lia.
    + intros f Hf. rewrite (extend_all_pointwise _ f) by done.
      by rewrite Hcat.
  - intros ->. done.
  - intros Hneg. unfold PyApi.process_batch, PyApi.batches, PyApi.range0.
    rewrite bool_decide_eq_false_2 by lia.
    by rewrite bool_decide_eq_true_2 by lia.
Qed.

Lemma process_batch_covers_every_text_witness :
  PyApi.process_batch (λ b, Returned (String.length <$> b)) 2 ["a"; "bb"; "ccc"]
  = Returned [1; 2; 3]%nat
  ∧ PyApi.batches 2 ["a"; "bb"; "ccc"] = Returned [["a"; "bb"]; ["ccc"]]
  ∧ PyApi.process_batch (λ b, Returned (String.length <$> b)) (-1) ["a"; "bb"]
    = Returned [].
Proof.
  destruct (process_batch_covers_every_text nat
              (λ b, Returned (String.length <$> b)) 2 ["a"; "bb"; "ccc"])
    as (Hpos & _ & _).
  destruct (process_batch_covers_every_text nat
              (λ b, Returned (String.length <$> b)) (-1) ["a"; "bb"])
    as (_ & _ & Hneg).
  destruct Hpos as (bs & Hbs & _ & _ & Hall); [lia|].
  split; [|split].
  - apply (Hall String.length). intros b _. reflexivity.
  - reflexivity.
  - apply Hneg. lia.
Defined.

(** X16: what a client of the Python WebSocket endpoint that stays connected
    is sent.  The first message is [analysis_started]; then come the first
    [k] progress events of the fixed schedule, for some [k] from 2 to 6; and
    the last message, the only terminal one, is either [analysis_completed]
    or an error.  [analysis_completed] comes only after all six progress
    events, and the result it carries is what [get_analysis_result] returns
    for the video id: when every service call returns, the messages are the
    same whatever the models returned during the run. *)
Theorem websocket_messages
    (get_analysis_result : string → Outcome (option PyApi.AnalysisResult))
    (sv : PyAnalysis.Services) (video_id : string) :
  let msgs := PyApi.websocket_endpoint get_analysis_result sv video_id in
  (∃ (k : nat) (final : PyApi.WsMessage),
      (2 ≤ k ≤ 6)%nat
      ∧ msgs = PyApi.analysis_started video_id
                 :: (PyApi.analysis_progress video_id <$> take k PyAnalysis.schedule)
                 ++ [final]
      ∧ filter (λ m, PyApi.is_terminal m = true) msgs = [final]
      ∧ ∀ r, final = PyApi.analysis_completed video_id r →
             k = 6%nat ∧ get_analysis_result video_id = Returned r)
  ∧ (∀ vd s b c r,
       PyAnalysis.get_video_data sv video_id = Returned vd →
       PyAnalysis.analyze_sentiment sv (default "" vd) = Returned s →
       PyAnalysis.analyze_bias sv (default "" vd) = Returned b →
       PyAnalysis.analyze_credibility sv (default "" vd) = Returned c →
       get_analysis_result video_id = Returned r →
       msgs = PyApi.analysis_started video_id
                :: (PyApi.analysis_progress video_id <$> PyAnalysis.schedule)
                ++ [PyApi.analysis_completed video_id r]).
Proof.
  intros msgs. unfold msgs, PyApi.websocket_endpoint. split.
  - pose proof (events_prefix sv video_id) as (k & Hk & Hev & Hall).
    unfold PyAnalysis.events in Hev. rewrite Hev.
    assert (Hnt : ∀ evs, filter (λ m, PyApi.is_terminal m = true)
                           (PyApi.analysis_progress video_id <$> evs) = []).
    { intros evs. induction evs as [|e evs IH]; [done|].
      rewrite fmap_cons, filter_cons, decide_False by done. apply IH. }
    assert (Hfin : ∀ final, PyApi.is_terminal final = true →
              filter (λ m, PyApi.is_terminal m = true)
                ([PyApi.analysis_started video_id]
                 ++ (PyApi.analysis_progress video_id <$> take k PyAnalysis.schedule)
                 ++ [final]) = [final]).
    { intros final Hf. rewrite !filter_app, Hnt.
      rewrite filter_cons, decide_False by done.
      rewrite filter_nil. cbn [app].
      by rewrite filter_cons, decide_True, filter_nil. }
    exists (k `min` 6)%nat. rewrite (take_schedule_le k) in *.
    destruct ((PyAnalysis.analyze_video_realtime sv video_id).2) as [e|] eqn:Hexc.
    + exists (PyApi.error_message e). split; [lia|]. split; [done|].
      split; [by apply Hfin|]. intros r Hr. discriminate.
    + specialize (Hall eq_refl). subst k.
      destruct (get_analysis_result video_id) as [r|e] eqn:Hg.
      * exists (PyApi.analysis_completed video_id r). split; [lia|].
        split; [done|]. split; [by apply Hfin|].
        intros r' Hr. by simplify_eq.
      * exists (PyApi.error_message e). split; [lia|]. split; [done|].
        split; [by apply Hfin|]. intros r Hr. discriminate.
  - intros vd s b c r Hvd Hs Hb Hc Hg.
    unfold PyAnalysis.analyze_video_realtime. rewrite Hvd. cbn.
    rewrite Hs. cbn. rewrite Hb. cbn. rewrite Hc. cbn. by rewrite Hg.
Qed.

Lemma websocket_messages_witness :
  let sv := PyAnalysis.mkServices (λ _, Returned (Some "text"))
              (λ _, Returned {[ "sentiment_score" := 80%Q ]})
              (λ _, Returned {[ "bias_score" := 10%Q ]}) (λ _, Returned ∅) in
  PyApi.websocket_endpoint (λ _, Returned None) sv "abc"
  = PyApi.analysis_started "abc"
      :: (PyApi.analysis_progress "abc" <$> PyAnalysis.schedule)
      ++ [PyApi.analysis_completed "abc" None].
Proof.
  intros sv.
  apply (proj2 (websocket_messages (λ _, Returned None) sv "abc")
           (Some "text") {[ "sentiment_score" := 80%Q ]}
           {[ "bias_score" := 10%Q ]} ∅ None); reflexivity.
Defined.

(** X17: [GET /result/{video_id}] never answers 404.  The route raises its
    404 inside the [try] whose handler turns every exception into a 500, so
    a video without a result is answered with status 500 (the text of the
    404 as its detail), like any failure of the lookup; the status is 200
    exactly when a result exists, and then the result is the body. *)
Theorem result_route_never_answers_404
    (get_analysis_result : string → Outcome (option PyApi.AnalysisResult))
    (str_of_http_exception : nat → string → string) (video_id : string) :
  let response :=
    PyApi.get_result get_analysis_result str_of_http_exception video_id in
  (∀ r, response = PyApi.ok r ↔ get_analysis_result video_id = Returned (Some r))
  ∧ (∀ status detail, response = PyApi.http_error status detail → status = 500%nat)
  ∧ (get_analysis_result video_id = Returned None →
     response = PyApi.http_error 500
                  (str_of_http_exception 404%nat "analysis result not found")).
Proof.
  intros response. unfold response, PyApi.get_result.
  destruct (get_analysis_result video_id) as [[r|]|e]; split; try split;
    try (intros; simplify_eq; done); intros; split; intros; by simplify_eq.
Qed.

Lemma result_route_never_answers_404_witness :
  PyApi.get_result (λ _, Returned None)
    (λ status detail, detail) "abc"
  = PyApi.http_error 500 "analysis result not found".
Proof.
  apply (proj2 (proj2 (result_route_never_answers_404 (λ _, Returned None)
                         (λ status detail, detail) "abc"))).
  reflexivity.
Defined.

(** ** The analysis API router and its cache *)
Section RouterFacts.
Context {VideoData Result : Type}.
Variable getVideoData : option string → Outcome VideoData.
Variable analyzeVideo : VideoData → Outcome Result.

Abbreviation process_item' := (BatchRoute.process_item getVideoData analyzeVideo).
Abbreviation process_all' := (BatchRoute.process_all getVideoData analyzeVideo).

Lemma analysis_key_inj (a b : string) : "analysis:" +:+ a = "analysis:" +:+ b → a = b.
Proof. cbn. intros H. by simplify_eq. Qed.

Lemma redis_get_setEx {V} (now t : Z) (store store' : gmap string (Redis.Entry V))
    (k : string) (seconds : Z) (v : V) :
  Redis.setEx now store k seconds v = Returned store' →
  (t < now + seconds → Redis.get t store' k = Some v)
  ∧ (now + seconds ≤ t → Redis.get t store' k = None)
  ∧ (∀ k', k' ≠ k → Redis.get t store' k' = Redis.get t store k').
Proof.
  unfold Redis.setEx. case_bool_decide; [|done]. intros [= <-].
  unfold Redis.get. rewrite lookup_insert_eq. cbn. split; [|split].
  - intros. by rewrite bool_decide_eq_true_2.
  - intros. by rewrite bool_decide_eq_false_2 by lia.
  - intros k' Hne. by rewrite lookup_insert_ne.
Qed.

(** A batch item served from the cache. *)
Lemma process_item_hit now cache (v : BatchRoute.Video) r :
  Redis.get now cache (BatchRoute.cacheKey v) = Some r →
  process_item' now cache v
  = (cache, BatchRoute.completed
              (WsServer.js_or (BatchRoute.videoId v) (BatchRoute.videoUrl v)) r true).
Proof. intros H. unfold BatchRoute.process_item. by rewrite H. Qed.

(** What an item leaves in the cache is not disturbed by a later one. *)
Lemma process_item_keeps now cache (v : BatchRoute.Video) k r :
  Redis.get now cache k = Some r →
  Redis.get now (process_item' now cache v).1 k = Some r.
Proof.
  intros Hk. unfold BatchRoute.process_item.
  destruct (Redis.get now cache (BatchRoute.cacheKey v)) eqn:Hv; [done|].
  destruct (getVideoData _); [|done]. destruct (analyzeVideo _); [|done].
  destruct (Redis.setEx _ _ _ _ _) as [cache'|] eqn:Hset; [|done].
  cbn [fst]. destruct (redis_get_setEx _ now _ _ _ _ _ Hset) as (_ & _ & Hother).
  rewrite Hother; [done|]. intros ->. congruence.
Qed.

Lemma process_all_keeps now (vs : list BatchRoute.Video) : ∀ cache k r,
  Redis.get now cache k = Some r →
  Redis.get now (process_all' now cache vs).1 k = Some r.
Proof.
  induction vs as [|v vs IH]; intros cache k r Hk; cbn; [done|].
  pose proof (process_item_keeps now cache v k r Hk) as H1.
  destruct (process_item' now cache v) as [c1 e]. cbn [fst] in H1.
  pose proof (IH c1 k r H1) as H2.
  by destruct (process_all' now c1 vs).
Qed.

(** A completed item is in the cache afterwards. *)
Lemma process_item_completed now cache (v : BatchRoute.Video) n r c :
  (process_item' now cache v).2 = BatchRoute.completed n r c →
  Redis.get now (process_item' now cache v).1 (BatchRoute.cacheKey v) = Some r.
Proof.
  unfold BatchRoute.process_item.
  destruct (Redis.get now cache (BatchRoute.cacheKey v)) eqn:Hv.
  { cbn. intros [= _ <- _]. done. }
  destruct (getVideoData _); [|done]. destruct (analyzeVideo _); [|done].
  destruct (Redis.setEx _ _ _ _ _) as [cache'|] eqn:Hset; [|done].
  cbn. intros [= _ <- _].
  destruct (redis_get_setEx _ now _ _ _ _ _ Hset) as (Hin & _). apply Hin. lia.
Qed.

Lemma process_all_middle now cache (pre post : list BatchRoute.Video) v :
  (process_all' now cache (pre ++ v :: post)).2 !! length pre
  = Some (process_item' now (process_all' now cache pre).1 v).2.
Proof.
  rewrite process_all_app. cbn [snd].
  rewrite lookup_app_r by (by rewrite process_all_length).
  rewrite process_all_length, Nat.sub_diag. cbn [BatchRoute.process_all].
  destruct (process_item' now _ v) as [c1 e].
  by destruct (process_all' now c1 post).
Qed.

End RouterFacts.







(** ** The metrics middleware *)
Section MetricsFacts.
Import Metrics.

Lemma bump_lookup counts e e' :
  default 0%nat (bump counts e !! e')
  = (default 0 (counts !! e') + (if decide (e = e') then 1 else 0))%nat.
Proof.
  unfold bump. destruct (decide (e = e')) as [->|Hne].
  - by rewrite lookup_insert_eq.
  - rewrite lookup_insert_ne by done. lia.
Qed.

Lemma foldr_duration_snoc log rq :
  (foldr (λ rq acc, duration rq + acc) 0 (log ++ [rq])
   == foldr (λ rq acc, duration rq + acc) 0 log + duration rq)%Q.
Proof.
  induction log as [|x log IH]; cbn; [lra|]. rewrite IH. lra.
Qed.

Lemma on_finish_counted g log rq :
  match g with
  | Some m => counted m log
  | None => log = []
  end →
  ∃ m', on_finish g rq = Some m' ∧ counted m' (log ++ [rq]).
Proof.
  intros Hg. eexists. split; [done|].
  assert (Hm : counted (default (mkApiMetrics 0 0 0 ∅ ∅) g) log).
  { destruct g as [m|]; [done|]. subst log.
    constructor; cbn; try done; intros; by rewrite lookup_empty. }
  destruct Hm as [Ht Hr He Hd].
  constructor; cbn [totalRequests requestCounts errorCounts totalDuration].
  - rewrite length_app, Ht. cbn. lia.
  - intros e. rewrite bump_lookup, Hr, filter_app, length_app, filter_cons.
    destruct (decide (endpoint rq = e)); cbn; lia.
  - intros e. rewrite filter_app, length_app, filter_cons, filter_nil.
    case_bool_decide as Hs.
    + rewrite bump_lookup, He.
      destruct (decide (endpoint rq = e)).
      * rewrite decide_True by done. cbn. lia.
      * rewrite decide_False by (by intros [? _]). cbn. lia.
    + rewrite He, decide_False by (by intros [_ ?]). cbn. lia.
  - rewrite Hd, foldr_duration_snoc. reflexivity.
Qed.

Lemma collect_snoc log rq : collect (log ++ [rq]) = on_finish (collect log) rq.
Proof. unfold collect. by rewrite foldl_app. Qed.

Lemma collect_counted log :
  match collect log with
  | Some m => counted m log
  | None => log = []
  end.
Proof.
  induction log as [|rq log IH] using rev_ind; [done|].
  rewrite collect_snoc.
  destruct (on_finish_counted (collect log) log rq IH) as (m' & -> & Hm').
  done.
Qed.

End MetricsFacts.

(** X21: the counters of the metrics middleware stay consistent with the
    responses that have finished.  Before the first response there are no
    metrics; after any non-empty log of finished responses the total is the
    number of responses, each endpoint's request count is the number of
    responses of that endpoint and its error count the number of those with
    a status of 400 or more, so that no endpoint has more errors than
    requests; the total duration is the sum of the measured times and the average is the
    total divided by the number of responses. *)
Theorem metrics_count_the_responses (log : list Metrics.Finished) :
  Metrics.collect [] = None
  ∧ (log ≠ [] →
     ∃ m, Metrics.collect log = Some m
          ∧ Metrics.totalRequests m = length log
          ∧ (∀ e, default 0%nat (Metrics.requestCounts m !! e)
                  = length (filter (λ rq, Metrics.endpoint rq = e) log))
          ∧ (∀ e, default 0%nat (Metrics.errorCounts m !! e)
                  = length (filter (λ rq, Metrics.endpoint rq = e
                                          ∧ 400 ≤ Metrics.statusCode rq) log))
          ∧ (∀ e, (default 0 (Metrics.errorCounts m !! e)
                   ≤ default 0 (Metrics.requestCounts m !! e))%nat)
          ∧ (Metrics.totalDuration m
             == foldr (λ rq acc, Metrics.duration rq + acc) 0 log)%Q
          ∧ (Metrics.averageDuration m
             == Metrics.totalDuration m / inject_Z (Z.of_nat (length log)))%Q).
Proof.
  split; [done|]. intros Hne.
  destruct log as [|rq log _] using rev_ind; [done|]. clear Hne.
  rewrite collect_snoc.
  pose proof (collect_counted log) as Hlog.
  destruct (on_finish_counted _ _ rq Hlog) as (m & Hm & [Ht Hr He Hd]).
  exists m. split; [done|]. split; [done|]. split; [done|]. split; [done|].
  assert (Hle : ∀ e, (default 0 (Metrics.errorCounts m !! e)
                      ≤ default 0 (Metrics.requestCounts m !! e))%nat).
  { intros e. rewrite He, Hr. clear.
    induction (log ++ [rq]) as [|x l IH]; [done|].
    rewrite !filter_cons.
    destruct (decide (Metrics.endpoint x = e)).
    - destruct (decide (_ ∧ _)); cbn [length]; lia.
    - rewrite decide_False by (by intros [? _]). done. }
  split; [done|]. split; [done|].
  - revert Hm. unfold Metrics.on_finish. intros [= <-].
    cbn [Metrics.averageDuration Metrics.totalDuration Metrics.totalRequests].
    rewrite length_app. cbn [length].
    pose proof (collect_counted log) as Hc.
    destruct (Metrics.collect log) as [m0|].
    + destruct Hc as [Ht0 _ _ _]. cbn [default from_option id]. rewrite Ht0.
      replace (S (length log)) with (length log + 1)%nat by lia. reflexivity.
    + subst log. reflexivity.
Qed.

Lemma metrics_count_the_responses_witness :
  let log := [Metrics.mkFinished "GET" (Some "/status/:id") "/status/7" 200 (3 # 2);
              Metrics.mkFinished "GET" (Some "/status/:id") "/status/9" 404 (1 # 2)] in
  ∃ m, Metrics.collect log = Some m
       ∧ Metrics.totalRequests m = 2%nat
       ∧ Metrics.requestCounts m !! "GET /status/:id" = Some 2%nat
       ∧ Metrics.errorCounts m !! "GET /status/:id" = Some 1%nat.
Proof.
  intros log.
  destruct (proj2 (metrics_count_the_responses log)) as (m & Hm & Ht & _);
    [discriminate|].
  exists m. split; [exact Hm|]. split; [exact Ht|].
  injection Hm as <-. split; reflexivity.
Defined.

(** ** Leaving a room of the progress channel *)
Section LeaveFacts.
Context {Result : Type}.
Implicit Types sv : SocketIO.Server Result.

Lemma room_inj (a b : string) : SocketIO.room a = SocketIO.room b → a = b.
Proof. unfold SocketIO.room. cbn. intros H. by simplify_eq. Qed.

Lemma members_leave sv socket r r' :
  SocketIO.members (SocketIO.leave sv socket r) r'
  = if decide (r = r') then SocketIO.members sv r ∖ {[socket]}
    else SocketIO.members sv r'.
Proof.
  unfold SocketIO.members, SocketIO.leave. cbn [SocketIO.rooms].
  destruct (decide (r = r')) as [->|Hne].
  - by rewrite lookup_insert_eq.
  - by rewrite lookup_insert_ne.
Qed.

Lemma members_join sv socket r r' :
  SocketIO.members (SocketIO.join sv socket r) r'
  = if decide (r = r') then {[socket]} ∪ SocketIO.members sv r
    else SocketIO.members sv r'.
Proof.
  unfold SocketIO.members, SocketIO.join. cbn [SocketIO.rooms].
  destruct (decide (r = r')) as [->|Hne].
  - by rewrite lookup_insert_eq.
  - by rewrite lookup_insert_ne.
Qed.

Lemma addressed_to_ext sv sv' socket socket' (ms : list (SocketIO.Emission Result))
    (keep : SocketIO.Emission Result → Prop) `{!∀ m, Decision (keep m)} :
  (∀ m, socket' ∈ SocketIO.members sv' (SocketIO.room (SocketIO.emission_target m))
        ↔ keep m
          ∧ socket ∈ SocketIO.members sv (SocketIO.room (SocketIO.emission_target m))) →
  SocketIO.addressed_to sv' socket' ms
  = SocketIO.addressed_to sv socket (filter keep ms).
Proof.
  intros Hiff. unfold SocketIO.addressed_to. f_equal.
  induction ms as [|m ms IH]; [done|].
  rewrite !filter_cons, IH.
  destruct (decide (keep m)) as [Hk|Hk].
  - rewrite filter_cons.
    destruct (decide (socket ∈ _)) as [Hin|Hout].
    + rewrite decide_True; [done|]. by apply Hiff.
    + rewrite decide_False; [done|]. intros Hin%Hiff. by destruct Hin.
  - rewrite decide_False; [done|]. intros Hin%Hiff. by destruct Hin.
Qed.

End LeaveFacts.

(** X22: leaving and joining rooms of the progress channel.  After
    [unsubscribe_analysis] a socket receives, of what is emitted, exactly
    what it would have received otherwise less the events of that analysis,
    and every other socket receives what it would have received anyway.
    Subscribing a second time changes nothing, so a socket that subscribes
    twice still gets each event once; and as long as [setupSocketIO] has
    not run, emissions are dropped without any effect. *)
Theorem unsubscribed_sockets_receive_nothing (Result : Type)
    (sv : SocketIO.Server Result) (socket : nat) (analysisId : string)
    (ms : list (SocketIO.Emission Result)) :
  let left := SocketIO.unsubscribe_analysis sv socket analysisId in
  let joined := SocketIO.subscribe_analysis sv socket analysisId in
  (SocketIO.io sv = true →
   SocketIO.received (SocketIO.emit_all left ms) socket
   = SocketIO.received sv socket
     ++ SocketIO.addressed_to sv socket
          (filter (λ m, SocketIO.emission_target m ≠ analysisId) ms)
   ∧ ∀ other, other ≠ socket →
       SocketIO.received (SocketIO.emit_all left ms) other
       = SocketIO.received (SocketIO.emit_all sv ms) other)
  ∧ SocketIO.rooms (SocketIO.subscribe_analysis joined socket analysisId)
    = SocketIO.rooms joined
  ∧ (SocketIO.io sv = false → SocketIO.emit_all sv ms = sv).
Proof.
  intros left joined. split; [|split].
  - intros Hio.
    assert (Hio' : SocketIO.io left = true) by done.
    split.
    + rewrite (proj1 (emit_all_received ms left socket Hio')).
      f_equal.
      apply (addressed_to_ext sv left socket socket ms
               (λ m, SocketIO.emission_target m ≠ analysisId)).
      intros m. unfold left, SocketIO.unsubscribe_analysis.
      rewrite members_leave.
      destruct (decide (SocketIO.room analysisId
                        = SocketIO.room (SocketIO.emission_target m))) as [Heq|Hne].
      * apply room_inj in Heq. split.
        -- intros [_ Hn]%elem_of_difference. exfalso. apply Hn.
           by apply elem_of_singleton.
        -- intros [Hn _]. by destruct Hn.
      * split; [|by intros [_ ?]]. intros Hin. split; [|done].
        intros Heq. by rewrite Heq in Hne.
    + intros other Hother.
      rewrite (proj1 (emit_all_received ms left other Hio')).
      rewrite (proj1 (emit_all_received ms sv other Hio)).
      f_equal.
      rewrite (addressed_to_ext sv left other other ms (λ _, True)).
      * f_equal. induction ms as [|m ms IH]; [done|].
        by rewrite filter_cons, decide_True, IH.
      * intros m. unfold left, SocketIO.unsubscribe_analysis.
        rewrite members_leave. destruct (decide _) as [<-|].
        -- split; [by intros [? _]%elem_of_difference|].
           intros [_ ?]. apply elem_of_difference. split; [done|].
           by intros ?%elem_of_singleton.
        -- by split; [|intros [_ ?]].
  - unfold joined, SocketIO.subscribe_analysis, SocketIO.join.
    cbn [SocketIO.rooms]. rewrite insert_insert_eq. f_equal.
    fold (SocketIO.join sv socket (SocketIO.room analysisId)).
    rewrite members_join, decide_True by done.
    by rewrite (assoc_L (∪)), (idemp_L (∪)).
  - intros Hio. unfold SocketIO.emit_all.
    induction ms as [|m ms IH]; [done|]. cbn [foldl].
    assert (Hm : SocketIO.emit sv m = sv).
    { destruct m; cbn; unfold SocketIO.emitAnalysisProgress,
        SocketIO.emitAnalysisComplete; by rewrite Hio. }
    by rewrite Hm.
Qed.

Lemma unsubscribed_sockets_receive_nothing_witness :
  let sv : SocketIO.Server Q :=
    SocketIO.subscribe_analysis
      (SocketIO.subscribe_analysis SocketIO.started 7%nat "a1") 7%nat "a2" in
  let ms := [SocketIO.Progress 1 "a1" 50 "processing" "half way";
             SocketIO.Progress 2 "a2" 20 "processing" "started";
             SocketIO.Complete 3 "a1" 75%Q] in
  SocketIO.received
    (SocketIO.emit_all (SocketIO.unsubscribe_analysis sv 7%nat "a1") ms) 7%nat
  = SocketIO.received sv 7%nat
    ++ SocketIO.addressed_to sv 7%nat
         (filter (λ m, SocketIO.emission_target m ≠ "a1") ms).
Proof.
  intros sv ms.
  assert (Hio : SocketIO.io sv = true) by reflexivity.
  destruct (proj1 (unsubscribed_sockets_receive_nothing Q sv 7%nat "a1" ms) Hio)
    as [H _].
  exact H.
Defined.

(** ** Registering and logging in *)
Section UserFacts.
Import UserRoutes.
Variable isEmail : string → bool.
Variable normalizeEmail : string → string.
Variable hash : nat → string → string.
Variable compare : string → string → bool.
Variable sign : nat → string → string.

Lemma user_findUnique_None (rows : list User) e :
  findUnique rows e = None ↔ e ∉ email <$> rows.
Proof.
  unfold findUnique. rewrite head_None. split.
  - intros Hf Hin. apply list_elem_of_fmap in Hin as (a & -> & Ha).
    by apply (filter_nil_not_elem_of _ _ a Hf).
  - intros Hnot.
    destruct (filter (λ u, email u = e) rows) as [|a l] eqn:Hf; [done|].
    exfalso. apply Hnot.
    assert (Ha : a ∈ filter (λ u, email u = e) rows) by (rewrite Hf; by left).
    apply list_elem_of_filter in Ha as [<- Ha]. by apply list_elem_of_fmap_2.
Qed.

Lemma user_findUnique_new (rows : list User) e u :
  findUnique rows e = None → email u = e → findUnique (rows ++ [u]) e = Some u.
Proof.
  unfold findUnique. intros Hn Hu. apply head_None in Hn.
  by rewrite filter_app, Hn, filter_cons, decide_True.
Qed.

Lemma register_unique salt st e p u :
  NoDup (email <$> users st) →
  NoDup (email <$> users (register isEmail normalizeEmail hash salt st e p u).1).
Proof.
  intros Hnd. unfold register.
  destruct (negb _); [done|].
  destruct (findUnique (users st) (normalizeEmail e)) eqn:Hf; [done|].
  cbn [fst users]. rewrite fmap_app. apply NoDup_app. split; [done|].
  split; [|apply NoDup_singleton].
  intros x Hx Hx'. cbn in Hx'. apply list_elem_of_singleton in Hx' as ->.
  by apply user_findUnique_None in Hf.
Qed.

Lemma register_all_unique requests : ∀ st,
  NoDup (email <$> users st) →
  NoDup (email <$> users (register_all isEmail normalizeEmail hash st requests)).
Proof.
  induction requests as [|[[[salt e] p] u] requests IH]; intros st Hnd; [done|].
  cbn. apply IH. by apply register_unique.
Qed.

End UserFacts.



(** ** The content script's monitor *)
Section MonitorFacts.
Import ContentScript.
Context {Result : Type}.
Variable status_response : nat → Response StatusData.
Variable result_response : Response Result.

Lemma checkProgress_ends (fuel : nat) : ∀ (attempts : nat) (v : View Result),
  (fuel + attempts = 60)%nat → (0 < fuel)%nat →
  ∃ v' n e updates,
    checkProgress status_response result_response fuel attempts v = Some (v', n, e)
    ∧ (attempts < n ≤ 60)%nat
    ∧ (∀ k, (attempts < k < n)%nat → pending status_response k)
    ∧ length updates = (n - attempts - 1)%nat
    ∧ match e with
      | loaded =>
          (∃ st, status_response n = success st ∧ status st = "completed")
          ∧ v' = loadAnalysisResult result_response
                   (mkView (isAnalyzing v) (shown v ++ (UpdateProgress <$> updates)))
      | uncaught _ =>
          ¬ (∃ st, status_response n = success st ∧ status st = "completed")
          ∧ v' = mkView (isAnalyzing v) (shown v ++ (UpdateProgress <$> updates))
      end.
Proof.
  induction fuel as [|fuel IH]; intros attempts v Hsum Hpos; [lia|].
  cbn [checkProgress].
  destruct (status_response (S attempts)) as [st|] eqn:Hst.
  2:{ exists v, (S attempts), (uncaught "status check failed"), [].
      split; [done|]. split; [lia|]. split; [intros; lia|].
      split; [cbn; lia|]. split.
      - intros (st & Hst' & _). congruence.
      - destruct v. cbn. by rewrite app_nil_r. }
  case_bool_decide as Hc.
  { exists (loadAnalysisResult result_response v), (S attempts), loaded, [].
    split; [done|]. split; [lia|]. split; [intros; lia|].
    split; [cbn; lia|]. split; [by exists st|].
    destruct v. cbn. by rewrite app_nil_r. }
  case_bool_decide as Hf.
  { exists v, (S attempts), (uncaught "the analysis failed"), [].
    split; [done|]. split; [lia|]. split; [intros; lia|].
    split; [cbn; lia|]. split.
    - intros (st' & Hst' & Hc'). congruence.
    - destruct v. cbn. by rewrite app_nil_r. }
  case_bool_decide as Hmax.
  { exists v, (S attempts), (uncaught "the analysis timed out"), [].
    split; [done|]. split; [lia|]. split; [intros; lia|].
    split; [cbn; lia|]. split.
    - intros (st' & Hst' & Hc'). congruence.
    - destruct v. cbn. by rewrite app_nil_r. }
  unfold maxAttempts in Hmax.
  destruct (IH (S attempts)
              (show v (UpdateProgress (progress_or_0 (progress st)))))
    as (v' & n & e & updates & Hrun & Hn & Hpend & Hlen & Hend); [lia|lia|].
  exists v', n, e, (progress_or_0 (progress st) :: updates).
  split; [done|]. split; [lia|]. split.
  - intros k Hk. destruct (decide (k = S attempts)) as [->|].
    + by exists st.
    + apply Hpend. lia.
  - split; [cbn [length]; lia|].
    cbn [show isAnalyzing shown] in Hend. rewrite <- app_assoc in Hend.
    exact Hend.
Qed.

End MonitorFacts.

(** X24: the content script asks for the status of an analysis at most 60
    times.  [monitorAnalysisProgress] always comes to an end, after between
    1 and 60 status requests, all but the last of which were answered with a
    status other than 'completed' and 'failed' and were followed by a
    progress update.  It ends by loading the result exactly when the last
    answer says 'completed'; only then is [isAnalyzing] reset and the button
    made ready again.  When it ends in any other way (a failed analysis, a
    failed status request, or 60 requests without completion) nothing
    catches the exception: the view stays as the last progress update left
    it, so after a click that started such a run [isAnalyzing] is still set
    and every further click is answered with 'already analysing'. *)
Theorem monitor_stops_within_sixty_requests (Result : Type)
    (status_response : nat → ContentScript.Response ContentScript.StatusData)
    (result_response : ContentScript.Response Result)
    (v : ContentScript.View Result) :
  (∃ v' n e updates,
      ContentScript.monitorAnalysisProgress status_response result_response v
      = Some (v', n, e)
      ∧ (1 ≤ n ≤ 60)%nat
      ∧ (∀ k, (0 < k < n)%nat → ContentScript.pending status_response k)
      ∧ length updates = (n - 1)%nat
      ∧ match e with
        | ContentScript.loaded =>
            (∃ st, status_response n = ContentScript.success st
                   ∧ ContentScript.status st = "completed")
            ∧ v' = ContentScript.loadAnalysisResult result_response
                     (ContentScript.mkView (ContentScript.isAnalyzing v)
                        (ContentScript.shown v
                         ++ (ContentScript.UpdateProgress <$> updates)))
            ∧ ContentScript.isAnalyzing v' = false
        | ContentScript.uncaught _ =>
            ¬ (∃ st, status_response n = ContentScript.success st
                     ∧ ContentScript.status st = "completed")
            ∧ v' = ContentScript.mkView (ContentScript.isAnalyzing v)
                     (ContentScript.shown v
                      ++ (ContentScript.UpdateProgress <$> updates))
        end)
  ∧ (ContentScript.isAnalyzing v = false →
     ∃ v' n e,
       ContentScript.monitorAnalysisProgress status_response result_response
         (ContentScript.show (ContentScript.mkView true (ContentScript.shown v))
            ContentScript.ButtonAnalyzing)
       = Some (v', n, e)
       ∧ ContentScript.handleAnalysisClick status_response result_response
           (ContentScript.success ()) v
         = Some (v', n)
       ∧ (n ≤ 60)%nat
       ∧ match e with
         | ContentScript.loaded => ContentScript.isAnalyzing v' = false
         | ContentScript.uncaught _ =>
             ContentScript.isAnalyzing v' = true
             ∧ ∀ status_response' result_response' analyze_response,
                 ContentScript.handleAnalysisClick status_response'
                   result_response' analyze_response v'
                 = Some (ContentScript.show v'
                           (ContentScript.ShowMessage "already analysing"),
                         0%nat)
         end).
Proof.
  split.
  - destruct (checkProgress_ends status_response result_response 60 0 v)
      as (v' & n & e & updates & Hrun & Hn & Hpend & Hlen & Hend); [lia|lia|].
    exists v', n, e, updates. split; [done|]. split; [lia|].
    split; [done|]. split; [lia|].
    destruct e as [|msg]; [|done].
    destruct Hend as [Hst ->]. split; [done|]. split; [done|].
    unfold ContentScript.loadAnalysisResult. by destruct result_response.
  - intros Hidle.
    destruct (checkProgress_ends status_response result_response 60 0
                (ContentScript.show
                   (ContentScript.mkView true (ContentScript.shown v))
                   ContentScript.ButtonAnalyzing))
      as (v' & n & e & updates & Hrun & Hn & Hpend & Hlen & Hend); [lia|lia|].
    exists v', n, e. split; [done|]. split.
    + unfold ContentScript.handleAnalysisClick. rewrite Hidle.
      unfold ContentScript.monitorAnalysisProgress, ContentScript.maxAttempts.
      by rewrite Hrun.
    + split; [lia|]. destruct e as [|msg].
      * destruct Hend as [_ ->].
        unfold ContentScript.loadAnalysisResult. by destruct result_response.
      * destruct Hend as [_ ->]. split; [done|]. done.
Qed.

Lemma monitor_stops_within_sixty_requests_witness :
  let never_done := λ _ : nat,
    ContentScript.success (ContentScript.mkStatusData "processing" (Some 50)) in
  let idle : ContentScript.View nat := ContentScript.mkView false [] in
  ∃ v',
    ContentScript.handleAnalysisClick never_done (ContentScript.success 75%nat)
      (ContentScript.success ()) idle
    = Some (v', 60%nat)
    ∧ ContentScript.isAnalyzing v' = true.
Proof.
  intros never_done idle.
  destruct (proj2 (monitor_stops_within_sixty_requests nat never_done
                     (ContentScript.success 75%nat) idle))
    as (v' & n & e & Hrun & Hclick & Hn & Hend); [reflexivity|].
  exists v'.
  assert (He : (n, e) = (60%nat, ContentScript.uncaught "the analysis timed out")).
  { vm_compute in Hrun. by injection Hrun as _ <- <-. }
  injection He as -> ->. split; [exact Hclick|]. by destruct Hend.
Defined.

(** ** Reading the token of a request *)
Section AuthFacts.
Import Auth.

Lemma split_space_spaceless (s : string) :
  spaceless s = true → split_space s = [s].
Proof.
  induction s as [|c s IH]; [done|]. cbn.
  destruct (Ascii.eqb c Ascii.Space); [done|]. cbn. intros Hs.
  by rewrite IH.
Qed.

Lemma split_space_app (a b : string) :
  spaceless a = true →
  split_space (a +:+ String Ascii.Space b) = a :: split_space b.
Proof.
  induction a as [|c a IH]; [done|]. intros Ha.
  cbn in Ha. apply andb_true_iff in Ha as [Hc Ha]. apply negb_true_iff in Hc.
  change (String c a +:+ String Ascii.Space b)
    with (String c (a +:+ String Ascii.Space b)).
  cbn [split_space]. by rewrite Hc, (IH Ha).
Qed.

Lemma substring_all (s : string) : String.substring 0 (String.length s) s = s.
Proof. induction s as [|c s IH]; [done|]. cbn. by rewrite IH. Qed.

Lemma remove_first_bearer (t : string) : remove_first "Bearer " ("Bearer " +:+ t) = t.
Proof.
  cbv [String.append]. cbn [remove_first String.prefix]. cbn.
  assert (Hp : String.prefix "" t = true) by (by destruct t).
  rewrite Hp, Nat.sub_0_r. apply substring_all.
Qed.

Lemma prefix_spaceless (p h : string) :
  String.prefix p h = true → spaceless h = true → spaceless p = true.
Proof.
  revert h. induction p as [|a p IH]; intros h; [done|].
  destruct h as [|b h]; [done|]. cbn.
  destruct (Ascii.ascii_dec a b) as [->|]; [|done].
  intros Hp [Hb Hh]%andb_true_iff. rewrite Hb. cbn. by apply (IH h).
Qed.

Lemma remove_first_spaceless (h : string) :
  spaceless h = true → remove_first "Bearer " h = h.
Proof.
  induction h as [|c h IH]; [done|]. intros Hs.
  assert (Hp : String.prefix "Bearer " (String c h) = false).
  { destruct (String.prefix "Bearer " (String c h)) eqn:Hp; [|done].
    by apply prefix_spaceless in Hp. }
  cbn [remove_first]. rewrite Hp.
  cbn in Hs. apply andb_true_iff in Hs as [_ Hs]. by rewrite IH.
Qed.

End AuthFacts.

(** X25: the two authentication middlewares read a well-formed header
    alike, and differ on a bare token.  For a non-empty token without
    spaces, [authenticateToken] given "Bearer <token>" verifies exactly that
    token (403 when verification fails), and it does the same for any other
    scheme word in place of "Bearer"; given the bare token it answers 401.
    [authenticateUser] verifies the same token whether the header is
    "Bearer <token>" or the bare token.  Without a header, and with the
    header "Bearer " alone, both answer 401.  In [authenticateUser] a
    verification error named JsonWebTokenError is answered 401 and one of
    any other name 500. *)
Theorem bearer_token_is_read_alike (Claims User : Type)
    (verify : string → Outcome Claims) (userId : Claims → nat)
    (findUnique : nat → Outcome (option User)) (token : string) :
  token ≠ "" → Auth.spaceless token = true →
  Auth.authenticateToken verify (Some ("Bearer " +:+ token))
  = match verify token with
    | Returned user => Auth.next user
    | Thrown _ => Auth.status 403
    end
  ∧ (∀ scheme, Auth.spaceless scheme = true →
       Auth.authenticateToken verify (Some (scheme +:+ " " +:+ token))
       = Auth.authenticateToken verify (Some ("Bearer " +:+ token)))
  ∧ Auth.authenticateToken verify (Some token) = Auth.status 401
  ∧ Auth.authenticateUser verify userId findUnique (Some ("Bearer " +:+ token))
    = Auth.authenticateUser verify userId findUnique (Some token)
  ∧ (∀ name, verify token = Thrown name →
       Auth.authenticateUser verify userId findUnique (Some token)
       = if bool_decide (name = "JsonWebTokenError")
         then Auth.status 401 else Auth.status 500)
  ∧ Auth.authenticateToken verify None = Auth.status 401
  ∧ Auth.authenticateUser verify userId findUnique None = Auth.status 401
  ∧ Auth.authenticateToken verify (Some "Bearer ") = Auth.status 401
  ∧ Auth.authenticateUser verify userId findUnique (Some "Bearer ") = Auth.status 401.
Proof.
  intros Hne Hs.
  assert (Hsplit : ∀ scheme, Auth.spaceless scheme = true →
            Auth.authenticateToken verify (Some (scheme +:+ " " +:+ token))
            = match verify token with
              | Returned user => Auth.next user
              | Thrown _ => Auth.status 403
              end).
  { intros scheme Hscheme. unfold Auth.authenticateToken.
    change (scheme +:+ " " +:+ token) with (scheme +:+ String Ascii.Space token).
    rewrite bool_decide_eq_false_2 by (by destruct scheme).
    rewrite split_space_app by done. rewrite split_space_spaceless by done.
    cbn [lookup list_lookup]. by rewrite bool_decide_eq_false_2. }
  split; [by apply (Hsplit "Bearer")|].
  split.
  { intros scheme Hscheme. rewrite Hsplit by done. symmetry.
    by apply (Hsplit "Bearer"). }
  split.
  { unfold Auth.authenticateToken. rewrite bool_decide_eq_false_2 by done.
    by rewrite split_space_spaceless. }
  split.
  { unfold Auth.authenticateUser.
    by rewrite remove_first_bearer, remove_first_spaceless. }
  split.
  { intros name Hv. unfold Auth.authenticateUser.
    rewrite remove_first_spaceless by done.
    rewrite bool_decide_eq_false_2 by done. by rewrite Hv. }
  done.
Qed.

Lemma bearer_token_is_read_alike_witness :
  let verify := λ t : string,
    if bool_decide (t = "good") then Returned 7%nat else Thrown "JsonWebTokenError" in
  Auth.authenticateToken verify (Some "Basic good") = Auth.next 7%nat
  ∧ Auth.authenticateToken verify (Some "good") = Auth.status 401
  ∧ Auth.authenticateUser verify id (λ i, Returned (Some i)) (Some "good")
    = Auth.next 7%nat.
Proof.
  intros verify.
  destruct (bearer_token_is_read_alike nat nat verify id (λ i, Returned (Some i))
              "good") as (H1 & H2 & H3 & H4 & _); [discriminate|reflexivity|].
  split; [|split].
  - assert (Hb : Auth.spaceless "Basic" = true) by reflexivity.
    transitivity (Auth.authenticateToken verify (Some ("Bearer " +:+ "good")));
      [exact (H2 "Basic" Hb)|exact H1].
  - exact H3.
  - rewrite <- H4. reflexivity.
Defined.

(** ** The plan's analyze route, request after request *)
Section PlanRouterFacts.
Import PlanRoute PlanRouter.

Lemma filter_none {A} (P : A → Prop) `{!∀ x, Decision (P x)} (l : list A) :
  (∀ x, x ∈ l → ¬ P x) → filter P l = [].
Proof.
  intros Hnot. destruct (filter P l) as [|x l'] eqn:Hf; [done|].
  exfalso. assert (Hx : x ∈ filter P l) by (rewrite Hf; by left).
  apply list_elem_of_filter in Hx as [HP Hx]. by apply (Hnot x).
Qed.

Lemma findFirst_snoc (db : list Row) v r :
  findFirst db v = None →
  findFirst (db ++ [r]) v = if decide (video_id r = v) then Some r else None.
Proof.
  unfold findFirst. intros Hn. apply head_None in Hn.
  rewrite filter_app, Hn, filter_cons. by destruct (decide _).
Qed.

(** In a table in which the ids of the rows are their positions, a row is
    found by its id. *)
Lemma numbered_get (db : list Row) i r :
  (∀ j x, db !! j = Some x → id x = j) → db !! i = Some r → get db i = found r.
Proof.
  intros Hnum Hi. unfold get.
  pose proof (take_drop_middle db i r Hi) as Hsplit.
  rewrite <- Hsplit, filter_app.
  assert (Hpre : filter (λ r0, id r0 = i) (take i db) = []).
  { apply filter_none. intros x Hx Hid.
    apply list_elem_of_lookup in Hx as [j Hj].
    pose proof (lookup_lt_Some _ _ _ Hj) as Hlt. rewrite length_take in Hlt.
    rewrite lookup_take_lt in Hj by lia. apply Hnum in Hj. lia. }
  rewrite Hpre, filter_cons, decide_True by (by apply (Hnum i)). done.
Qed.

Lemma post_analyze_numbered (db : list Row) v python :
  (∀ j x, db !! j = Some x → id x = j) →
  ∀ j x, (post_analyze db v python).1 !! j = Some x → id x = j.
Proof.
  intros Hnum. unfold post_analyze, answer_existing.
  destruct (findFirst db v); [done|].
  destruct python as [d|e]; [|done]. cbn [store fst].
  intros j x Hj. apply lookup_app_Some in Hj as [Hj|[Hlen Hj]]; [by apply Hnum|].
  apply list_lookup_singleton_Some in Hj as [Hj <-]. cbn. lia.
Qed.

Lemma serve_numbered requests : ∀ db,
  (∀ j x, db !! j = Some x → id x = j) →
  ∀ j x, serve db requests !! j = Some x → id x = j.
Proof.
  induction requests as [|[v python] requests IH]; intros db Hnum; [done|].
  cbn. apply IH. by apply post_analyze_numbered.
Qed.

End PlanRouterFacts.

(** X26: the analyze route of the integration plan, serving one request
    after the other.  A video that has a row is answered with that row and
    the table is left alone, whatever the Python server would say.  For a
    video without a row, an error of the Python server is passed on and
    nothing is stored; an answer is stored as a new row, which
    [GET /:analysis_id] then finds by its id.  The row is filed under the
    video id of the answer: when that is the requested id, every later
    request for the video is answered with this row; when it is another id,
    the requested video is still without a row, and the next request for it
    asks the Python server again. *)
Theorem plan_route_reuses_stored_analyses
    (requests : list (string * Outcome PlanRoute.AnalysisData))
    (v : string) (python : Outcome PlanRoute.AnalysisData) :
  let db := PlanRouter.serve [] requests in
  let after := PlanRouter.post_analyze db v python in
  (∀ r, PlanRoute.findFirst db v = Some r → after = (db, PlanRoute.existing r))
  ∧ (PlanRoute.findFirst db v = None →
     match python with
     | Thrown e => after = (db, PlanRoute.server_error e)
     | Returned d =>
         ∃ r, after.2 = PlanRoute.saved r
              ∧ PlanRoute.video_id r = PlanRoute.data_video_id d
              ∧ PlanRoute.overall_score r = PlanRoute.data_overall_score d
              ∧ PlanRouter.get after.1 (PlanRoute.id r) = PlanRouter.found r
              ∧ (PlanRoute.data_video_id d = v →
                 ∀ python', PlanRouter.post_analyze after.1 v python'
                            = (after.1, PlanRoute.existing r))
              ∧ (PlanRoute.data_video_id d ≠ v →
                 PlanRoute.findFirst after.1 v = None)
     end).
Proof.
  intros db after. split.
  - intros r Hr. unfold after, PlanRouter.post_analyze, PlanRoute.answer_existing.
    by rewrite Hr.
  - intros Hnone.
    assert (Hafter : after = PlanRoute.store db python).
    { unfold after, PlanRouter.post_analyze, PlanRoute.answer_existing.
      by rewrite Hnone. }
    destruct python as [d|e]; [|done].
    set (r := PlanRoute.mkRow (length db) (PlanRoute.data_video_id d)
                (PlanRoute.data_overall_score d) "completed").
    assert (Hdb : after = (db ++ [r], PlanRoute.saved r)) by done.
    exists r. rewrite Hdb. cbn [fst snd]. split; [done|]. split; [done|].
    split; [done|]. split; [|split].
    + apply numbered_get.
      * assert (Hnum : ∀ j x, after.1 !! j = Some x → PlanRoute.id x = j).
        { apply post_analyze_numbered. apply serve_numbered. intros j x Hj.
          by rewrite lookup_nil in Hj. }
        by rewrite Hdb in Hnum.
      * rewrite lookup_app_r by done. by rewrite Nat.sub_diag.
    + intros Hv python'.
      unfold PlanRouter.post_analyze, PlanRoute.answer_existing.
      rewrite findFirst_snoc by done. by rewrite decide_True.
    + intros Hv. rewrite findFirst_snoc by done. by rewrite decide_False.
Qed.

Lemma plan_route_reuses_stored_analyses_witness :
  let first := PlanRouter.post_analyze [] "abc"
                 (Returned (PlanRoute.mkData "abc" 75%Q)) in
  PlanRouter.post_analyze first.1 "abc" (Thrown "python is down")
  = (first.1, PlanRoute.existing (PlanRoute.mkRow 0 "abc" 75%Q "completed")).
Proof.
  intros first.
  destruct (proj2 (plan_route_reuses_stored_analyses [] "abc"
                     (Returned (PlanRoute.mkData "abc" 75%Q))))
    as (r & Hr & _ & _ & _ & Hsame & _); [reflexivity|].
  injection Hr as <-. apply Hsame. reflexivity.
Defined.

(** ** The life of a connection to the plan's WebSocket endpoint *)
Section EndpointFacts.
Import WebSocketManager WsEndpoint.
Variable handle_cancel_analysis : Manager → string → Manager.
Variable m0 : Manager.
Variable client_id : string.

(** Whatever [handle_cancel_analysis] does, it does no more to the tasks
    than cancel the one registered for the client. *)
Hypothesis cancel_only : ∀ m c,
  analysis_tasks (handle_cancel_analysis m c) = analysis_tasks m
  ∧ ∀ h, tasks (handle_cancel_analysis m c) !! h = tasks m !! h
         ∨ (analysis_tasks m !! c = Some h
            ∧ ∃ st, tasks m !! h = Some st
                    ∧ tasks (handle_cancel_analysis m c) !! h
                      = Some (Session.cancel st).1).

(** While the loop runs, the task registered for the client has ended, and
    the tasks that were there before the connection are as they were. *)
Lemma turn_keeps m msg :
  (∀ h, analysis_tasks m !! client_id = Some h →
        tasks m0 !! h = None
        ∧ (tasks m !! h = Some Session.Completed ∨ tasks m !! h = Some Session.Failed)) →
  (∀ h st, tasks m0 !! h = Some st → tasks m !! h = Some st) →
  let m' := (turn handle_cancel_analysis m client_id msg).1 in
  (∀ h, analysis_tasks m' !! client_id = Some h →
        tasks m0 !! h = None
        ∧ (tasks m' !! h = Some Session.Completed ∨ tasks m' !! h = Some Session.Failed))
  ∧ (∀ h st, tasks m0 !! h = Some st → tasks m' !! h = Some st).
Proof.
  intros Hreg Hold. destruct msg as [[outcome|]| | |]; cbn [turn fst]; try done.
  - cbn [handle_analysis_request].
    set (h := fresh (dom (tasks m))).
    assert (Hfresh : tasks m !! h = None)
      by (apply not_elem_of_dom, is_fresh).
    split.
    + intros h'. cbn [analysis_tasks tasks]. rewrite lookup_insert_eq.
      intros [= <-]. split.
      * destruct (tasks m0 !! h) as [st|] eqn:Hst; [|done].
        apply Hold in Hst. congruence.
      * rewrite lookup_insert_eq. destruct outcome; [by left|by right].
    + intros h' st Hst. cbn [tasks].
      assert (h' ≠ h) by (intros ->; apply Hold in Hst; congruence).
      rewrite !lookup_insert_ne by done. by apply Hold.
  - destruct (cancel_only m client_id) as [Hsame Htasks]. split.
    + intros h. rewrite Hsame. intros Hh.
      destruct (Hreg h Hh) as [Hnew Hended]. split; [done|].
      destruct (Htasks h) as [->|(_ & st & Hst & ->)]; [done|].
      destruct Hended as [Hc|Hf].
      * left. rewrite Hc in Hst. by injection Hst as <-.
      * right. rewrite Hf in Hst. by injection Hst as <-.
    + intros h st Hst.
      destruct (Htasks h) as [->|(Hh & _)]; [by apply Hold|].
      destruct (Hreg h Hh) as [Hnew _]. congruence.
Qed.

Lemma loop_keeps msgs : ∀ m,
  (∀ h, analysis_tasks m !! client_id = Some h →
        tasks m0 !! h = None
        ∧ (tasks m !! h = Some Session.Completed ∨ tasks m !! h = Some Session.Failed)) →
  (∀ h st, tasks m0 !! h = Some st → tasks m !! h = Some st) →
  let m' := loop handle_cancel_analysis m client_id msgs in
  (∀ h, analysis_tasks m' !! client_id = Some h →
        tasks m0 !! h = None
        ∧ (tasks m' !! h = Some Session.Completed ∨ tasks m' !! h = Some Session.Failed))
  ∧ (∀ h st, tasks m0 !! h = Some st → tasks m' !! h = Some st).
Proof.
  induction msgs as [|msg msgs IH]; intros m Hreg Hold; [done|].
  cbn [loop].
  pose proof (turn_keeps m msg Hreg Hold) as [Hreg' Hold'].
  destruct (turn handle_cancel_analysis m client_id msg) as [m' go_on].
  cbn [fst] in *. destruct go_on; [by apply IH|done].
Qed.

End EndpointFacts.



(** ** The Python batch service in completion order *)
Section CompletionFacts.
Context {Dict : Type}.
Implicit Types (tasks : list (Outcome Dict)) (ds : list Dict).

Lemma as_completed_lookup tasks (order : list nat) :
  Forall (λ i, is_Some (tasks !! i)) order →
  ∀ k i, order !! k = Some i → Batch.as_completed tasks order !! k = tasks !! i.
Proof.
  unfold Batch.as_completed.
  induction 1 as [|i0 order [t Ht] _ IH]; intros k i Hk; [done|].
  cbn [omap list_omap]. rewrite Ht. destruct k as [|k].
  - injection Hk as <-. by rewrite Ht.
  - by apply IH.
Qed.

Lemma collect_returned tasks ds :
  Batch.collect tasks = Returned ds → tasks = Returned <$> ds.
Proof.
  revert ds. induction tasks as [|[d|e] tasks IH]; intros ds; cbn.
  - by intros [= <-].
  - destruct (Batch.collect tasks) as [ds'|]; [|done].
    intros [= <-]. by rewrite (IH ds').
  - done.
Qed.

Lemma collect_first_thrown tasks k e :
  tasks !! k = Some (Thrown e) →
  (∀ k' o, (k' < k)%nat → tasks !! k' = Some o → is_returned o = true) →
  Batch.collect tasks = Thrown e.
Proof.
  revert k. induction tasks as [|o tasks IH]; intros k Hk Hbefore; [done|].
  destruct k as [|k].
  - injection Hk as ->. done.
  - destruct o as [d|e0].
    + cbn. rewrite (IH k Hk); [done|].
      intros k' o Hlt Ho. apply (Hbefore (S k') o); [lia|done].
    + assert (H0 : (0 < S k)%nat) by lia.
      by specialize (Hbefore 0%nat (Thrown e0) H0 eq_refl).
Qed.

End CompletionFacts.


